(** * Strategy simulator (tools/strategy_simulator.py): a shallow embedding

    The simulator is written once over an abstract number type [F] that
    carries the operations the Python source applies to its [float]s.  Two
    instances are used:

    - [binary64]: Rocq's primitive IEEE-754 binary64 floats, the arithmetic
      CPython really performs (round-to-nearest-even on every operation,
      [ZeroDivisionError] on a zero divisor, [round(x, n)] correctly rounded
      through decimal);
    - [rational]: exact arithmetic over [Q], the idealisation the
      specification reasons with when it states algebraic invariants.

    Fallible code (every [/] whose divisor is not a literal) lives in a small
    exception monad. *)

From Stdlib Require Import ZArith QArith Qround Qabs Floats List Bool Ascii
  String DecimalString Sorted Lia Lqa.
Import ListNotations.

Set Warnings "-inexact-float".

(** ** Exceptions *)

Inductive PyError : Type :=
| ZeroDivisionError.

Inductive exc (A : Type) : Type :=
| Ok (a : A)
| Raise (e : PyError).
Arguments Ok {A} a.
Arguments Raise {A} e.

Definition bind {A B} (m : exc A) (k : A -> exc B) : exc B :=
  match m with
  | Ok a => k a
  | Raise e => Raise e
  end.

Declare Scope exc_scope.
Delimit Scope exc_scope with exc.
Notation "x <- m ;; k" := (bind m (fun x => k))
  (at level 61, m at next level, right associativity) : exc_scope.
Notation "' p <- m ;; k" := (bind m (fun x => let p := x in k))
  (at level 61, p pattern, m at next level, right associativity) : exc_scope.
Open Scope exc_scope.

Definition returns {A} (m : exc A) : Prop := exists a, m = Ok a.
Definition raises {A} (m : exc A) (e : PyError) : Prop := m = Raise e.

(** ** The number interface *)

Class PyFloat (F : Type) : Type := {
  fzero : F;                    (* 0 and 0.0 *)
  fone : F;                     (* 1 *)
  fhundred : F;                 (* 100 and 100.0 *)
  f1e_4 : F;                    (* the literal 0.0001 *)
  f1e_3 : F;                    (* the literal 0.001 *)
  fadd : F -> F -> F;
  fsub : F -> F -> F;
  fmul : F -> F -> F;
  fquot : F -> F -> F;          (* x / y for a divisor that is not zero *)
  fneg : F -> F;
  fabs : F -> F;
  feqb : F -> F -> bool;        (* == *)
  fltb : F -> F -> bool;        (* <  *)
  fleb : F -> F -> bool;        (* <= *)
  fround : F -> Z -> F          (* round(x, ndigits) *)
}.

Declare Scope py_scope.
Delimit Scope py_scope with py.
Notation "x + y" := (fadd x y) : py_scope.
Notation "x - y" := (fsub x y) : py_scope.
Notation "x * y" := (fmul x y) : py_scope.
Notation "x /. y" := (fquot x y) (at level 40, left associativity) : py_scope.
Notation "- x" := (fneg x) : py_scope.
Notation "x <=? y" := (fleb x y) : py_scope.
Notation "x <? y" := (fltb x y) : py_scope.
Notation "x >=? y" := (fleb y x) (at level 70) : py_scope.
Notation "x >? y" := (fltb y x) (at level 70) : py_scope.
Notation "x =? y" := (feqb x y) : py_scope.

(** Python's [x / y]: [ZeroDivisionError] when the divisor compares equal
    to zero (both 0.0 and -0.0), the quotient otherwise.  Every division of
    the source whose divisor is a variable goes through [pydiv]; the
    divisions by the literal 100 cannot raise and are written
    [x /. fhundred]. *)
Definition pydiv {F} `{PyFloat F} (x y : F) : exc F :=
  if feqb y fzero then Raise ZeroDivisionError else Ok (fquot x y).

(** Truth value of a float in a condition: [x != 0]. *)
Definition truthy {F} `{PyFloat F} (x : F) : bool := negb (feqb x fzero).

(** ** Instance 1: IEEE-754 binary64 *)

Module Binary64.

(** [round(x, ndigits)] of CPython for a float: the exact binary value is
    rounded half-to-even to [ndigits] decimals and the decimal is converted
    back to the nearest double.  Non-finite values and zeros round to
    themselves; the sign of [x] is kept.  The simulator calls it with 1, 2
    and 8 digits only, where it cannot overflow. *)
Definition round_half_even_div (num den : Z) : Z :=
  let (q, r) := Z.div_eucl num den in
  match Z.compare (2 * r) den with
  | Lt => q
  | Gt => (q + 1)%Z
  | Eq => if Z.even q then q else (q + 1)%Z
  end.

Definition scaled_decimal (m : positive) (e : Z) (ndigits : Z) : Z :=
  let num := (Zpos m * 2 ^ Z.max e 0 * 10 ^ Z.max ndigits 0)%Z in
  let den := (2 ^ Z.max (- e) 0 * 10 ^ Z.max (- ndigits) 0)%Z in
  round_half_even_div num den.

Definition decimal_to_SF (s : bool) (n : Z) (ndigits : Z) : spec_float :=
  match n with
  | Zpos p =>
      if (0 <=? ndigits)%Z then
        SFdiv prec emax (S754_finite s p 0)
                        (S754_finite false (Z.to_pos (10 ^ ndigits)) 0)
      else binary_normalize prec emax
             (cond_Zopp s (Zpos p * 10 ^ (- ndigits))%Z) 0 s
  | _ => S754_zero s
  end.

Definition round (x : float) (ndigits : Z) : float :=
  match Prim2SF x with
  | S754_finite s m e =>
      if (323 <? ndigits)%Z then x
      else SF2Prim (decimal_to_SF s (scaled_decimal m e ndigits) ndigits)
  | _ => x
  end.

End Binary64.

#[export] Instance binary64 : PyFloat float := {|
  fzero := 0%float;
  fone := 1%float;
  fhundred := 100%float;
  f1e_4 := 0.0001%float;
  f1e_3 := 0.001%float;
  fadd := PrimFloat.add;
  fsub := PrimFloat.sub;
  fmul := PrimFloat.mul;
  fquot := PrimFloat.div;
  fneg := PrimFloat.opp;
  fabs := PrimFloat.abs;
  feqb := PrimFloat.eqb;
  fltb := PrimFloat.ltb;
  fleb := PrimFloat.leb;
  fround := Binary64.round
|}.

(** ** Instance 2: exact rationals *)

Module Rational.

Definition round (x : Q) (ndigits : Z) : Q :=
  let scale := Qpower 10 ndigits in
  let y := (x * scale)%Q in
  let f := Qfloor y in
  let n := match Qcompare (y - inject_Z f) (1 # 2) with
           | Lt => f
           | Gt => (f + 1)%Z
           | Eq => if Z.even f then f else (f + 1)%Z
           end in
  (inject_Z n / scale)%Q.

End Rational.

#[export] Instance rational : PyFloat Q := {|
  fzero := 0%Q;
  fone := 1%Q;
  fhundred := 100%Q;
  f1e_4 := (1 # 10000)%Q;
  f1e_3 := (1 # 1000)%Q;
  fadd := Qplus;
  fsub := Qminus;
  fmul := Qmult;
  fquot := Qdiv;
  fneg := Qopp;
  fabs := Qabs;
  feqb := Qeq_bool;
  fltb := fun x y => negb (Qle_bool y x);
  fleb := Qle_bool;
  fround := Rational.round
|}.

(** ** Models (dataclasses of the source) *)

Module GradualLot.
Record t (F : Type) : Type := mk {
  sell_percent : F;
  tp_percent : F;
  executed : bool;
  executed_at : option string;
  executed_price : option F;
  realized_pnl : option F
}.
Arguments mk {F}.
Arguments sell_percent {F}.
Arguments tp_percent {F}.
Arguments executed {F}.
Arguments executed_at {F}.
Arguments executed_price {F}.
Arguments realized_pnl {F}.

(** [GradualLot(sell_percent=.., tp_percent=..)] with the defaults. *)
Definition new {F} (sell tp : F) : t F := mk sell tp false None None None.
End GradualLot.

Module StrategyConfig.
Record t (F : Type) : Type := mk {
  token : string;
  exchange : string;
  entry_price : F;
  tp_percent : F;
  sl_percent : F;
  fee_percent : F;
  gradual_enabled : bool;
  gradual_lots : list (GradualLot.t F);
  check_interval_min : Z
}.
Arguments mk {F}.
Arguments token {F}.
Arguments exchange {F}.
Arguments entry_price {F}.
Arguments tp_percent {F}.
Arguments sl_percent {F}.
Arguments fee_percent {F}.
Arguments gradual_enabled {F}.
Arguments gradual_lots {F}.
Arguments check_interval_min {F}.
End StrategyConfig.

Module LotResult.
Record t (F : Type) : Type := mk {
  lot_index : Z;
  sell_percent : F;
  tp_percent : F;
  lot_quantity : F;
  sell_price : F;
  gross_value : F;
  cost : F;
  gross_profit : F;
  fee : F;
  net_profit : F;
  net_return_pct : F
}.
Arguments mk {F}.
Arguments lot_index {F}.
Arguments sell_percent {F}.
Arguments tp_percent {F}.
Arguments lot_quantity {F}.
Arguments sell_price {F}.
Arguments gross_value {F}.
Arguments cost {F}.
Arguments gross_profit {F}.
Arguments fee {F}.
Arguments net_profit {F}.
Arguments net_return_pct {F}.
End LotResult.

Module SimulationResult.
Record t (F : Type) : Type := mk {
  scenario : string;
  config : StrategyConfig.t F;
  quantity : F;
  total_cost : F;
  lot_results : list (LotResult.t F);
  total_gross_profit : F;
  total_fees : F;
  total_net_profit : F;
  total_net_return_pct : F;
  sl_loss : option F;
  sl_return_pct : option F;
  risk_reward_ratio : F
}.
Arguments mk {F}.
Arguments scenario {F}.
Arguments config {F}.
Arguments quantity {F}.
Arguments total_cost {F}.
Arguments lot_results {F}.
Arguments total_gross_profit {F}.
Arguments total_fees {F}.
Arguments total_net_profit {F}.
Arguments total_net_return_pct {F}.
Arguments sl_loss {F}.
Arguments sl_return_pct {F}.
Arguments risk_reward_ratio {F}.

(** [SimulationResult(scenario=.., config=.., quantity=.., total_cost=..)]:
    every other field takes its declared default. *)
Definition new {F} `{PyFloat F} (scenario : string)
    (config : StrategyConfig.t F) (quantity total_cost : F) : t F :=
  mk scenario config quantity total_cost [] fzero fzero fzero fzero
     None None fzero.

(** [result.lot_results.append(lot)] followed by the three [+=] on the
    running totals. *)
Definition add_lot {F} `{PyFloat F} (r : t F) (lot : LotResult.t F) : t F :=
  mk (scenario r) (config r) (quantity r) (total_cost r)
     (lot_results r ++ [lot])
     (total_gross_profit r + LotResult.gross_profit lot)%py
     (total_fees r + LotResult.fee lot)%py
     (total_net_profit r + LotResult.net_profit lot)%py
     (total_net_return_pct r) (sl_loss r) (sl_return_pct r)
     (risk_reward_ratio r).

Definition set_total_net_return_pct {F} (r : t F) (v : F) : t F :=
  mk (scenario r) (config r) (quantity r) (total_cost r) (lot_results r)
     (total_gross_profit r) (total_fees r) (total_net_profit r)
     v (sl_loss r) (sl_return_pct r) (risk_reward_ratio r).

Definition set_sl {F} (r : t F) (loss ret : F) : t F :=
  mk (scenario r) (config r) (quantity r) (total_cost r) (lot_results r)
     (total_gross_profit r) (total_fees r) (total_net_profit r)
     (total_net_return_pct r) (Some loss) (Some ret) (risk_reward_ratio r).

Definition set_risk_reward_ratio {F} (r : t F) (v : F) : t F :=
  mk (scenario r) (config r) (quantity r) (total_cost r) (lot_results r)
     (total_gross_profit r) (total_fees r) (total_net_profit r)
     (total_net_return_pct r) (sl_loss r) (sl_return_pct r) v.
End SimulationResult.

(** Decimal rendering of a Python [int] inside an f-string. *)
Definition str_of_int (z : Z) : string := NilZero.string_of_int (Z.to_int z).

(** ** The simulator *)

Section StrategySimulator.

Context {F : Type} `{PyFloat F}.
Local Open Scope py_scope.

(** [__init__]: the simulator holds a configuration and a quantity. *)
Variable c : StrategyConfig.t F.
Variable quantity : F.

Definition total_cost : F := StrategyConfig.entry_price c * quantity.

(** The pure stop-loss leg, written three times in the source (lines
    132-137, 188-193 and 282-287): [sl_loss] and [sl_return_pct]. *)
Definition sl_loss_of : F :=
  let sl_price :=
    StrategyConfig.entry_price c
    * (fone - StrategyConfig.sl_percent c /. fhundred) in
  let sl_value := quantity * sl_price in
  let sl_loss_gross := sl_value - total_cost in
  let sl_fee := sl_value * (StrategyConfig.fee_percent c /. fhundred) in
  sl_loss_gross - sl_fee.

Definition stop_loss_leg (r : SimulationResult.t F)
  : exc (SimulationResult.t F) :=
  let sl_loss := sl_loss_of in
  q <- pydiv sl_loss total_cost ;;
  Ok (SimulationResult.set_sl r sl_loss (q * fhundred)).

(** The risk/reward step (lines 140-141 and 196-197). *)
Definition risk_reward (net_profit : F) (r : SimulationResult.t F)
  : exc (SimulationResult.t F) :=
  match SimulationResult.sl_loss r with
  | Some sl_loss =>
      if truthy sl_loss && (fabs sl_loss >? fzero) then
        q <- pydiv net_profit sl_loss ;;
        Ok (SimulationResult.set_risk_reward_ratio r (fabs q))
      else Ok r
  | None => Ok r
  end.

Definition simulate_single_sell : exc (SimulationResult.t F) :=
  let result :=
    SimulationResult.new "Venda Única" c quantity total_cost in
  (* TP *)
  let sell_price :=
    StrategyConfig.entry_price c
    * (fone + StrategyConfig.tp_percent c /. fhundred) in
  let gross_value := quantity * sell_price in
  let gross_profit := gross_value - total_cost in
  let fee := gross_value * (StrategyConfig.fee_percent c /. fhundred) in
  let net_profit := gross_profit - fee in
  q <- pydiv net_profit total_cost ;;
  let lot :=
    LotResult.mk 0 fhundred (StrategyConfig.tp_percent c) quantity
      sell_price gross_value total_cost gross_profit fee net_profit
      (q * fhundred) in
  let result :=
    SimulationResult.mk (SimulationResult.scenario result) c quantity
      total_cost (SimulationResult.lot_results result ++ [lot])
      gross_profit fee net_profit
      (SimulationResult.total_net_return_pct result) None None
      (SimulationResult.risk_reward_ratio result) in
  q' <- pydiv net_profit total_cost ;;
  let result :=
    SimulationResult.set_total_net_return_pct result (q' * fhundred) in
  (* SL *)
  result <- stop_loss_leg result ;;
  (* Risk/Reward *)
  risk_reward net_profit result.

(** Body of the loops over the configured lots (lines 157-183 and
    219-246): one lot sold at its own take-profit price. *)
Definition sell_lot (i : nat) (lot_config : GradualLot.t F)
  : exc (LotResult.t F) :=
  let lot_pct := GradualLot.sell_percent lot_config /. fhundred in
  let lot_qty := quantity * lot_pct in
  let lot_cost := total_cost * lot_pct in
  let sell_price :=
    StrategyConfig.entry_price c
    * (fone + GradualLot.tp_percent lot_config /. fhundred) in
  let gross_value := lot_qty * sell_price in
  let gross_profit := gross_value - lot_cost in
  let fee := gross_value * (StrategyConfig.fee_percent c /. fhundred) in
  let net_profit := gross_profit - fee in
  q <- pydiv net_profit lot_cost ;;
  Ok (LotResult.mk (Z.of_nat i) (GradualLot.sell_percent lot_config)
        (GradualLot.tp_percent lot_config) lot_qty sell_price gross_value
        lot_cost gross_profit fee net_profit (q * fhundred)).

Fixpoint sell_lots (i : nat) (lots : list (GradualLot.t F))
    (result : SimulationResult.t F) : exc (SimulationResult.t F) :=
  match lots with
  | [] => Ok result
  | lot_config :: rest =>
      lot <- sell_lot i lot_config ;;
      sell_lots (S i) rest (SimulationResult.add_lot result lot)
  end.

Definition simulate_gradual_sell : exc (SimulationResult.t F) :=
  let result :=
    SimulationResult.new "Venda Gradual" c quantity total_cost in
  match StrategyConfig.gradual_lots c with
  | [] => Ok result
  | _ :: _ =>
      result <- sell_lots 0 (StrategyConfig.gradual_lots c) result ;;
      q <- pydiv (SimulationResult.total_net_profit result) total_cost ;;
      let result :=
        SimulationResult.set_total_net_return_pct result (q * fhundred) in
      (* SL (perda máxima = tudo bate SL) *)
      result <- stop_loss_leg result ;;
      (* Risk/Reward *)
      risk_reward (SimulationResult.total_net_profit result) result
  end.

(** The loop of [simulate_partial_exit] (lines 218-247): as [sell_lots],
    and [sold_pct] accumulates the percentages sold. *)
Fixpoint sell_hit_lots (i : nat) (lots : list (GradualLot.t F))
    (result : SimulationResult.t F) (sold_pct : F)
  : exc (SimulationResult.t F * F) :=
  match lots with
  | [] => Ok (result, sold_pct)
  | lot_config :: rest =>
      lot <- sell_lot i lot_config ;;
      sell_hit_lots (S i) rest (SimulationResult.add_lot result lot)
        (sold_pct + GradualLot.sell_percent lot_config)
  end.

Definition simulate_partial_exit (lots_hit : Z)
  : exc (SimulationResult.t F) :=
  match StrategyConfig.gradual_lots c with
  | [] =>
      Ok (SimulationResult.new
            (String.append "Parcial ("
               (String.append (str_of_int lots_hit) " lotes)"))
            c quantity total_cost)
  | _ :: _ =>
      let result :=
        SimulationResult.new
          (String.append "Parcial: "
             (String.append (str_of_int lots_hit) " lote(s) TP + SL no resto"))
          c quantity total_cost in
      let sold_pct := fzero in
      (* Lotes que atingiram TP *)
      let n :=
        Z.min lots_hit
          (Z.of_nat (List.length (StrategyConfig.gradual_lots c))) in
      '(result, sold_pct) <-
        sell_hit_lots 0
          (firstn (Z.to_nat n) (StrategyConfig.gradual_lots c))
          result sold_pct ;;
      (* Restante bate SL *)
      let remaining_pct := (fhundred - sold_pct) /. fhundred in
      result <-
        (if remaining_pct >? f1e_3 then
           let remaining_qty := quantity * remaining_pct in
           let remaining_cost := total_cost * remaining_pct in
           let sl_price :=
             StrategyConfig.entry_price c
             * (fone - StrategyConfig.sl_percent c /. fhundred) in
           let sl_value := remaining_qty * sl_price in
           let sl_loss_gross := sl_value - remaining_cost in
           let sl_fee :=
             sl_value * (StrategyConfig.fee_percent c /. fhundred) in
           let sl_net := sl_loss_gross - sl_fee in
           q <- pydiv sl_net remaining_cost ;;
           Ok (SimulationResult.add_lot result
                 (LotResult.mk lots_hit (remaining_pct * fhundred)
                    (- StrategyConfig.sl_percent c) remaining_qty sl_price
                    sl_value remaining_cost sl_loss_gross sl_fee sl_net
                    (q * fhundred)))
         else Ok result) ;;
      q <- pydiv (SimulationResult.total_net_profit result) total_cost ;;
      let result :=
        SimulationResult.set_total_net_return_pct result (q * fhundred) in
      (* SL puro para risk/reward *)
      stop_loss_leg result
  end.

End StrategySimulator.

(** ** The price-series walker (backtesting) *)

(** One entry of the local list [lots]:
    [{"sell_pct": .., "tp_pct": .., "executed": ..}]. *)
Module Lot.
Record t (F : Type) : Type := mk {
  sell_pct : F;
  tp_pct : F;
  executed : bool
}.
Arguments mk {F}.
Arguments sell_pct {F}.
Arguments tp_pct {F}.
Arguments executed {F}.

Definition of_config {F} (l : GradualLot.t F) : t F :=
  mk (GradualLot.sell_percent l) (GradualLot.tp_percent l) false.

(** [lot["executed"] = True] *)
Definition set_executed {F} (lot : t F) : t F :=
  mk (sell_pct lot) (tp_pct lot) true.
End Lot.

Inductive EventKind : Type :=
| STOP_LOSS
| TP_LOT (k : nat)       (* f"TP_LOT_{i+1}" carries k = i+1 *)
| TAKE_PROFIT.

Definition event_name (k : EventKind) : string :=
  match k with
  | STOP_LOSS => "STOP_LOSS"
  | TP_LOT k => String.append "TP_LOT_" (str_of_int (Z.of_nat k))
  | TAKE_PROFIT => "TAKE_PROFIT"
  end.

Definition EventKind_eqb (a b : EventKind) : bool :=
  match a, b with
  | STOP_LOSS, STOP_LOSS => true
  | TP_LOT i, TP_LOT j => Nat.eqb i j
  | TAKE_PROFIT, TAKE_PROFIT => true
  | _, _ => false
  end.

(** A trade entry of the event log.  The key ["tp_pct"] exists only in
    [TP_LOT] entries. *)
Module Event.
Record t (F : Type) : Type := mk {
  tick : nat;
  price : F;
  change_pct : F;
  event : EventKind;
  sell_qty : F;
  sell_pct : F;
  tp_pct : option F;
  gross_pnl : F;
  fee : F;
  net_pnl : F
}.
Arguments mk {F}.
Arguments tick {F}.
Arguments price {F}.
Arguments change_pct {F}.
Arguments event {F}.
Arguments sell_qty {F}.
Arguments sell_pct {F}.
Arguments tp_pct {F}.
Arguments gross_pnl {F}.
Arguments fee {F}.
Arguments net_pnl {F}.
End Event.

Inductive Status : Type :=
| COMPLETED
| OPEN.

(** The closing entry, whose ["tick"] is the string ["SUMMARY"]. *)
Module Summary.
Record t (F : Type) : Type := mk {
  total_realized_pnl : F;
  total_fees : F;
  remaining_qty : F;
  remaining_pct : F;
  return_pct : F;
  status : Status
}.
Arguments mk {F}.
Arguments total_realized_pnl {F}.
Arguments total_fees {F}.
Arguments remaining_qty {F}.
Arguments remaining_pct {F}.
Arguments return_pct {F}.
Arguments status {F}.
End Summary.

Inductive LogEntry (F : Type) : Type :=
| Trade (e : Event.t F)
| SUMMARY (s : Summary.t F).
Arguments Trade {F} e.
Arguments SUMMARY {F} s.

Definition is_summary {F} (e : LogEntry F) : bool :=
  match e with
  | SUMMARY _ => true
  | Trade _ => false
  end.

Definition is_event {F} (k : EventKind) (e : LogEntry F) : bool :=
  match e with
  | Trade ev => EventKind_eqb (Event.event ev) k
  | SUMMARY _ => false
  end.

(** The mutable locals of [simulate_price_series]. *)
Module Walk.
Record t (F : Type) : Type := mk {
  lots : list (Lot.t F);
  remaining_qty : F;
  total_realized : F;
  total_fees : F;
  events : list (LogEntry F)
}.
Arguments mk {F}.
Arguments lots {F}.
Arguments remaining_qty {F}.
Arguments total_realized {F}.
Arguments total_fees {F}.
Arguments events {F}.
End Walk.

(** How an iteration of the [for tick, price] loop ends. *)
Inductive control : Type :=
| Continue
| Break.

Section PriceSeries.

Context {F : Type} `{PyFloat F}.
Local Open Scope py_scope.

Variable c : StrategyConfig.t F.
Variable quantity : F.

(** [lots = [{...} for l in c.gradual_lots] if c.gradual_lots else []] *)
Definition initial_lots : list (Lot.t F) :=
  match StrategyConfig.gradual_lots c with
  | [] => []
  | _ :: _ => map Lot.of_config (StrategyConfig.gradual_lots c)
  end.

Definition initial : Walk.t F :=
  Walk.mk initial_lots quantity fzero fzero [].

(** Line 303. *)
Definition change_pct_of (price : F) : exc F :=
  q <- pydiv (price - StrategyConfig.entry_price c)
             (StrategyConfig.entry_price c) ;;
  Ok (q * fhundred).

(** The stop-loss guard of line 306. *)
Definition sl_triggered (st : Walk.t F) (change_pct : F) : bool :=
  (change_pct <=? - StrategyConfig.sl_percent c)
  && (Walk.remaining_qty st >? f1e_4).

(** Lines 307-326: the whole remaining quantity is sold at [price]. *)
Definition stop_loss (st : Walk.t F) (tick : nat) (price change_pct : F)
  : exc (Walk.t F) :=
  let remaining_qty := Walk.remaining_qty st in
  let sl_value := remaining_qty * price in
  q <- pydiv remaining_qty quantity ;;
  let sl_cost := q * total_cost c quantity in
  let sl_loss := sl_value - sl_cost in
  let sl_fee := sl_value * (StrategyConfig.fee_percent c /. fhundred) in
  let sl_net := sl_loss - sl_fee in
  q' <- pydiv remaining_qty quantity ;;
  let ev :=
    Event.mk tick price (fround change_pct 2) STOP_LOSS
      (fround remaining_qty 8) (fround (q' * fhundred) 1) None
      (fround sl_loss 2) (fround sl_fee 2) (fround sl_net 2) in
  Ok (Walk.mk (Walk.lots st) fzero
        (Walk.total_realized st + sl_net) (Walk.total_fees st + sl_fee)
        (Walk.events st ++ [Trade ev])).

(** The scan of lines 331-361: the lots before the first pending lot whose
    threshold is reached are skipped ([continue] when executed, fall through
    when the threshold is not reached); that lot is marked executed and the
    scan stops ([break]).  Returns its index, the lot and the updated list. *)
Fixpoint scan_lots (change_pct : F) (i : nat) (lots : list (Lot.t F))
  : option (nat * Lot.t F * list (Lot.t F)) :=
  match lots with
  | [] => None
  | lot :: rest =>
      if Lot.executed lot then
        match scan_lots change_pct (S i) rest with
        | Some (k, hit, rest') => Some (k, hit, lot :: rest')
        | None => None
        end
      else if change_pct >=? Lot.tp_pct lot then
        Some (i, lot, Lot.set_executed lot :: rest)
      else
        match scan_lots change_pct (S i) rest with
        | Some (k, hit, rest') => Some (k, hit, lot :: rest')
        | None => None
        end
  end.

(** Lines 335-360: lot [i] is sold at [price]. *)
Definition take_profit_lot (st : Walk.t F) (tick : nat)
    (price change_pct : F) (i : nat) (lot : Lot.t F)
    (lots' : list (Lot.t F)) : Walk.t F :=
  let lot_pct := Lot.sell_pct lot /. fhundred in
  let lot_qty := quantity * lot_pct in
  let lot_cost := total_cost c quantity * lot_pct in
  let sell_value := lot_qty * price in
  let profit := sell_value - lot_cost in
  let fee := sell_value * (StrategyConfig.fee_percent c /. fhundred) in
  let net := profit - fee in
  let ev :=
    Event.mk tick price (fround change_pct 2) (TP_LOT (i + 1))
      (fround lot_qty 8) (Lot.sell_pct lot) (Some (Lot.tp_pct lot))
      (fround profit 2) (fround fee 2) (fround net 2) in
  Walk.mk lots' (Walk.remaining_qty st - lot_qty)
    (Walk.total_realized st + net) (Walk.total_fees st + fee)
    (Walk.events st ++ [Trade ev]).

(** The guard of line 364. *)
Definition tp_triggered (st : Walk.t F) (change_pct : F) : bool :=
  (change_pct >=? StrategyConfig.tp_percent c)
  && (Walk.remaining_qty st >? f1e_4).

(** Lines 365-383: single take-profit of the whole remaining quantity. *)
Definition take_profit (st : Walk.t F) (tick : nat) (price change_pct : F)
  : Walk.t F :=
  let remaining_qty := Walk.remaining_qty st in
  let sell_value := remaining_qty * price in
  let profit := sell_value - total_cost c quantity in
  let fee := sell_value * (StrategyConfig.fee_percent c /. fhundred) in
  let net := profit - fee in
  let ev :=
    Event.mk tick price (fround change_pct 2) TAKE_PROFIT
      (fround remaining_qty 8) fhundred None
      (fround profit 2) (fround fee 2) (fround net 2) in
  Walk.mk (Walk.lots st) fzero
    (Walk.total_realized st + net) (Walk.total_fees st + fee)
    (Walk.events st ++ [Trade ev]).

(** The [if lots: ... elif ...:] of lines 330-384. *)
Definition take_profit_check (st : Walk.t F) (tick : nat)
    (price change_pct : F) : Walk.t F * control :=
  match Walk.lots st with
  | _ :: _ =>
      match scan_lots change_pct 0 (Walk.lots st) with
      | Some (i, lot, lots') =>
          (take_profit_lot st tick price change_pct i lot lots', Continue)
      | None => (st, Continue)
      end
  | [] =>
      if tp_triggered st change_pct
      then (take_profit st tick price change_pct, Break)
      else (st, Continue)
  end.

(** One iteration of the loop body (lines 303-387). *)
Definition step (st : Walk.t F) (tick : nat) (price : F)
  : exc (Walk.t F * control) :=
  change_pct <- change_pct_of price ;;
  (* Check SL *)
  if sl_triggered st change_pct then
    st' <- stop_loss st tick price change_pct ;;
    Ok (st', Break)
  else
    (* Check TP *)
    match take_profit_check st tick price change_pct with
    | (st', Break) => Ok (st', Break)
    | (st', Continue) =>
        if Walk.remaining_qty st' <=? f1e_4
        then Ok (st', Break)
        else Ok (st', Continue)
    end.

(** [for tick, price in enumerate(prices)], from tick number [tick] on.
    The control says whether the loop was left by a [break]. *)
Fixpoint walk (st : Walk.t F) (tick : nat) (prices : list F)
  : exc (Walk.t F * control) :=
  match prices with
  | [] => Ok (st, Continue)
  | price :: rest =>
      '(st', k) <- step st tick price ;;
      match k with
      | Break => Ok (st', Break)
      | Continue => walk st' (S tick) rest
      end
  end.

(** Lines 390-398. *)
Definition summary (st : Walk.t F) : exc (Summary.t F) :=
  let remaining_qty := Walk.remaining_qty st in
  remaining_pct <-
    (if quantity >? fzero then
       q <- pydiv remaining_qty quantity ;;
       Ok (fround (q * fhundred) 1)
     else Ok fzero) ;;
  return_pct <-
    (if total_cost c quantity >? fzero then
       q <- pydiv (Walk.total_realized st) (total_cost c quantity) ;;
       Ok (fround (q * fhundred) 2)
     else Ok fzero) ;;
  Ok (Summary.mk (fround (Walk.total_realized st) 2)
        (fround (Walk.total_fees st) 2) (fround remaining_qty 8)
        remaining_pct return_pct
        (if remaining_qty <=? f1e_4 then COMPLETED else OPEN)).

Definition simulate_price_series (prices : list F)
  : exc (list (LogEntry F)) :=
  '(st, _) <- walk initial 0 prices ;;
  s <- summary st ;;
  Ok (Walk.events st ++ [SUMMARY s]).

End PriceSeries.

(** ** The payload adapter *)

(** Python values of the payload: nested [dict]s (insertion ordered),
    [list]s, strings, [int]s, [float]s and booleans. *)
#[local] Unset Elimination Schemes.
Inductive pyobj (F : Type) : Type :=
| PStr (s : string)
| PInt (z : Z)
| PFloat (x : F)
| PBool (b : bool)
| PList (l : list (pyobj F))
| PDict (d : list (string * pyobj F)).
#[local] Set Elimination Schemes.
Arguments PStr {F} s.
Arguments PInt {F} z.
Arguments PFloat {F} x.
Arguments PBool {F} b.
Arguments PList {F} l.
Arguments PDict {F} d.

(** [d[k]] *)
Fixpoint getitem {F} (d : list (string * pyobj F)) (k : string)
  : option (pyobj F) :=
  match d with
  | [] => None
  | (k', v) :: rest => if String.eqb k k' then Some v else getitem rest k
  end.

(** [d[k] = v]: replaces the value of an existing key in place, appends a
    new key at the end. *)
Fixpoint setitem {F} (d : list (string * pyobj F)) (k : string)
    (v : pyobj F) : list (string * pyobj F) :=
  match d with
  | [] => [(k, v)]
  | (k', v') :: rest =>
      if String.eqb k k' then (k', v) :: rest
      else (k', v') :: setitem rest k v
  end.

(** [s.split(sep)[0]] for a one-character separator: what precedes the
    first separator, or the whole string. *)
Fixpoint split_head (sep : Ascii.ascii) (s : string) : string :=
  match s with
  | EmptyString => EmptyString
  | String a rest =>
      if Ascii.eqb a sep then EmptyString else String a (split_head sep rest)
  end.

Section Payload.

Context {F : Type} `{PyFloat F}.
Variable c : StrategyConfig.t F.

Definition lot_payload (lot : GradualLot.t F) : pyobj F :=
  PDict [("sell_percent", PFloat (GradualLot.sell_percent lot));
         ("tp_percent", PFloat (GradualLot.tp_percent lot));
         ("executed", PBool false)]%string.

Definition generate_api_payload : list (string * pyobj F) :=
  let payload :=
    [("name",
      PStr (String.append (split_head "/"%char (StrategyConfig.token c))
              (String.append " Swing "
                 (if StrategyConfig.gradual_enabled c
                  then "Gradual" else "Simple"))));
     ("strategy_type", PStr "swing_trade");
     ("symbol", PStr (StrategyConfig.token c));
     ("exchange_id", PStr "seu_exchange_id");
     ("exchange_name", PStr (StrategyConfig.exchange c));
     ("check_interval_secs", PInt (StrategyConfig.check_interval_min c * 60));
     ("config",
      PDict [("fee_percent", PFloat (StrategyConfig.fee_percent c));
             ("stop_loss",
              PDict [("enabled", PBool true);
                     ("percent", PFloat (StrategyConfig.sl_percent c));
                     ("trailing", PBool false)]);
             ("mode", PStr "spot")])]%string in
  let config :=
    match getitem payload "config" with
    | Some (PDict d) => d
    | _ => []
    end in
  match StrategyConfig.gradual_enabled c, StrategyConfig.gradual_lots c with
  | true, _ :: _ =>
      setitem payload "config"
        (PDict (setitem config "gradual_sell"
           (PDict [("enabled", PBool true);
                   ("lots",
                    PList (map lot_payload (StrategyConfig.gradual_lots c)))
                  ])))%string
  | _, _ =>
      setitem payload "config"
        (PDict (setitem config "take_profit_levels"
           (PList [PDict [("percent", PFloat (StrategyConfig.tp_percent c));
                          ("sell_percent", PFloat fhundred);
                          ("executed", PBool false)]])))%string
  end.

End Payload.

(** ** Notions used by the statements *)

Section Notions.

Context {F : Type} `{PyFloat F}.
Local Open Scope py_scope.

(** Python's [sum(..)]: left to right from 0. *)
Definition pysum (l : list F) : F := fold_left fadd l fzero.

(** A lot the scan passes over: already executed, or threshold not reached. *)
Definition skipped (change_pct : F) (l : Lot.t F) : Prop :=
  Lot.executed l = true \/ fleb (Lot.tp_pct l) change_pct = false.

(** Number of stages already executed. *)
Definition executed_count (lots : list (Lot.t F)) : nat :=
  List.length (filter Lot.executed lots).

Variable quantity : F.

(** With a zero quantity the remaining quantity never exceeds the
    threshold, so the division of the stop-loss branch is never reached
    with a zero divisor. *)
Definition safe (st : Walk.t F) : Prop :=
  feqb quantity fzero = true -> (Walk.remaining_qty st >? f1e_4) = false.

(** What one iteration can do to the state. *)
Inductive step_effect (st : Walk.t F) : Walk.t F -> control -> Prop :=
| effect_stop_loss ev realized fees :
    Event.event ev = STOP_LOSS ->
    (Walk.remaining_qty st >? f1e_4) = true ->
    step_effect st
      (Walk.mk (Walk.lots st) fzero realized fees
         (Walk.events st ++ [Trade ev])) Break
| effect_take_profit ev realized fees :
    Event.event ev = TAKE_PROFIT ->
    (Walk.remaining_qty st >? f1e_4) = true ->
    step_effect st
      (Walk.mk (Walk.lots st) fzero realized fees
         (Walk.events st ++ [Trade ev])) Break
| effect_lot ch i hit lots' ev realized fees k :
    scan_lots ch 0 (Walk.lots st) = Some (i, hit, lots') ->
    Event.event ev = TP_LOT (i + 1) ->
    step_effect st
      (Walk.mk lots'
         (Walk.remaining_qty st - quantity * (Lot.sell_pct hit /. fhundred))
         realized fees (Walk.events st ++ [Trade ev])) k
| effect_none k :
    step_effect st st k.

End Notions.

Section RationalNotions.

Local Open Scope Q_scope.
Variable quantity : Q.

(** Quantity still to be sold by the pending stages. *)
Fixpoint pending_qty (lots : list (Lot.t Q)) : Q :=
  match lots with
  | [] => 0
  | l :: rest =>
      if Lot.executed l then pending_qty rest
      else quantity * (Lot.sell_pct l * (1 # 100)) + pending_qty rest
  end.

Definition nonneg_lots (lots : list (Lot.t Q)) : Prop :=
  Forall (fun l => 0 <= Lot.sell_pct l) lots.

(** The invariant of the walk in exact arithmetic: what the pending stages
    will sell is still there. *)
Definition allocation_ok (st : Walk.t Q) : Prop :=
  nonneg_lots (Walk.lots st) /\
  pending_qty (Walk.lots st) <= Walk.remaining_qty st.

End RationalNotions.

(** Closeness of a binary64 value to a decimal constant. *)
Definition near (x v tol : float) : bool :=
  PrimFloat.leb (PrimFloat.abs (PrimFloat.sub x v)) tol.

(** ** Example inputs *)

Module Examples.

(** The default configuration of [main()] and its quantity. *)
Definition sol_lots : list (GradualLot.t float) :=
  [GradualLot.new 30 10; GradualLot.new 30 15;
   GradualLot.new 20 20; GradualLot.new 20 25]%float.

Definition sol_config : StrategyConfig.t float :=
  StrategyConfig.mk "SOL/USDT" "OKX" 36%float 10%float 5%float 0.5%float
    true sol_lots 15.

Definition sol_quantity : float := 0.44%float.

(** The same figures without stages. *)
Definition single_config : StrategyConfig.t float :=
  StrategyConfig.mk "SOL/USDT" "OKX" 36%float 10%float 5%float 0.5%float
    false [] 15.

(** The same configuration in exact arithmetic. *)
Definition sol_lots_exact : list (GradualLot.t Q) :=
  [GradualLot.new 30 10; GradualLot.new 30 15;
   GradualLot.new 20 20; GradualLot.new 20 25]%Q.

Definition sol_config_exact : StrategyConfig.t Q :=
  StrategyConfig.mk "SOL/USDT" "OKX" 36%Q 10%Q 5%Q (1 # 2)%Q
    true sol_lots_exact 15.

Definition single_config_exact : StrategyConfig.t Q :=
  StrategyConfig.mk "SOL/USDT" "OKX" 36%Q 10%Q 5%Q (1 # 2)%Q
    false [] 15.

Definition sol_quantity_exact : Q := (11 # 25)%Q.

(** Degenerate configurations. *)
Definition negative_entry : StrategyConfig.t float :=
  StrategyConfig.mk "SOL/USDT" "OKX" (-36)%float 10%float 5%float 0.5%float
    false [] 15.

Definition zero_entry : StrategyConfig.t float :=
  StrategyConfig.mk "SOL/USDT" "OKX" 0%float 10%float 5%float 0.5%float
    false [] 15.

(** Two stages of 50% at +10% and +20%. *)
Definition two_stages : StrategyConfig.t float :=
  StrategyConfig.mk "SOL/USDT" "OKX" 36%float 10%float 5%float 0.5%float true
    [GradualLot.new 50 10; GradualLot.new 50 20]%float 15.

(** Stages that sell 120% of the position. *)
Definition over_allocated : StrategyConfig.t float :=
  StrategyConfig.mk "SOL/USDT" "OKX" 36%float 10%float 5%float 0.5%float true
    [GradualLot.new 60 10; GradualLot.new 60 20]%float 15.

(** Ten stages of 10%. *)
Definition ten_stages : StrategyConfig.t float :=
  StrategyConfig.mk "SOL/USDT" "OKX" 36%float 10%float 5%float 0.5%float true
    (repeat (GradualLot.new 10 10)%float 10) 15.

(** No stop-loss distance and no fee: the stop-loss leg loses nothing. *)
Definition zero_stop : StrategyConfig.t float :=
  StrategyConfig.mk "SOL/USDT" "OKX" 36%float 10%float 0%float 0%float
    false [] 15.

(** A stage with a negative share. *)
Definition negative_share : StrategyConfig.t float :=
  StrategyConfig.mk "SOL/USDT" "OKX" 36%float 10%float 5%float 0.5%float true
    [GradualLot.new (-50) 10]%float 15.

(** The price paths replayed by [main()]: [entry * (1 + i * 0.01)] for 35
    ticks and [entry * (1 - i * 0.01)] for 10 ticks. *)
Definition float_of_nat (i : nat) : float :=
  PrimFloat.of_uint63 (Uint63.of_Z (Z.of_nat i)).

Definition rising_prices : list float :=
  map (fun i => 36 * (1 + float_of_nat i * 0.01))%float (seq 0 35).

Definition falling_prices : list float :=
  map (fun i => 36 * (1 - float_of_nat i * 0.01))%float (seq 0 10).

(** The same rise in exact arithmetic. *)
Definition rising_prices_exact : list Q :=
  map (fun i => 36 * (1 + inject_Z (Z.of_nat i) * (1 # 100)))%Q (seq 0 35).

(** The default stages under another label, flag and single take-profit. *)
Definition relabelled_config : StrategyConfig.t float :=
  StrategyConfig.mk "ETH/USDT" "Binance" 36%float 50%float 5%float 0.5%float
    false sol_lots 1.

(** One stage that sells everything, in binary64. *)
Definition one_stage : StrategyConfig.t float :=
  StrategyConfig.mk "SOL/USDT" "OKX" 36%float 10%float 5%float 0.5%float
    true [GradualLot.new 100 10]%float 15.

(** The mode flag set with no stage configured. *)
Definition enabled_without_stages : StrategyConfig.t float :=
  StrategyConfig.mk "SOL/USDT" "OKX" 36%float 10%float 5%float 0.5%float
    true [] 15.

(** Prices that stay between the stop-loss and the first take-profit. *)
Definition flat_prices : list float := [36; 37; 35; 39]%float.

End Examples.

(** ** Further notions: the lots a loop produces *)

Section LotNotions.

Context {F : Type} `{PyFloat F}.
Variable c : StrategyConfig.t F.
Variable quantity : F.

(** The per-lot results of the loops of [simulate_gradual_sell] and
    [simulate_partial_exit], before they are accumulated in the result. *)
Fixpoint sell_each (i : nat) (lots : list (GradualLot.t F))
  : exc (list (LotResult.t F)) :=
  match lots with
  | [] => Ok []
  | lot_config :: rest =>
      lot <- sell_lot c quantity i lot_config ;;
      outs <- sell_each (S i) rest ;;
      Ok (lot :: outs)
  end.

(** Number of stages [simulate_partial_exit] sells at their take-profit:
    [len(range(min(lots_hit, len(c.gradual_lots))))]. *)
Definition stages_hit (lots_hit : Z) : nat :=
  Z.to_nat (Z.min lots_hit
              (Z.of_nat (List.length (StrategyConfig.gradual_lots c)))).

(** The share of the position [simulate_partial_exit] leaves to the
    stop-loss: [(100 - sold_pct) / 100] after the stages hit. *)
Definition remaining_pct_of (lots_hit : Z) : F :=
  fquot
    (fsub fhundred
       (fold_left fadd
          (map GradualLot.sell_percent
             (firstn (stages_hit lots_hit) (StrategyConfig.gradual_lots c)))
          fzero))
    fhundred.

(** The closing lot of [simulate_partial_exit] (lines 252-273). *)
Definition closing_lot (lots_hit : Z) : LotResult.t F :=
  let remaining_pct := remaining_pct_of lots_hit in
  let remaining_qty := fmul quantity remaining_pct in
  let remaining_cost := fmul (total_cost c quantity) remaining_pct in
  let sl_price :=
    fmul (StrategyConfig.entry_price c)
      (fsub fone (fquot (StrategyConfig.sl_percent c) fhundred)) in
  let sl_value := fmul remaining_qty sl_price in
  let sl_loss_gross := fsub sl_value remaining_cost in
  let sl_fee :=
    fmul sl_value (fquot (StrategyConfig.fee_percent c) fhundred) in
  let sl_net := fsub sl_loss_gross sl_fee in
  LotResult.mk lots_hit (fmul remaining_pct fhundred)
    (fneg (StrategyConfig.sl_percent c)) remaining_qty sl_price sl_value
    remaining_cost sl_loss_gross sl_fee sl_net
    (fmul (fquot sl_net remaining_cost) fhundred).

End LotNotions.

(** The running figures of the walker recomputed from the trades of a log.
    A trade entry records the price, the kind and, for a stage sale, the
    stage's share; with the quantity [held] before the trade these give the
    figures before rounding. *)
Section Ledger.

Context {F : Type} `{PyFloat F}.
Local Open Scope py_scope.
Variable c : StrategyConfig.t F.
Variable quantity : F.

Definition sold_qty (held : F) (ev : Event.t F) : F :=
  match Event.event ev with
  | TP_LOT _ => quantity * (Event.sell_pct ev /. fhundred)
  | STOP_LOSS | TAKE_PROFIT => held
  end.

Definition cost_of (held : F) (ev : Event.t F) : F :=
  match Event.event ev with
  | TP_LOT _ => total_cost c quantity * (Event.sell_pct ev /. fhundred)
  | STOP_LOSS => (held /. quantity) * total_cost c quantity
  | TAKE_PROFIT => total_cost c quantity
  end.

Definition gross_of (held : F) (ev : Event.t F) : F :=
  sold_qty held ev * Event.price ev - cost_of held ev.

Definition fee_of (held : F) (ev : Event.t F) : F :=
  sold_qty held ev * Event.price ev
  * (StrategyConfig.fee_percent c /. fhundred).

Definition net_of (held : F) (ev : Event.t F) : F :=
  gross_of held ev - fee_of held ev.

Definition held_after (held : F) (ev : Event.t F) : F :=
  match Event.event ev with
  | TP_LOT _ => held - sold_qty held ev
  | STOP_LOSS | TAKE_PROFIT => fzero
  end.

(** Quantity held, realized net P&L and fees after one more trade. *)
Definition book (figures : F * F * F) (ev : Event.t F) : F * F * F :=
  let '(held, realized, fees) := figures in
  (held_after held ev, realized + net_of held ev, fees + fee_of held ev).

(** The figures after the trades of a log, from an untouched position. *)
Definition ledger (trades : list (Event.t F)) : F * F * F :=
  fold_left book trades (quantity, fzero, fzero).

(** The entry shows its own figures rounded to cents. *)
Definition recorded (held : F) (ev : Event.t F) : Prop :=
  Event.gross_pnl ev = fround (gross_of held ev) 2 /\
  Event.fee ev = fround (fee_of held ev) 2 /\
  Event.net_pnl ev = fround (net_of held ev) 2.

Fixpoint booked (held : F) (trades : list (Event.t F)) : Prop :=
  match trades with
  | [] => True
  | ev :: rest => recorded held ev /\ booked (held_after held ev) rest
  end.

(** The walker's running totals are the ledger of the trades it logged. *)
Definition in_step_with_log (st : Walk.t F) : Prop :=
  exists trades,
    Walk.events st = map Trade trades /\
    booked quantity trades /\
    (Walk.remaining_qty st, Walk.total_realized st, Walk.total_fees st)
    = ledger trades.

End Ledger.

Section LogNotions.

Context {F : Type} `{PyFloat F}.

(** The ticks of the trades of a log, in log order. *)
Definition trade_ticks (log : list (LogEntry F)) : list nat :=
  flat_map (fun e => match e with
                     | Trade ev => [Event.tick ev]
                     | SUMMARY _ => []
                     end) log.

(** The stage numbers [k] of the [TP_LOT_k] trades of a log, in log order. *)
Definition tp_lot_numbers (log : list (LogEntry F)) : list nat :=
  flat_map (fun e => match e with
                     | Trade ev => match Event.event ev with
                                   | TP_LOT k => [k]
                                   | _ => []
                                   end
                     | SUMMARY _ => []
                     end) log.

(** A liquidation: the trade that sells all that remains. *)
Definition is_liquidation (e : LogEntry F) : bool :=
  is_event STOP_LOSS e || is_event TAKE_PROFIT e.

Definition is_tp_lot (e : LogEntry F) : bool :=
  match e with
  | Trade ev => match Event.event ev with
                | TP_LOT _ => true
                | _ => false
                end
  | SUMMARY _ => false
  end.

(** A tick at which nothing triggers: the change is above the stop-loss
    level and below every threshold that is watched (the stages' when stages
    are configured, the single take-profit otherwise). *)
Definition quiet (c : StrategyConfig.t F) (price : F) : Prop :=
  exists ch,
    change_pct_of c price = Ok ch /\
    fleb ch (fneg (StrategyConfig.sl_percent c)) = false /\
    match StrategyConfig.gradual_lots c with
    | [] => fleb (StrategyConfig.tp_percent c) ch = false
    | lots =>
        Forall (fun l => fleb (GradualLot.tp_percent l) ch = false) lots
    end.

End LogNotions.

(** ** The command line of [main()]

    Lines 627-639: without [--interactive], the default configuration and
    quantity are overridden from the arguments.  [pyfloat] stands for
    Python's [float(str)], [None] for its [ValueError]; the loop is the same
    for every such reading of numbers. *)

Section CommandLine.

Context {F : Type}.
Variable pyfloat : string -> option F.

(** [config.token = v] and the like. *)
Definition set_token (c : StrategyConfig.t F) (v : string)
  : StrategyConfig.t F :=
  StrategyConfig.mk v (StrategyConfig.exchange c)
    (StrategyConfig.entry_price c) (StrategyConfig.tp_percent c)
    (StrategyConfig.sl_percent c) (StrategyConfig.fee_percent c)
    (StrategyConfig.gradual_enabled c) (StrategyConfig.gradual_lots c)
    (StrategyConfig.check_interval_min c).

Definition set_entry_price (c : StrategyConfig.t F) (x : F)
  : StrategyConfig.t F :=
  StrategyConfig.mk (StrategyConfig.token c) (StrategyConfig.exchange c)
    x (StrategyConfig.tp_percent c)
    (StrategyConfig.sl_percent c) (StrategyConfig.fee_percent c)
    (StrategyConfig.gradual_enabled c) (StrategyConfig.gradual_lots c)
    (StrategyConfig.check_interval_min c).

Definition set_tp_percent (c : StrategyConfig.t F) (x : F)
  : StrategyConfig.t F :=
  StrategyConfig.mk (StrategyConfig.token c) (StrategyConfig.exchange c)
    (StrategyConfig.entry_price c) x
    (StrategyConfig.sl_percent c) (StrategyConfig.fee_percent c)
    (StrategyConfig.gradual_enabled c) (StrategyConfig.gradual_lots c)
    (StrategyConfig.check_interval_min c).

Definition set_sl_percent (c : StrategyConfig.t F) (x : F)
  : StrategyConfig.t F :=
  StrategyConfig.mk (StrategyConfig.token c) (StrategyConfig.exchange c)
    (StrategyConfig.entry_price c) (StrategyConfig.tp_percent c)
    x (StrategyConfig.fee_percent c)
    (StrategyConfig.gradual_enabled c) (StrategyConfig.gradual_lots c)
    (StrategyConfig.check_interval_min c).

Definition set_fee_percent (c : StrategyConfig.t F) (x : F)
  : StrategyConfig.t F :=
  StrategyConfig.mk (StrategyConfig.token c) (StrategyConfig.exchange c)
    (StrategyConfig.entry_price c) (StrategyConfig.tp_percent c)
    (StrategyConfig.sl_percent c) x
    (StrategyConfig.gradual_enabled c) (StrategyConfig.gradual_lots c)
    (StrategyConfig.check_interval_min c).

(** The body of the loop for [arg = args[i]] when [i + 1 < len(args)], with
    [value = args[i + 1]]: the [if]/[elif] chain of lines 628-639. *)
Definition override (arg value : string) (cq : StrategyConfig.t F * F)
  : option (StrategyConfig.t F * F) :=
  let (config, quantity) := cq in
  if String.eqb arg "--token" then
    Some (set_token config value, quantity)
  else if String.eqb arg "--entry-price" then
    option_map (fun x => (set_entry_price config x, quantity)) (pyfloat value)
  else if String.eqb arg "--quantity" then
    option_map (fun x => (config, x)) (pyfloat value)
  else if String.eqb arg "--tp" then
    option_map (fun x => (set_tp_percent config x, quantity)) (pyfloat value)
  else if String.eqb arg "--sl" then
    option_map (fun x => (set_sl_percent config x, quantity)) (pyfloat value)
  else if String.eqb arg "--fee" then
    option_map (fun x => (set_fee_percent config x, quantity)) (pyfloat value)
  else Some cq.

(** [for i, arg in enumerate(args)]: every argument but the last is tried
    as a flag, with the argument after it as its value. *)
Fixpoint overrides (args : list string) (cq : StrategyConfig.t F * F)
  : option (StrategyConfig.t F * F) :=
  match args with
  | arg :: rest =>
      match rest with
      | value :: _ =>
          match override arg value cq with
          | Some cq' => overrides rest cq'
          | None => None
          end
      | [] => Some cq
      end
  | [] => Some cq
  end.

(** The test of line 601: either flag, anywhere among the arguments, sends
    [main()] to the interactive mode and the loop above is not run. *)
Definition interactive (args : list string) : bool :=
  existsb (fun arg => String.eqb arg "--interactive") args
  || existsb (fun arg => String.eqb arg "-i") args.

(** Lines 601-639: where [main()] takes its configuration and quantity
    from.  The interactive mode reads the terminal and is not modelled. *)
Inductive Startup (A : Type) : Type :=
| Interactive
| CommandLine (a : A).

Definition startup (args : list string) (cq : StrategyConfig.t F * F)
  : Startup (option (StrategyConfig.t F * F)) :=
  if interactive args then Interactive _
  else CommandLine _ (overrides args cq).

End CommandLine.

Arguments Interactive {A}.
Arguments CommandLine {A} a.

(** The flags whose value is read as a number. *)
Definition numeric_flags : list string :=
  ["--entry-price"; "--quantity"; "--tp"; "--sl"; "--fee"]%string.

(** The value given for a flag on a command line: the argument that follows
    its last occurrence, an occurrence as last argument not counting. *)
Fixpoint flag_value (flag : string) (args : list string) : option string :=
  match args with
  | arg :: rest =>
      match rest with
      | value :: _ =>
          match flag_value flag rest with
          | Some v => Some v
          | None => if String.eqb arg flag then Some value else None
          end
      | [] => None
      end
  | [] => None
  end.

(** The value of a numeric flag, if given, is what [pyfloat] reads as [x];
    otherwise [x] is the default [d]. *)
Definition given {F : Type} (pyfloat : string -> option F)
    (flag : string) (args : list string) (d x : F) : Prop :=
  match flag_value flag args with
  | Some v => pyfloat v = Some x
  | None => x = d
  end.

Module CommandLineExamples.

(** A reading of the two numerals used below. *)
Definition read_float (s : string) : option float :=
  if String.eqb s "40" then Some 40%float
  else if String.eqb s "2.5" then Some 2.5%float
  else None.

Definition sol_args : list string :=
  ["--tp"; "2.5"; "--token"; "--entry-price"; "40"; "--tp"]%string.

End CommandLineExamples.

(** ** Binary64 as integers

    Notions for reasoning about the IEEE-754 operations through their
    specification [SpecFloat]: a finite number [m * 2 ^ e] is compared
    through its magnitude scaled by [2 ^ 1074], an integer. *)

Module SF64.

Local Open Scope Z_scope.

(** The representation is the canonical one of binary64. *)
Definition canon (m : positive) (e : Z) : Prop :=
  fexp prec emax (Zpos (digits2_pos m) + e) = e.

Definition mag (m : positive) (e : Z) : Z := Zpos m * 2 ^ (e + 1074).

(** The comparison of two magnitudes as [SFcompare] computes it. *)
Definition cmpmag (m1 : positive) (e1 : Z) (m2 : positive) (e2 : Z)
  : comparison :=
  match e1 ?= e2 with
  | Lt => Lt
  | Gt => Gt
  | Eq => Pos.compare_cont Eq m1 m2
  end.

(** The last step of a rounding: range check of the renormalised
    mantissa. *)
Definition out (s : bool) (m : Z) (e : Z) : spec_float :=
  match m with
  | Z0 => S754_zero s
  | Zpos p => if e <=? 971 then S754_finite s p e else S754_infinity s
  | Zneg _ => S754_nan
  end.

Definition final (s : bool) (m : Z) (e : Z) : spec_float :=
  let '(mrs, e') := shr_fexp prec emax m e loc_Exact in
  out s (shr_m mrs) e'.

(** Zero (of either sign) or above. *)
Definition nonneg_sf (r : spec_float) : Prop :=
  match r with
  | S754_zero _ | S754_infinity false | S754_finite false _ _ => True
  | _ => False
  end.

(** A number below plus infinity. *)
Definition below_inf (x : spec_float) : Prop :=
  match x with
  | S754_nan | S754_infinity false => False
  | _ => True
  end.

End SF64.

(** ** Laws of the order

    What the walker's quantity bookkeeping needs of [<=]: subtracting a
    quantity that is not negative does not increase a number.
    [below_infinity x] says that [x] is a number below plus infinity
    ([x < math.inf], which excludes NaN); in exact arithmetic every number
    is. *)

Class PyFloatOrder (F : Type) `{PyFloat F} : Type := {
  below_infinity : F -> bool;
  zero_below_infinity : below_infinity fzero = true;
  le_refl_below_infinity :
    forall x : F, below_infinity x = true -> fleb x x = true;
  above_threshold_not_negative :
    forall r : F, fltb f1e_4 r = true -> fleb fzero r = true;
  share_not_negative :
    forall q p : F,
      fltb fzero q = true -> below_infinity q = true ->
      fleb fzero p = true ->
      fleb fzero (fmul q (fquot p fhundred)) = true;
  sub_not_larger :
    forall x y : F,
      below_infinity x = true -> fleb fzero y = true ->
      fleb (fsub x y) x = true /\ below_infinity (fsub x y) = true
}.

(** ** Laws of the arithmetic

    The few facts about comparisons with zero and with the 1e-4 threshold
    that the proofs below rely on.  Both instances satisfy them. *)

Class PyFloatLaws (F : Type) `{PyFloat F} : Prop := {
  positive_nonzero :
    forall x : F, fltb fzero x = true -> feqb x fzero = false;
  abs_positive_nonzero :
    forall x : F, fltb fzero (fabs x) = true -> feqb x fzero = false;
  zero_below_threshold :
    fleb fzero f1e_4 = true;
  zero_not_above_threshold :
    forall q : F, feqb q fzero = true -> fltb f1e_4 q = false;
  zero_lot_keeps_threshold :
    forall q p r : F,
      feqb q fzero = true -> fltb f1e_4 r = false ->
      fltb f1e_4 (fsub r (fmul q p)) = false
}.

Lemma SF_eq_zero (x : float) :
  PrimFloat.eqb x 0 = true -> exists s, Prim2SF x = S754_zero s.
Proof.
  rewrite FloatAxioms.eqb_spec. change (Prim2SF 0) with (S754_zero false).
  destruct (Prim2SF x) as [s| [|] | |[|] m e]; cbn; try discriminate.
  intros _. now exists s.
Qed.

Lemma SF_mul_zero (s : bool) (y : spec_float) :
  SF64mul (S754_zero s) y = S754_nan \/
  exists s', SF64mul (S754_zero s) y = S754_zero s'.
Proof.
  destruct y as [s'| s' | |s' m e]; cbn; eauto.
Qed.

Lemma SF_sub_zero (x : spec_float) (s : bool) :
  SF64sub x (S754_zero s) = x \/
  exists s', SF64sub x (S754_zero s) = S754_zero s'.
Proof.
  destruct x as [[|]| s' | |s' m e]; destruct s; cbn; eauto.
Qed.

Lemma SF_sub_nan (x : spec_float) : SF64sub x S754_nan = S754_nan.
Proof. now destruct x. Qed.

Lemma SF_ltb_threshold_zero (s : bool) :
  SFltb (Prim2SF 0.0001) (S754_zero s) = false.
Proof. reflexivity. Qed.

#[export] Instance binary64_laws : PyFloatLaws float.
Proof.
  split; cbn.
  - intros x. rewrite FloatAxioms.ltb_spec, FloatAxioms.eqb_spec.
    change (Prim2SF 0) with (S754_zero false).
    now destruct (Prim2SF x) as [s| [|] | |[|] m e].
  - intros x.
    rewrite FloatAxioms.ltb_spec, FloatAxioms.eqb_spec, FloatAxioms.abs_spec.
    change (Prim2SF 0) with (S754_zero false).
    now destruct (Prim2SF x) as [s| [|] | |[|] m e].
  - reflexivity.
  - intros q Hq. destruct (SF_eq_zero q Hq) as [s Hs].
    rewrite FloatAxioms.ltb_spec, Hs. apply SF_ltb_threshold_zero.
  - intros q p r Hq Hr. destruct (SF_eq_zero q Hq) as [s Hs].
    rewrite FloatAxioms.ltb_spec in *.
    rewrite FloatAxioms.sub_spec, FloatAxioms.mul_spec, Hs.
    destruct (SF_mul_zero s (Prim2SF p)) as [-> | [s' ->]].
    + rewrite SF_sub_nan. now destruct (Prim2SF 0.0001).
    + destruct (SF_sub_zero (Prim2SF r) s') as [-> | [s'' ->]].
      * exact Hr.
      * apply SF_ltb_threshold_zero.
Qed.

Lemma Qle_bool_false (x y : Q) : Qle_bool x y = false <-> (y < x)%Q.
Proof.
  destruct (Qle_bool x y) eqn:E.
  - apply Qle_bool_iff in E. split; [discriminate | intros; exfalso; lra].
  - split; [intros _ | reflexivity].
    apply Qnot_le_lt. intros Hle. apply Qle_bool_iff in Hle. congruence.
Qed.

Lemma Qeq_bool_false (x y : Q) : Qeq_bool x y = false <-> ~ (x == y)%Q.
Proof.
  destruct (Qeq_bool x y) eqn:E.
  - apply Qeq_bool_iff in E. split; [discriminate | tauto].
  - split; [intros _ Heq | reflexivity].
    apply Qeq_bool_iff in Heq. congruence.
Qed.

#[export] Instance rational_laws : PyFloatLaws Q.
Proof.
  split; cbn.
  - intros x Hx. apply negb_true_iff, Qle_bool_false in Hx.
    apply Qeq_bool_false. lra.
  - intros x Hx. apply negb_true_iff, Qle_bool_false in Hx.
    apply Qeq_bool_false. intros Heq. rewrite Heq in Hx.
    now apply Qlt_irrefl in Hx.
  - reflexivity.
  - intros q Hq. apply Qeq_bool_iff in Hq.
    apply negb_false_iff, Qle_bool_iff. lra.
  - intros q p r Hq Hr. apply Qeq_bool_iff in Hq.
    apply negb_false_iff, Qle_bool_iff in Hr.
    apply negb_false_iff, Qle_bool_iff. rewrite Hq. lra.
Qed.

(** ** Binary64: subtraction and the order

    The operations of binary64 are those of [SpecFloat]; the facts below
    are proved from its definitions of rounding, with magnitudes as
    integers. *)

Section SF64Facts.

Import SF64.
Local Open Scope Z_scope.

(** Digits and powers of two *)

Lemma digits2_log2 (m : positive) :
  Zpos (digits2_pos m) = Z.succ (Z.log2 (Zpos m)).
Proof.
  induction m as [m IH|m IH|]; cbn [digits2_pos].
  - rewrite Pos2Z.inj_succ, IH, Pos2Z.inj_xI, Z.log2_succ_double; lia.
  - rewrite Pos2Z.inj_succ, IH, Pos2Z.inj_xO, Z.log2_double; lia.
  - reflexivity.
Qed.

Lemma digits2_bounds (m : positive) :
  2 ^ (Zpos (digits2_pos m) - 1) <= Zpos m < 2 ^ Zpos (digits2_pos m).
Proof.
  rewrite digits2_log2.
  replace (Z.succ (Z.log2 (Zpos m)) - 1) with (Z.log2 (Zpos m)) by lia.
  apply Z.log2_spec. lia.
Qed.

Lemma digits2_pos_positive (m : positive) : 0 < Zpos (digits2_pos m).
Proof. lia. Qed.

Lemma pow2_pos (n : Z) : 0 <= n -> 0 < 2 ^ n.
Proof. intros. apply Z.pow_pos_nonneg; lia. Qed.

Lemma pow2_le (a b : Z) : 0 <= a <= b -> 2 ^ a <= 2 ^ b.
Proof. intros. apply Z.pow_le_mono_r; lia. Qed.

Lemma pow2_split (a b : Z) : 0 <= a -> 0 <= b -> 2 ^ (a + b) = 2 ^ a * 2 ^ b.
Proof. intros. apply Z.pow_add_r; lia. Qed.

(** Canonical representations *)

Lemma fexp_eq (x : Z) : fexp prec emax x = Z.max (x - 53) (-1074).
Proof. reflexivity. Qed.

Lemma bounded_inv (m : positive) (e : Z) :
  bounded prec emax m e = true -> canon m e /\ e <= 971.
Proof.
  unfold bounded, canonical_mantissa, canon. intros H.
  apply andb_true_iff in H. destruct H as (H1 & H2).
  apply Z.eqb_eq in H1. apply Z.leb_le in H2. split; [exact H1|].
  exact H2.
Qed.

Lemma canon_facts (m : positive) (e : Z) :
  canon m e ->
  -1074 <= e /\ Zpos m < 2 ^ 53 /\ (-1074 < e -> 2 ^ 52 <= Zpos m).
Proof.
  unfold canon. rewrite fexp_eq. intros H.
  pose proof (digits2_bounds m) as (Hlo & Hhi).
  set (d := Zpos (digits2_pos m)) in *.
  assert (0 < d) by (subst d; lia).
  split; [lia|]. split.
  - eapply Z.lt_le_trans; [exact Hhi|]. apply pow2_le. lia.
  - intros He. assert (d = 53) by lia.
    replace 52 with (d - 1) by lia. exact Hlo.
Qed.

(** Magnitudes, scaled by [2 ^ 1074] *)

Lemma mag_exp_lt (m1 : positive) (e1 : Z) (m2 : positive) (e2 : Z) :
  canon m1 e1 -> canon m2 e2 -> e1 < e2 -> mag m1 e1 < mag m2 e2.
Proof.
  intros H1 H2 Hlt.
  destruct (canon_facts _ _ H1) as (He1 & Hm1 & _).
  destruct (canon_facts _ _ H2) as (He2 & _ & Hm2).
  specialize (Hm2 ltac:(lia)). unfold mag.
  replace (e2 + 1074) with ((e2 - e1) + (e1 + 1074)) by lia.
  rewrite (pow2_split (e2 - e1) (e1 + 1074)) by lia.
  assert (Ha : 0 < 2 ^ (e1 + 1074)) by (apply pow2_pos; lia).
  assert (Hp : 2 <= 2 ^ (e2 - e1)).
  { change 2 with (2 ^ 1) at 1. apply pow2_le. lia. }
  rewrite Z.mul_assoc. apply Z.mul_lt_mono_pos_r; [exact Ha|].
  change (2 ^ 53) with (2 ^ 52 * 2) in Hm1. nia.
Qed.

Lemma cmpmag_le (m1 : positive) (e1 : Z) (m2 : positive) (e2 : Z) :
  canon m1 e1 -> canon m2 e2 -> mag m1 e1 <= mag m2 e2 ->
  cmpmag m1 e1 m2 e2 <> Gt.
Proof.
  intros H1 H2 Hle. unfold cmpmag.
  destruct (Z.compare_spec e1 e2) as [-> | Hlt | Hgt].
  - unfold mag in Hle.
    assert (Ha : 0 < 2 ^ (e2 + 1074)).
    { apply pow2_pos. destruct (canon_facts _ _ H2). lia. }
    apply Z.mul_le_mono_pos_r in Hle; [|exact Ha].
    change (Pos.compare_cont Eq m1 m2) with (Pos.compare m1 m2).
    rewrite Pos.compare_gt_iff. lia.
  - discriminate.
  - pose proof (mag_exp_lt _ _ _ _ H2 H1 Hgt). lia.
Qed.

Lemma cmpmag_ge (m1 : positive) (e1 : Z) (m2 : positive) (e2 : Z) :
  canon m1 e1 -> canon m2 e2 -> mag m2 e2 <= mag m1 e1 ->
  cmpmag m1 e1 m2 e2 <> Lt.
Proof.
  intros H1 H2 Hle. unfold cmpmag.
  destruct (Z.compare_spec e1 e2) as [-> | Hlt | Hgt].
  - unfold mag in Hle.
    assert (Ha : 0 < 2 ^ (e2 + 1074)).
    { apply pow2_pos. destruct (canon_facts _ _ H2). lia. }
    apply Z.mul_le_mono_pos_r in Hle; [|exact Ha].
    change (Pos.compare_cont Eq m1 m2) with (Pos.compare m1 m2).
    rewrite Pos.compare_lt_iff. lia.
  - pose proof (mag_exp_lt _ _ _ _ H1 H2 Hlt). lia.
  - discriminate.
Qed.

(** Right shifts *)

Lemma shr_1_m (r : shr_record) :
  0 <= shr_m r -> shr_m (shr_1 r) = shr_m r / 2 /\ 0 <= shr_m (shr_1 r).
Proof.
  destruct r as [m b s]. cbn [shr_m]. intros Hm.
  rewrite <- Z.div2_div.
  destruct m as [|[p|p|]|p]; cbn; try lia.
Qed.

Lemma iter_pos_shr_m (p : positive) :
  forall r,
    0 <= shr_m r ->
    shr_m (iter_pos shr_1 p r) = shr_m r / 2 ^ Zpos p /\
    0 <= shr_m (iter_pos shr_1 p r).
Proof.
  induction p as [p IH|p IH|]; intros r Hr; cbn [iter_pos].
  - destruct (shr_1_m r Hr) as (H1 & H1').
    destruct (IH _ H1') as (H2 & H2').
    destruct (IH _ H2') as (H3 & H3').
    split; [|exact H3']. rewrite H3, H2, H1.
    rewrite !Z.div_div by (try apply pow2_pos; lia).
    f_equal. rewrite (Pos2Z.inj_xI p).
    replace (2 * Zpos p + 1) with (1 + (Zpos p + Zpos p)) by lia.
    rewrite (pow2_split 1 (Zpos p + Zpos p)) by lia.
    rewrite (pow2_split (Zpos p) (Zpos p)) by lia. reflexivity.
  - destruct (IH _ Hr) as (H2 & H2').
    destruct (IH _ H2') as (H3 & H3').
    split; [|exact H3']. rewrite H3, H2.
    rewrite !Z.div_div by (try apply pow2_pos; lia).
    f_equal. rewrite (Pos2Z.inj_xO p).
    replace (2 * Zpos p) with (Zpos p + Zpos p) by lia.
    rewrite (pow2_split (Zpos p) (Zpos p)) by lia. reflexivity.
  - destruct (shr_1_m r Hr) as (H1 & H1'). split; [|exact H1'].
    rewrite H1. reflexivity.
Qed.

Lemma shr_1_exact (k : Z) :
  0 <= k ->
  shr_1 (Build_shr_record (k * 2) false false)
  = Build_shr_record k false false.
Proof.
  intros Hk. rewrite Z.mul_comm. destruct k as [|q|q]; [reflexivity| |lia].
  reflexivity.
Qed.

Lemma iter_pos_shr_exact (p : positive) :
  forall k,
    0 <= k ->
    iter_pos shr_1 p (Build_shr_record (k * 2 ^ Zpos p) false false)
    = Build_shr_record k false false.
Proof.
  induction p as [p IH|p IH|]; intros k Hk; cbn [iter_pos].
  - rewrite (Pos2Z.inj_xI p).
    replace (2 * Zpos p + 1) with (Zpos p + Zpos p + 1) by lia.
    rewrite (pow2_split (Zpos p + Zpos p) 1) by lia.
    rewrite (pow2_split (Zpos p) (Zpos p)) by lia. change (2 ^ 1) with 2.
    rewrite !Z.mul_assoc, shr_1_exact.
    + rewrite IH, IH; [reflexivity | lia |].
      assert (0 < 2 ^ Zpos p) by (apply pow2_pos; lia). nia.
    + assert (0 < 2 ^ Zpos p) by (apply pow2_pos; lia). nia.
  - rewrite (Pos2Z.inj_xO p).
    replace (2 * Zpos p) with (Zpos p + Zpos p) by lia.
    rewrite (pow2_split (Zpos p) (Zpos p)) by lia. rewrite !Z.mul_assoc.
    rewrite IH, IH; [reflexivity | lia |].
    assert (0 < 2 ^ Zpos p) by (apply pow2_pos; lia). nia.
  - change (2 ^ 1) with 2. now apply shr_1_exact.
Qed.

Lemma rne_bounds (m : Z) (l : location) :
  m <= round_nearest_even m l <= m + 1.
Proof.
  destruct l as [|[| |]]; cbn; try lia. destruct (Z.even m); lia.
Qed.

(** The last step of a rounding: renormalisation and range check *)

Lemma binary_round_aux_final (s : bool) (m e : Z) (l : location) :
  binary_round_aux prec emax s m e l
  = let '(mrs, e') := shr_fexp prec emax m e l in
    final s (round_nearest_even (shr_m mrs) (loc_of_shr_record mrs)) e'.
Proof. reflexivity. Qed.

Lemma final_spec (s : bool) (m2 E : Z) :
  0 < m2 ->
  exists m3 e3,
    final s m2 E = out s m3 e3 /\
    0 <= m3 /\ E <= e3 /\
    m3 * 2 ^ (e3 - E) <= m2 < (m3 + 1) * 2 ^ (e3 - E) /\
    (E < e3 -> e3 = fexp prec emax (Zdigits2 m2 + E)).
Proof.
  intros Hm. unfold final, shr_fexp, shr. cbn [shr_record_of_loc].
  destruct (fexp prec emax (Zdigits2 m2 + E) - E) as [|p|p] eqn:Hn.
  - exists m2, E. cbn [shr_m]. rewrite Z.sub_diag. cbn. repeat split; lia.
  - exists (m2 / 2 ^ Zpos p), (E + Zpos p).
    destruct (iter_pos_shr_m p (Build_shr_record m2 false false))
      as (H1 & H2); [cbn; lia|].
    cbn [shr_m] in H1. rewrite H1 in *.
    replace (E + Zpos p - E) with (Zpos p) by lia.
    assert (Hp : 0 < 2 ^ Zpos p) by (apply pow2_pos; lia).
    split; [reflexivity|]. split; [exact H2|]. split; [lia|]. split.
    + split.
      * rewrite Z.mul_comm. apply Z.mul_div_le. exact Hp.
      * rewrite Z.mul_comm. apply Z.mul_succ_div_gt. exact Hp.
    + intros _. lia.
  - exists m2, E. cbn [shr_m]. rewrite Z.sub_diag. cbn. repeat split; lia.
Qed.

(** Left shifts *)

Lemma pos_iter_xO (m d : positive) :
  Zpos (Pos.iter xO m d) = Zpos m * 2 ^ Zpos d.
Proof.
  induction d as [|d IH] using Pos.peano_ind.
  - cbn. lia.
  - rewrite Pos.iter_succ, Pos2Z.inj_xO, IH, Pos2Z.inj_succ.
    unfold Z.succ. rewrite (pow2_split (Zpos d) 1) by lia.
    change (2 ^ 1) with 2. lia.
Qed.

Lemma shl_align_fst (m : positive) (e e' : Z) :
  e' <= e -> Zpos (fst (shl_align m e e')) = Zpos m * 2 ^ (e - e').
Proof.
  intros Hle. unfold shl_align.
  destruct (e' - e) as [|d|d] eqn:Hd; cbn [fst].
  - replace (e - e') with 0 by lia. cbn. lia.
  - lia.
  - rewrite pos_iter_xO. f_equal. f_equal. lia.
Qed.

Lemma digits2_shift (m : positive) (d : positive) :
  Zpos (digits2_pos (Pos.iter xO m d)) = Zpos (digits2_pos m) + Zpos d.
Proof.
  rewrite !digits2_log2, pos_iter_xO, Z.log2_mul_pow2 by lia. lia.
Qed.

(** A canonical number against a multiple of a power of two *)

Lemma mag_multiple (mx : positive) (ex E : Z) :
  -1074 <= E <= ex ->
  mag mx ex = (Zpos mx * 2 ^ (ex - E)) * 2 ^ (E + 1074).
Proof.
  intros H. unfold mag. rewrite <- Z.mul_assoc, <- pow2_split by lia.
  do 2 f_equal. lia.
Qed.

Lemma mag_below (mx : positive) (ex E m : Z) :
  canon mx ex -> -1074 <= E -> ex < E -> 2 ^ 52 <= m ->
  mag mx ex < m * 2 ^ (E + 1074).
Proof.
  intros Hc HE Hlt Hm.
  destruct (canon_facts _ _ Hc) as (He & Hmx & _). unfold mag.
  replace (E + 1074) with ((E - ex) + (ex + 1074)) by lia.
  rewrite (pow2_split (E - ex) (ex + 1074)) by lia.
  assert (Ha : 0 < 2 ^ (ex + 1074)) by (apply pow2_pos; lia).
  assert (Hp : 2 <= 2 ^ (E - ex)).
  { change 2 with (2 ^ 1) at 1. apply pow2_le. lia. }
  rewrite Z.mul_assoc. apply Z.mul_lt_mono_pos_r; [exact Ha|].
  change (2 ^ 53) with (2 ^ 52 * 2) in Hmx. nia.
Qed.

Lemma below_bracket (mx : positive) (ex E m : Z) :
  canon mx ex -> -1074 <= E -> (ex < E -> 2 ^ 52 <= m) ->
  mag mx ex < (m + 1) * 2 ^ (E + 1074) ->
  mag mx ex <= m * 2 ^ (E + 1074).
Proof.
  intros Hc HE Hbig Hlt.
  destruct (Z_lt_le_dec ex E) as [Hex | Hex].
  - pose proof (mag_below _ _ _ _ Hc HE Hex (Hbig Hex)). lia.
  - rewrite (mag_multiple mx ex E) in * by lia.
    assert (Ha : 0 < 2 ^ (E + 1074)) by (apply pow2_pos; lia).
    apply Z.mul_lt_mono_pos_r in Hlt; [|exact Ha].
    apply Z.mul_le_mono_nonneg_r; lia.
Qed.

Lemma above_bracket (mx : positive) (ex E m : Z) :
  canon mx ex -> -1074 <= E -> (ex < E -> 2 ^ 52 <= m) ->
  m * 2 ^ (E + 1074) < mag mx ex ->
  (m + 1) * 2 ^ (E + 1074) <= mag mx ex.
Proof.
  intros Hc HE Hbig Hlt.
  destruct (Z_lt_le_dec ex E) as [Hex | Hex].
  - pose proof (mag_below _ _ _ _ Hc HE Hex (Hbig Hex)). lia.
  - rewrite (mag_multiple mx ex E) in * by lia.
    assert (Ha : 0 < 2 ^ (E + 1074)) by (apply pow2_pos; lia).
    apply Z.mul_lt_mono_pos_r in Hlt; [|exact Ha].
    apply Z.mul_le_mono_nonneg_r; lia.
Qed.

(** Rounding a positive integer multiple of [2 ^ ez] *)

Lemma binary_round_spec (s : bool) (P : positive) (ez : Z) :
  -1074 <= ez ->
  exists m1 m2 E,
    binary_round prec emax s P ez = final s m2 E /\
    -1074 <= E /\
    m1 * 2 ^ (E + 1074) <= Zpos P * 2 ^ (ez + 1074)
    < (m1 + 1) * 2 ^ (E + 1074) /\
    m1 <= m2 <= m1 + 1 /\
    0 < m1 /\
    (-1074 < E -> 2 ^ 52 <= m1).
Proof.
  intros Hez. unfold binary_round, shl_align.
  pose proof (digits2_bounds P) as (Hlo & Hhi).
  set (d := Zpos (digits2_pos P)) in *.
  assert (Hd : 0 < d) by (subst d; lia).
  set (E := fexp prec emax (d + ez)).
  assert (HE : E = Z.max (d + ez - 53) (-1074)) by reflexivity.
  clearbody E.
  assert (Ha : 0 < 2 ^ (ez + 1074)) by (apply pow2_pos; lia).
  destruct (E - ez) as [|n|n] eqn:Hn.
  - (* already aligned *)
    assert (E = ez) by lia. subst ez.
    rewrite binary_round_aux_final. unfold shr_fexp, shr.
    cbn [Zdigits2 shr_record_of_loc]. fold d.
    replace (fexp prec emax (d + E) - E) with 0
      by (change (fexp prec emax (d + E)) with (Z.max (d + E - 53) (-1074));
          lia).
    cbn [shr_m loc_of_shr_record round_nearest_even].
    exists (Zpos P), (Zpos P), E.
    split; [reflexivity|]. split; [lia|]. split; [nia|].
    split; [lia|]. split; [lia|].
    intros HE'. assert (d = 53) by lia.
    replace 52 with (d - 1) by lia. exact Hlo.
  - (* shifted right *)
    rewrite binary_round_aux_final. unfold shr_fexp, shr.
    cbn [Zdigits2 shr_record_of_loc]. fold d.
    replace (fexp prec emax (d + ez) - ez) with (Zpos n)
      by (change (fexp prec emax (d + ez)) with (Z.max (d + ez - 53) (-1074));
          lia).
    destruct (iter_pos_shr_m n (Build_shr_record (Zpos P) false false))
      as (H1 & H2); [cbn; lia|].
    cbn [shr_m] in H1.
    set (mrs := iter_pos shr_1 n (Build_shr_record (Zpos P) false false)) in *.
    pose proof (rne_bounds (shr_m mrs) (loc_of_shr_record mrs)) as Hr.
    rewrite H1 in Hr |- *.
    exists (Zpos P / 2 ^ Zpos n),
      (round_nearest_even (Zpos P / 2 ^ Zpos n) (loc_of_shr_record mrs)), E.
    replace (ez + Zpos n) with E by lia.
    assert (Hp : 0 < 2 ^ Zpos n) by (apply pow2_pos; lia).
    assert (Hsplit : 2 ^ (E + 1074) = 2 ^ Zpos n * 2 ^ (ez + 1074)).
    { rewrite <- pow2_split by lia. f_equal. lia. }
    assert (Hbig : 2 ^ 52 <= Zpos P / 2 ^ Zpos n).
    { apply Z.div_le_lower_bound; [exact Hp|].
      rewrite <- pow2_split by lia.
      replace (Zpos n + 52) with (d - 1) by lia. exact Hlo. }
    split; [reflexivity|]. split; [lia|]. split.
    { rewrite Hsplit, !Z.mul_assoc. split.
      - apply Z.mul_le_mono_nonneg_r; [lia|].
        rewrite Z.mul_comm. apply Z.mul_div_le. exact Hp.
      - apply Z.mul_lt_mono_pos_r; [exact Ha|].
        rewrite Z.mul_comm. apply Z.mul_succ_div_gt. exact Hp. }
    split; [exact Hr|]. split; [|intros _; exact Hbig].
    assert (0 < 2 ^ 52) by (apply pow2_pos; lia). lia.
  - (* shifted left *)
    rewrite binary_round_aux_final. unfold shr_fexp, shr.
    cbn [Zdigits2 shr_record_of_loc]. rewrite digits2_shift. fold d.
    replace (fexp prec emax (d + Zpos n + E) - E) with 0
      by (change (fexp prec emax (d + Zpos n + E))
            with (Z.max (d + Zpos n + E - 53) (-1074)); lia).
    cbn [shr_m loc_of_shr_record round_nearest_even].
    rewrite pos_iter_xO.
    exists (Zpos P * 2 ^ Zpos n), (Zpos P * 2 ^ Zpos n), E.
    assert (Hp : 0 < 2 ^ Zpos n) by (apply pow2_pos; lia).
    assert (Hsplit : 2 ^ (ez + 1074) = 2 ^ Zpos n * 2 ^ (E + 1074)).
    { rewrite <- pow2_split by lia. f_equal. lia. }
    assert (Hb : 0 < 2 ^ (E + 1074)) by (apply pow2_pos; lia).
    split; [reflexivity|]. split; [lia|]. split.
    { rewrite Hsplit, !Z.mul_assoc. nia. }
    split; [lia|]. split; [nia|].
    intros HE'.
    assert (Hpow : 2 ^ 52 = 2 ^ (d - 1) * 2 ^ Zpos n).
    { rewrite <- pow2_split by lia. f_equal. lia. }
    rewrite Hpow. apply Z.mul_le_mono_nonneg_r; lia.
Qed.

Lemma final_big (m2 E m3 e3 : Z) :
  0 < m2 -> (-1074 < E -> 2 ^ 52 <= m2) -> E <= e3 ->
  m3 * 2 ^ (e3 - E) <= m2 < (m3 + 1) * 2 ^ (e3 - E) ->
  (E < e3 -> e3 = fexp prec emax (Zdigits2 m2 + E)) ->
  -1074 < e3 -> 2 ^ 52 <= m3.
Proof.
  intros Hm2 Hbig HE Hfl He3 Hlow.
  destruct (Z.eq_dec e3 E) as [-> | Hne].
  - rewrite Z.sub_diag in Hfl. cbn in Hfl. specialize (Hbig Hlow). lia.
  - specialize (He3 ltac:(lia)).
    destruct m2 as [|q|q]; try lia. cbn [Zdigits2] in He3.
    change (fexp prec emax (Zpos (digits2_pos q) + E))
      with (Z.max (Zpos (digits2_pos q) + E - 53) (-1074)) in He3.
    pose proof (digits2_bounds q) as (Hlo & _).
    set (d := Zpos (digits2_pos q)) in *.
    assert (Hd : e3 - E = d - 53) by lia.
    assert (Hp : 0 < 2 ^ (e3 - E)) by (apply pow2_pos; lia).
    assert (Hpow : 2 ^ (d - 1) = 2 ^ 52 * 2 ^ (e3 - E)).
    { rewrite <- pow2_split by lia. f_equal. lia. }
    rewrite Hpow in Hlo.
    assert (2 ^ 52 * 2 ^ (e3 - E) < (m3 + 1) * 2 ^ (e3 - E)) by lia.
    apply Z.mul_lt_mono_pos_r in H; [lia | exact Hp].
Qed.

Lemma final_floor (m2 E m3 e3 : Z) :
  -1074 <= E -> E <= e3 ->
  m3 * 2 ^ (e3 - E) <= m2 < (m3 + 1) * 2 ^ (e3 - E) ->
  m3 * 2 ^ (e3 + 1074) <= m2 * 2 ^ (E + 1074)
  < (m3 + 1) * 2 ^ (e3 + 1074).
Proof.
  intros HE Hle Hfl.
  assert (Hsplit : 2 ^ (e3 + 1074) = 2 ^ (e3 - E) * 2 ^ (E + 1074)).
  { rewrite <- pow2_split by lia. f_equal. lia. }
  assert (Ha : 0 < 2 ^ (E + 1074)) by (apply pow2_pos; lia).
  rewrite Hsplit, !Z.mul_assoc. split.
  - apply Z.mul_le_mono_nonneg_r; lia.
  - apply Z.mul_lt_mono_pos_r; lia.
Qed.

(** Subtracting what is not negative does not increase *)

Lemma SFsub_finite_le (sx : bool) (mx : positive) (ex : Z)
    (my : positive) (ey : Z) :
  bounded prec emax mx ex = true ->
  bounded prec emax my ey = true ->
  valid_binary
    (SF64sub (S754_finite sx mx ex) (S754_finite false my ey)) = true ->
  SFleb (SF64sub (S754_finite sx mx ex) (S754_finite false my ey))
    (S754_finite sx mx ex) = true.
Proof.
  intros Hx Hy. apply bounded_inv in Hx, Hy.
  destruct Hx as (Hcx & Hex), Hy as (Hcy & Hey).
  destruct (canon_facts _ _ Hcx) as (Hex' & _ & _).
  destruct (canon_facts _ _ Hcy) as (Hey' & _ & _).
  unfold SF64sub. cbn [SFsub]. set (ez := Z.min ex ey).
  assert (Hez : -1074 <= ez) by lia.
  pose proof (shl_align_fst mx ex ez ltac:(lia)) as HX.
  pose proof (shl_align_fst my ey ez ltac:(lia)) as HY.
  set (a := fst (shl_align mx ex ez)) in *.
  set (b := fst (shl_align my ey ez)) in *.
  assert (Ha : 0 < 2 ^ (ez + 1074)) by (apply pow2_pos; lia).
  assert (HmagX : mag mx ex = Zpos a * 2 ^ (ez + 1074)).
  { rewrite HX. unfold mag. rewrite <- Z.mul_assoc, <- pow2_split by lia.
    do 2 f_equal. lia. }
  assert (Hmag0 : 0 < mag mx ex) by (rewrite HmagX; lia).
  clearbody a b. clear HX HY.
  destruct sx; cbn [cond_Zopp].
  - (* x negative: the difference is further from zero *)
    change (- Zpos a - Zpos b) with (Zneg (a + b)). cbn [binary_normalize].
    destruct (binary_round_spec true (a + b) ez Hez)
      as (m1 & m2 & E & -> & HE & Hbr & Hm2 & Hm1 & Hbig).
    destruct (final_spec true m2 E ltac:(lia))
      as (m3 & e3 & -> & Hm3 & HEe3 & Hfl & He3).
    rewrite Pos2Z.inj_add in Hbr.
    assert (H1 : mag mx ex <= m1 * 2 ^ (E + 1074)).
    { apply below_bracket; auto; [intros; apply Hbig; lia|].
      rewrite HmagX. nia. }
    assert (Hb : 0 < 2 ^ (E + 1074)) by (apply pow2_pos; lia).
    assert (H2 : mag mx ex <= m2 * 2 ^ (E + 1074)) by nia.
    pose proof (final_floor _ _ _ _ HE HEe3 Hfl) as Hff.
    assert (H3 : mag mx ex <= m3 * 2 ^ (e3 + 1074)).
    { apply below_bracket; auto; [lia | | lia].
      intros Hlt. apply (final_big m2 E m3 e3); auto; try lia;
        intros HE'; specialize (Hbig HE'); lia. }
    assert (Hc : 0 < 2 ^ (e3 + 1074)) by (apply pow2_pos; lia).
    destruct m3 as [|q|q]; [lia| |lia]. cbn [out].
    destruct (e3 <=? 971); [|reflexivity].
    cbn [valid_binary]. intros Hv. apply bounded_inv in Hv.
    destruct Hv as (Hcq & _).
    pose proof (cmpmag_ge q e3 mx ex Hcq Hcx H3) as Hcmp.
    unfold cmpmag in Hcmp. unfold SFleb. cbn [SFcompare].
    destruct (e3 ?= ex); [|congruence|reflexivity].
    destruct (Pos.compare_cont Eq q mx); [reflexivity|congruence|reflexivity].
  - (* x positive *)
    destruct (Zpos a - Zpos b) as [|P|P] eqn:HM; cbn [binary_normalize].
    + reflexivity.
    + destruct (binary_round_spec false P ez Hez)
        as (m1 & m2 & E & -> & HE & Hbr & Hm2 & Hm1 & Hbig).
      destruct (final_spec false m2 E ltac:(lia))
        as (m3 & e3 & -> & Hm3 & HEe3 & Hfl & He3).
      assert (Hb : 0 < 2 ^ (E + 1074)) by (apply pow2_pos; lia).
      assert (Hv : Zpos P * 2 ^ (ez + 1074) < mag mx ex).
      { rewrite HmagX. apply Z.mul_lt_mono_pos_r; lia. }
      assert (H1 : (m1 + 1) * 2 ^ (E + 1074) <= mag mx ex).
      { apply above_bracket; auto; [intros; apply Hbig; lia | lia]. }
      assert (H2 : m2 * 2 ^ (E + 1074) <= mag mx ex) by nia.
      pose proof (final_floor _ _ _ _ HE HEe3 Hfl) as Hff.
      assert (H3 : m3 * 2 ^ (e3 + 1074) <= mag mx ex) by lia.
      assert (He3x : e3 <= ex).
      { destruct (Z_lt_le_dec ex e3) as [Hlt|]; [|assumption].
        assert (Hbig3 : 2 ^ 52 <= m3).
        { apply (final_big m2 E m3 e3); auto; try lia;
            intros HE'; specialize (Hbig HE'); lia. }
        pose proof (mag_below mx ex e3 m3 Hcx ltac:(lia) Hlt Hbig3). lia. }
      destruct m3 as [|q|q]; [reflexivity| |lia]. cbn [out].
      replace (e3 <=? 971) with true by (symmetry; apply Z.leb_le; lia).
      cbn [valid_binary]. intros Hvq. apply bounded_inv in Hvq.
      destruct Hvq as (Hcq & _).
      pose proof (cmpmag_le q e3 mx ex Hcq Hcx H3) as Hcmp.
      unfold cmpmag in Hcmp. unfold SFleb. cbn [SFcompare].
      destruct (e3 ?= ex); [|reflexivity|congruence].
      destruct (Pos.compare_cont Eq q mx); [reflexivity|reflexivity|congruence].
    + destruct (binary_round_spec true P ez Hez)
        as (m1 & m2 & E & -> & HE & Hbr & Hm2 & Hm1 & Hbig).
      destruct (final_spec true m2 E ltac:(lia))
        as (m3 & e3 & -> & Hm3 & HEe3 & Hfl & He3).
      destruct m3 as [|q|q]; [reflexivity| |lia]. cbn [out].
      destruct (e3 <=? 971); reflexivity.
Qed.

(** Signs of rounded results *)

Lemma nonneg_sf_leb (r : spec_float) :
  SFleb (S754_zero false) r = true <-> nonneg_sf r.
Proof.
  destruct r as [s|[|]| |[|] m e]; cbn; split; intros; try tauto;
    try discriminate; reflexivity.
Qed.

Lemma final_sign (s : bool) (m e : Z) :
  0 <= m ->
  match final s m e with
  | S754_zero s' | S754_infinity s' | S754_finite s' _ _ => s' = s
  | S754_nan => False
  end.
Proof.
  intros Hm. unfold final, shr_fexp, shr. cbn [shr_record_of_loc].
  destruct (fexp prec emax (Zdigits2 m + e) - e) as [|p|p].
  - cbn [shr_m]. destruct m as [|q|q]; cbn; [reflexivity| |lia].
    now destruct (e <=? 971).
  - destruct (iter_pos_shr_m p (Build_shr_record m false false))
      as (_ & H2); [exact Hm|].
    destruct (shr_m (iter_pos shr_1 p (Build_shr_record m false false)))
      as [|q|q]; cbn; [reflexivity| |lia].
    now destruct (e + Zpos p <=? 971).
  - cbn [shr_m]. destruct m as [|q|q]; cbn; [reflexivity| |lia].
    now destruct (e <=? 971).
Qed.

Lemma binary_round_aux_sign (s : bool) (m e : Z) (l : location) :
  0 <= m ->
  match binary_round_aux prec emax s m e l with
  | S754_zero s' | S754_infinity s' | S754_finite s' _ _ => s' = s
  | S754_nan => False
  end.
Proof.
  intros Hm. rewrite binary_round_aux_final. unfold shr_fexp, shr.
  assert (H0 : 0 <= shr_m (shr_record_of_loc m l)).
  { destruct l as [|[| |]]; exact Hm. }
  destruct (fexp prec emax (Zdigits2 m + e) - e) as [|p|p].
  - apply final_sign.
    pose proof (rne_bounds (shr_m (shr_record_of_loc m l))
                  (loc_of_shr_record (shr_record_of_loc m l))). lia.
  - destruct (iter_pos_shr_m p (shr_record_of_loc m l) H0) as (_ & H2).
    apply final_sign.
    pose proof (rne_bounds (shr_m (iter_pos shr_1 p (shr_record_of_loc m l)))
                  (loc_of_shr_record
                     (iter_pos shr_1 p (shr_record_of_loc m l)))). lia.
  - apply final_sign.
    pose proof (rne_bounds (shr_m (shr_record_of_loc m l))
                  (loc_of_shr_record (shr_record_of_loc m l))). lia.
Qed.

Lemma SFdiv_core_nonneg (m1 : positive) (e1 : Z) (m2 : positive) (e2 : Z) :
  0 <= fst (fst (SFdiv_core_binary prec emax (Zpos m1) e1 (Zpos m2) e2)).
Proof.
  unfold SFdiv_core_binary.
  set (e' := Z.min _ _). set (sh := e1 - e2 - e').
  set (m' := match sh with Zpos _ => Z.shiftl (Zpos m1) sh
                         | Z0 => Zpos m1 | Zneg _ => 0 end).
  assert (Hm' : 0 <= m').
  { subst m'. destruct sh; try lia. apply Z.shiftl_nonneg. lia. }
  pose proof (Z.div_pos m' (Zpos m2) Hm' ltac:(lia)) as Hq.
  unfold Z.div in Hq. destruct (Z.div_eucl m' (Zpos m2)) as [q r].
  exact Hq.
Qed.

Lemma SFdiv_nonneg (p : spec_float) (md : positive) (ed : Z) :
  nonneg_sf p -> nonneg_sf (SF64div p (S754_finite false md ed)).
Proof.
  destruct p as [s|[|]| |[|] m e]; cbn [nonneg_sf]; try tauto; intros _;
    try (cbn; exact I).
  unfold SF64div. cbn [SFdiv xorb].
  pose proof (SFdiv_core_nonneg m e md ed) as Hq.
  destruct (SFdiv_core_binary prec emax (Zpos m) e (Zpos md) ed)
    as [[mz ez] lz].
  cbn [fst] in Hq.
  pose proof (binary_round_aux_sign false mz ez lz Hq) as Hs.
  destruct (binary_round_aux prec emax false mz ez lz) as [s|s| |s m' e'];
    cbn; subst; tauto.
Qed.

Lemma SFmul_nonneg (mq : positive) (eq : Z) (p : spec_float) :
  nonneg_sf p -> nonneg_sf (SF64mul (S754_finite false mq eq) p).
Proof.
  destruct p as [s|[|]| |[|] m e]; cbn [nonneg_sf]; try tauto; intros _;
    try (cbn; exact I).
  unfold SF64mul. cbn [SFmul xorb].
  pose proof (binary_round_aux_sign false (Zpos (mq * m)) (eq + e)
                loc_Exact ltac:(lia)) as Hs.
  destruct (binary_round_aux prec emax false (Zpos (mq * m)) (eq + e)
              loc_Exact) as [s|s| |s m' e'];
    cbn; subst; tauto.
Qed.

(** The general subtraction *)

Lemma below_inf_ltb (x : spec_float) :
  SFltb x (S754_infinity false) = true <-> below_inf x.
Proof.
  destruct x as [s|[|]| |[|] m e]; cbn; split; intros; try tauto;
    try discriminate; reflexivity.
Qed.

Lemma SFleb_below_inf (r x : spec_float) :
  SFleb r x = true -> below_inf x -> below_inf r.
Proof.
  destruct r as [s|[|]| |[|] m e]; destruct x as [s'|[|]| |[|] m' e'];
    cbn; intros; try tauto; discriminate.
Qed.

Lemma SFsub_le (x y : spec_float) :
  valid_binary x = true -> valid_binary y = true ->
  valid_binary (SF64sub x y) = true ->
  below_inf x -> nonneg_sf y ->
  SFleb (SF64sub x y) x = true.
Proof.
  intros Hx Hy Hr Hbx Hny.
  destruct y as [sy|[|]| |[|] my ey]; cbn [nonneg_sf] in Hny; try tauto.
  - destruct x as [[|]|[|]| |[|] mx ex]; cbn [below_inf] in Hbx; try tauto;
      destruct sy; cbn; try reflexivity.
    all: unfold SFleb; cbn [SFcompare]; rewrite Z.compare_refl;
      change (Pos.compare_cont Eq mx mx) with (Pos.compare mx mx);
      now rewrite Pos.compare_refl.
  - destruct x as [[|]|[|]| |[|] mx ex]; cbn [below_inf] in Hbx; try tauto;
      reflexivity.
  - destruct x as [[|]|[|]| |sx mx ex]; cbn [below_inf] in Hbx; try tauto;
      try reflexivity.
    now apply SFsub_finite_le.
Qed.

Lemma SFmul_one (x : spec_float) :
  valid_binary x = true ->
  SF64mul x (S754_finite false 4503599627370496 (-52)) = x.
Proof.
  destruct x as [s|s| |s m e]; cbn [valid_binary]; intros Hv.
  - cbn. now rewrite xorb_false_r.
  - cbn. now rewrite xorb_false_r.
  - reflexivity.
  - apply bounded_inv in Hv. destruct Hv as (Hc & He).
    unfold SF64mul. cbn [SFmul]. rewrite xorb_false_r.
    rewrite binary_round_aux_final. unfold shr_fexp, shr.
    cbn [Zdigits2 shr_record_of_loc].
    assert (Hm : Zpos (m * 4503599627370496) = Zpos m * 2 ^ 52)
      by (rewrite Pos2Z.inj_mul; reflexivity).
    assert (Hd : Zpos (digits2_pos (m * 4503599627370496))
                 = Zpos (digits2_pos m) + 52).
    { rewrite !digits2_log2, Hm, Z.log2_mul_pow2 by lia. lia. }
    rewrite Hd. unfold canon in Hc.
    replace (Zpos (digits2_pos m) + 52 + (e + -52))
      with (Zpos (digits2_pos m) + e) by lia.
    rewrite Hc. replace (e - (e + -52)) with 52 by lia.
    rewrite Hm, (iter_pos_shr_exact 52 (Zpos m)) by lia.
    cbn [shr_m loc_of_shr_record round_nearest_even].
    unfold final, shr_fexp, shr. cbn [Zdigits2 shr_record_of_loc].
    replace (e + -52 + 52) with e by lia.
    rewrite Hc, Z.sub_diag. cbn [shr_m out].
    now replace (e <=? 971) with true by (symmetry; apply Z.leb_le; lia).
Qed.

End SF64Facts.

Section Binary64Facts.

Import SF64.
Local Open Scope float_scope.

Lemma sub_le (x y : float) :
  (x <? infinity) = true -> (0 <=? y) = true ->
  (x - y <=? x) = true /\ (x - y <? infinity) = true.
Proof.
  rewrite !FloatAxioms.ltb_spec, !FloatAxioms.leb_spec, FloatAxioms.sub_spec.
  change (Prim2SF infinity) with (S754_infinity false).
  change (Prim2SF 0) with (S754_zero false).
  intros Hx Hy. apply below_inf_ltb in Hx. apply nonneg_sf_leb in Hy.
  assert (Hle : SFleb (SF64sub (Prim2SF x) (Prim2SF y)) (Prim2SF x) = true).
  { apply SFsub_le; auto using FloatAxioms.Prim2SF_valid.
    rewrite <- FloatAxioms.sub_spec. apply FloatAxioms.Prim2SF_valid. }
  split; [exact Hle|]. apply below_inf_ltb.
  eapply SFleb_below_inf; eauto.
Qed.

Lemma share_nonneg (q p : float) :
  (0 <? q) = true -> (q <? infinity) = true -> (0 <=? p) = true ->
  (0 <=? q * (p / 100)) = true.
Proof.
  rewrite !FloatAxioms.ltb_spec, !FloatAxioms.leb_spec, FloatAxioms.mul_spec, FloatAxioms.div_spec.
  change (Prim2SF infinity) with (S754_infinity false).
  change (Prim2SF 0) with (S754_zero false).
  remember (Prim2SF 100) as h eqn:Hh. vm_compute in Hh. subst h.
  intros Hq Hq' Hp. apply nonneg_sf_leb in Hp. apply nonneg_sf_leb.
  destruct (Prim2SF q) as [s|[|]| |[|] mq eq]; try discriminate.
  apply SFmul_nonneg. now apply SFdiv_nonneg.
Qed.

Lemma above_threshold_nonneg (r : float) :
  (0.0001 <? r) = true -> (0 <=? r) = true /\ (0 <? infinity) = true.
Proof.
  rewrite !FloatAxioms.ltb_spec, !FloatAxioms.leb_spec.
  change (Prim2SF 0) with (S754_zero false).
  remember (Prim2SF 0.0001) as h eqn:Hh. vm_compute in Hh. subst h.
  destruct (Prim2SF r) as [s|[|]| |[|] m e]; cbn; intros; try discriminate;
    split; reflexivity.
Qed.

Lemma mul_one (x : float) : x * 1 = x.
Proof.
  apply FloatAxioms.Prim2SF_inj. rewrite FloatAxioms.mul_spec.
  change (Prim2SF 1) with (S754_finite false 4503599627370496 (-52)).
  apply SFmul_one, FloatAxioms.Prim2SF_valid.
Qed.

Lemma zero_add (x : float) : (x =? 0) = false -> 0 + x = x.
Proof.
  rewrite FloatAxioms.eqb_spec. change (Prim2SF 0) with (S754_zero false).
  intros Hx. apply FloatAxioms.Prim2SF_inj. rewrite FloatAxioms.add_spec.
  change (Prim2SF 0) with (S754_zero false).
  destruct (Prim2SF x) as [s|[|]| |[|] m e]; try reflexivity; discriminate.
Qed.

Lemma leb_refl_below_infinity (x : float) :
  (x <? infinity) = true -> (x <=? x) = true.
Proof.
  rewrite FloatAxioms.ltb_spec, FloatAxioms.leb_spec.
  change (Prim2SF infinity) with (S754_infinity false).
  destruct (Prim2SF x) as [s|[|]| |[|] m e]; cbn; try discriminate;
    try reflexivity; intros _.
  all: unfold SFleb; cbn [SFcompare]; rewrite Z.compare_refl;
    change (Pos.compare_cont Eq m m) with (Pos.compare m m);
    now rewrite Pos.compare_refl.
Qed.

End Binary64Facts.

#[export] Instance binary64_order : PyFloatOrder float := {|
  below_infinity := fun x => PrimFloat.ltb x infinity;
  zero_below_infinity := eq_refl;
  le_refl_below_infinity := leb_refl_below_infinity;
  above_threshold_not_negative :=
    fun r Hr => proj1 (above_threshold_nonneg r Hr);
  share_not_negative := share_nonneg;
  sub_not_larger := sub_le
|}.

#[export] Instance rational_order : PyFloatOrder Q.
Proof.
  refine {| below_infinity := fun _ => true |}; cbn.
  - reflexivity.
  - intros x _. apply Qle_bool_iff. apply Qle_refl.
  - intros r Hr. apply negb_true_iff, Qle_bool_false in Hr.
    apply Qle_bool_iff. lra.
  - intros q p Hq _ Hp. apply negb_true_iff, Qle_bool_false in Hq.
    apply Qle_bool_iff in Hp. apply Qle_bool_iff.
    apply Qmult_le_0_compat; [lra|].
    unfold Qdiv. apply Qmult_le_0_compat; [exact Hp | discriminate].
  - intros x y _ Hy. apply Qle_bool_iff in Hy. split; [|reflexivity].
    apply Qle_bool_iff. lra.
Defined.

(** ** Generic facts about the exception monad and [pydiv] *)

Section MonadFacts.

Context {F : Type} `{PyFloat F}.

Lemma pydiv_nonzero (x y : F) :
  feqb y fzero = false -> pydiv x y = Ok (fquot x y).
Proof. unfold pydiv. now intros ->. Qed.

Lemma pydiv_zero (x y : F) :
  feqb y fzero = true -> pydiv x y = Raise ZeroDivisionError.
Proof. unfold pydiv. now intros ->. Qed.

Lemma pydiv_Ok_inv (x y q : F) :
  pydiv x y = Ok q -> feqb y fzero = false /\ q = fquot x y.
Proof.
  unfold pydiv. destruct (feqb y fzero); [discriminate|].
  intros [= <-]. auto.
Qed.

Lemma bind_Ok_inv {A B} (m : exc A) (k : A -> exc B) (b : B) :
  bind m k = Ok b -> exists a, m = Ok a /\ k a = Ok b.
Proof. destruct m as [a|e]; cbn; [eauto | discriminate]. Qed.

End MonadFacts.

(** Inverts a chain of binds that is known to return. *)
Ltac exc_inv :=
  repeat match goal with
  | H : bind _ _ = Ok _ |- _ =>
      let a := fresh "a" in
      let Ha := fresh "Ha" in
      apply bind_Ok_inv in H; destruct H as (a & Ha & H)
  | H : pydiv _ _ = Ok _ |- _ =>
      let Hnz := fresh "Hnz" in
      apply pydiv_Ok_inv in H; destruct H as (Hnz & ->)
  | H : Ok _ = Ok _ |- _ => injection H as H; try subst
  end.

(** Exposes the rational operations behind the interface. *)
Ltac q_ops :=
  cbn [fadd fsub fmul fquot fneg fabs feqb fltb fleb fzero fone fhundred
       f1e_4 f1e_3 rational] in *.

(** ** The scenario engine *)

Section ScenarioFacts.

Context {F : Type} `{PyFloatLaws F}.
Variable c : StrategyConfig.t F.
Variable quantity : F.

(** The value the risk/reward step leaves in [risk_reward_ratio]. *)
Lemma risk_reward_spec (net : F) (r : SimulationResult.t F) (sl : F) :
  SimulationResult.sl_loss r = Some sl ->
  exists r',
    risk_reward net r = Ok r' /\
    SimulationResult.sl_loss r' = Some sl /\
    SimulationResult.total_net_profit r'
      = SimulationResult.total_net_profit r /\
    SimulationResult.risk_reward_ratio r'
      = if fltb fzero (fabs sl) then fabs (fquot net sl)
        else SimulationResult.risk_reward_ratio r.
Proof.
  intros Hsl. unfold risk_reward. rewrite Hsl.
  destruct (fltb fzero (fabs sl)) eqn:Habs.
  - unfold truthy. rewrite (abs_positive_nonzero _ Habs). cbn.
    rewrite pydiv_nonzero by now apply abs_positive_nonzero.
    cbn. eexists. split; [reflexivity|]. cbn. auto.
  - rewrite andb_false_r. eexists. split; [reflexivity|]. auto.
Qed.

Lemma risk_reward_returns (net : F) (r : SimulationResult.t F) :
  returns (risk_reward net r).
Proof.
  destruct (SimulationResult.sl_loss r) as [sl|] eqn:Hsl.
  - destruct (risk_reward_spec net r sl Hsl) as (r' & Hr & _).
    now exists r'.
  - unfold risk_reward. rewrite Hsl. now exists r.
Qed.

Lemma stop_loss_leg_inv (r r' : SimulationResult.t F) :
  stop_loss_leg c quantity r = Ok r' ->
  feqb (total_cost c quantity) fzero = false /\
  r' = SimulationResult.set_sl r (sl_loss_of c quantity)
         (fmul (fquot (sl_loss_of c quantity) (total_cost c quantity))
               fhundred).
Proof.
  unfold stop_loss_leg. intros Hr. exc_inv. auto.
Qed.

Lemma sell_lots_totals (lots : list (GradualLot.t F)) :
  forall i r r',
    sell_lots c quantity i lots r = Ok r' ->
    SimulationResult.sl_loss r' = SimulationResult.sl_loss r /\
    SimulationResult.sl_return_pct r' = SimulationResult.sl_return_pct r /\
    SimulationResult.risk_reward_ratio r'
      = SimulationResult.risk_reward_ratio r.
Proof.
  induction lots as [|l lots IH]; cbn; intros i r r' Hr.
  - now injection Hr as <-.
  - exc_inv. apply IH in Hr. cbn in Hr. exact Hr.
Qed.

(** C7 — In [simulate_single_sell] and [simulate_gradual_sell] the
    risk/reward ratio is [|net_profit / sl_loss|] when the magnitude of
    [sl_loss] exceeds the threshold (zero), and 0 otherwise; the risk/reward
    step itself never raises, so a zero-magnitude stop-loss gives ratio 0
    and no error. *)
Theorem risk_reward_ratio_value :
  (forall r,
      simulate_single_sell c quantity = Ok r ->
      exists sl net,
        SimulationResult.sl_loss r = Some sl /\
        SimulationResult.total_net_profit r = net /\
        SimulationResult.risk_reward_ratio r
          = if fltb fzero (fabs sl) then fabs (fquot net sl) else fzero) /\
  (forall r,
      StrategyConfig.gradual_lots c <> [] ->
      simulate_gradual_sell c quantity = Ok r ->
      exists sl net,
        SimulationResult.sl_loss r = Some sl /\
        SimulationResult.total_net_profit r = net /\
        SimulationResult.risk_reward_ratio r
          = if fltb fzero (fabs sl) then fabs (fquot net sl) else fzero) /\
  (forall net r, returns (risk_reward net r)).
Proof.
  split; [|split].
  - intros r Hr. unfold simulate_single_sell in Hr. exc_inv.
    apply stop_loss_leg_inv in Ha1. destruct Ha1 as (_ & ->).
    match type of Hr with risk_reward ?n ?r0 = _ =>
      destruct (risk_reward_spec n r0 _ eq_refl) as (r' & Hrr & Hsl & Hnet & Hv)
    end.
    rewrite Hrr in Hr. injection Hr as <-.
    eexists _, _. split; [exact Hsl|]. split; [reflexivity|].
    rewrite Hv, Hnet. reflexivity.
  - intros r Hne Hr. unfold simulate_gradual_sell in Hr.
    destruct (StrategyConfig.gradual_lots c) as [|l lots] eqn:Hl;
      [congruence|].
    exc_inv. apply stop_loss_leg_inv in Ha1. destruct Ha1 as (_ & ->).
    apply sell_lots_totals in Ha. cbn in Ha. destruct Ha as (_ & _ & Hrr0).
    match type of Hr with risk_reward ?n ?r0 = _ =>
      destruct (risk_reward_spec n r0 _ eq_refl) as (r' & Hrr & Hsl & Hnet & Hv)
    end.
    rewrite Hrr in Hr. injection Hr as <-.
    eexists _, _. split; [exact Hsl|]. split; [reflexivity|].
    rewrite Hv, Hnet. cbn. rewrite Hrr0. reflexivity.
  - apply risk_reward_returns.
Qed.

End ScenarioFacts.

Section GradualFacts.

Context {F : Type} `{PyFloat F}.
Variable c : StrategyConfig.t F.
Variable quantity : F.

Lemma risk_reward_keeps_sl (net : F) (r r' : SimulationResult.t F) :
  risk_reward net r = Ok r' ->
  SimulationResult.sl_loss r' = SimulationResult.sl_loss r /\
  SimulationResult.sl_return_pct r' = SimulationResult.sl_return_pct r.
Proof.
  unfold risk_reward.
  destruct (SimulationResult.sl_loss r) as [sl|] eqn:Hsl.
  - destruct (truthy sl && fltb fzero (fabs sl)); intros Hr; exc_inv.
    + cbn. auto.
    + now rewrite Hsl.
  - intros [= <-]. now rewrite Hsl.
Qed.

(** C10 — With an empty stage list [simulate_gradual_sell] returns the
    result carrying quantity and total cost, an empty lot list, all totals
    zero, ratio zero and [sl_loss], [sl_return_pct] unset; with a non-empty
    list every returned result has both stop-loss figures set. *)
Theorem gradual_sell_without_stages :
  (StrategyConfig.gradual_lots c = [] ->
   simulate_gradual_sell c quantity
   = Ok (SimulationResult.mk "Venda Gradual" c quantity
           (fmul (StrategyConfig.entry_price c) quantity)
           [] fzero fzero fzero fzero None None fzero)) /\
  (StrategyConfig.gradual_lots c <> [] ->
   forall r,
     simulate_gradual_sell c quantity = Ok r ->
     SimulationResult.sl_loss r = Some (sl_loss_of c quantity) /\
     SimulationResult.sl_return_pct r
       = Some (fmul (fquot (sl_loss_of c quantity)
                       (fmul (StrategyConfig.entry_price c) quantity))
                 fhundred)).
Proof.
  split.
  - intros Hl. unfold simulate_gradual_sell. now rewrite Hl.
  - intros Hne r Hr. unfold simulate_gradual_sell in Hr.
    destruct (StrategyConfig.gradual_lots c) as [|l lots]; [congruence|].
    exc_inv. apply risk_reward_keeps_sl in Hr. destruct Hr as (-> & ->).
    unfold stop_loss_leg in Ha1. exc_inv. cbn. auto.
Qed.

End GradualFacts.

(** ** The payload adapter *)

(** C9 — [generate_api_payload]: [check_interval_secs] is the interval in
    minutes times 60; the [config] object holds, when staged mode is active
    (enabled flag set and at least one stage), [gradual_sell] with
    [enabled = true] and the stages in order as
    [{sell_percent, tp_percent, executed: false}], and otherwise
    [take_profit_levels] with the single entry
    [{percent: tp_percent, sell_percent: 100.0, executed: false}]. *)
Theorem api_payload_shape {F : Type} `{PyFloat F} (c : StrategyConfig.t F) :
  getitem (generate_api_payload c) "check_interval_secs"
    = Some (PInt (StrategyConfig.check_interval_min c * 60)) /\
  exists config,
    getitem (generate_api_payload c) "config" = Some (PDict config) /\
    if StrategyConfig.gradual_enabled c
       && negb (Nat.eqb (List.length (StrategyConfig.gradual_lots c)) 0)
    then
      getitem config "gradual_sell"
        = Some (PDict
            [("enabled"%string, PBool true);
             ("lots"%string,
              PList (map (fun lot =>
                       PDict [("sell_percent"%string,
                               PFloat (GradualLot.sell_percent lot));
                              ("tp_percent"%string,
                               PFloat (GradualLot.tp_percent lot));
                              ("executed"%string, PBool false)])
                     (StrategyConfig.gradual_lots c)))]) /\
      getitem config "take_profit_levels" = None
    else
      getitem config "take_profit_levels"
        = Some (PList
            [PDict [("percent"%string,
                     PFloat (StrategyConfig.tp_percent c));
                    ("sell_percent"%string, PFloat fhundred);
                    ("executed"%string, PBool false)]]) /\
      getitem config "gradual_sell" = None.
Proof.
  unfold generate_api_payload.
  destruct (StrategyConfig.gradual_enabled c);
    destruct (StrategyConfig.gradual_lots c) as [|l lots];
    cbn; (split; [reflexivity|]); eexists; (split; [reflexivity|]);
    cbn; auto.
Qed.

(** ** The price-series walker *)

Section ScanFacts.

Context {F : Type} `{PyFloat F}.

Lemma scan_lots_Some (ch : F) (lots : list (Lot.t F)) :
  forall i k hit lots',
    scan_lots ch i lots = Some (k, hit, lots') ->
    exists n,
      k = (i + n)%nat /\
      nth_error lots n = Some hit /\
      Lot.executed hit = false /\
      fleb (Lot.tp_pct hit) ch = true /\
      (forall j l, (j < n)%nat -> nth_error lots j = Some l -> skipped ch l) /\
      nth_error lots' n = Some (Lot.set_executed hit) /\
      (forall j, j <> n -> nth_error lots' j = nth_error lots j).
Proof.
  induction lots as [|a lots IH]; cbn; intros i k hit lots' Hs;
    [discriminate|].
  assert (Hrec : forall r,
    match scan_lots ch (S i) lots with
    | Some (k, hit, rest') => Some (k, hit, a :: rest')
    | None => None
    end = Some r -> skipped ch a -> r = (k, hit, lots') ->
    exists n,
      k = (i + n)%nat /\
      nth_error (a :: lots) n = Some hit /\
      Lot.executed hit = false /\
      fleb (Lot.tp_pct hit) ch = true /\
      (forall j l, (j < n)%nat -> nth_error (a :: lots) j = Some l ->
                   skipped ch l) /\
      nth_error lots' n = Some (Lot.set_executed hit) /\
      (forall j, j <> n -> nth_error lots' j = nth_error (a :: lots) j)).
  { intros r Hr Ha ->.
    destruct (scan_lots ch (S i) lots) as [[[k' hit'] rest']|] eqn:E;
      [|discriminate].
    injection Hr as -> -> <-.
    destruct (IH _ _ _ _ E) as (n & -> & Hn & Hex & Htp & Hbefore & Hn' & Hoth).
    exists (S n). repeat split; auto; try lia.
    - intros [|j] l Hj Hl; cbn in Hl.
      + now injection Hl as <-.
      + apply (Hbefore j); [lia | exact Hl].
    - intros [|j] Hj; cbn; [reflexivity|]. apply Hoth. lia. }
  destruct (Lot.executed a) eqn:Hexa.
  - apply (Hrec _ Hs); [now left | reflexivity].
  - destruct (fleb (Lot.tp_pct a) ch) eqn:Htpa.
    + injection Hs as <- <- <-. exists 0%nat.
      repeat split; auto; try lia.
      intros [|j] Hj; [congruence | reflexivity].
    + apply (Hrec _ Hs); [now right | reflexivity].
Qed.

Lemma scan_lots_None (ch : F) (lots : list (Lot.t F)) :
  forall i,
    scan_lots ch i lots = None ->
    forall j l, nth_error lots j = Some l -> skipped ch l.
Proof.
  induction lots as [|a lots IH]; cbn; intros i Hs j l Hl.
  - now destruct j.
  - assert (Hrec : scan_lots ch (S i) lots = None -> skipped ch a ->
                   skipped ch l).
    { intros E Ha. destruct j as [|j]; cbn in Hl.
      - now injection Hl as <-.
      - exact (IH _ E _ _ Hl). }
    destruct (Lot.executed a) eqn:Hexa.
    + destruct (scan_lots ch (S i) lots) as [[[? ?] ?]|] eqn:E;
        [discriminate|]. apply Hrec; [reflexivity | now left].
    + destruct (fleb (Lot.tp_pct a) ch) eqn:Htpa; [discriminate|].
      destruct (scan_lots ch (S i) lots) as [[[? ?] ?]|] eqn:E;
        [discriminate|]. apply Hrec; [reflexivity | now right].
Qed.

(** The first pending lot whose threshold is reached is the one the scan
    fires. *)
Lemma scan_lots_first (ch : F) (lots : list (Lot.t F)) :
  forall i n hit,
    nth_error lots n = Some hit ->
    Lot.executed hit = false ->
    fleb (Lot.tp_pct hit) ch = true ->
    (forall j l, (j < n)%nat -> nth_error lots j = Some l -> skipped ch l) ->
    exists lots', scan_lots ch i lots = Some ((i + n)%nat, hit, lots').
Proof.
  intros i n hit Hn Hex Htp Hbefore.
  destruct (scan_lots ch i lots) as [[[k hit'] lots']|] eqn:E.
  - destruct (scan_lots_Some _ _ _ _ _ _ E)
      as (m & -> & Hm & Hexm & Htpm & Hbm & _).
    destruct (Nat.lt_trichotomy m n) as [Hlt | [-> | Hgt]].
    + destruct (Hbefore _ _ Hlt Hm); congruence.
    + rewrite Hn in Hm. injection Hm as <-. eauto.
    + destruct (Hbm _ _ Hgt Hn); congruence.
  - destruct (scan_lots_None _ _ _ E _ _ Hn); congruence.
Qed.

End ScanFacts.

Section StagedTakeProfit.

Context {F : Type} `{PyFloat F}.
Local Open Scope py_scope.
Variable c : StrategyConfig.t F.
Variable quantity : F.

Lemma scan_lots_count (ch : F) (lots : list (Lot.t F)) :
  forall i k hit lots',
    scan_lots ch i lots = Some (k, hit, lots') ->
    executed_count lots' = S (executed_count lots).
Proof.
  unfold executed_count.
  induction lots as [|a lots IH]; cbn; intros i k hit lots' Hs;
    [discriminate|].
  destruct (Lot.executed a) eqn:Hexa.
  - destruct (scan_lots ch (S i) lots) as [[[k' hit'] rest']|] eqn:E;
      [|discriminate].
    injection Hs as <- <- <-. cbn. rewrite Hexa. cbn. f_equal. eauto.
  - destruct (fleb (Lot.tp_pct a) ch).
    + injection Hs as <- <- <-. reflexivity.
    + destruct (scan_lots ch (S i) lots) as [[[k' hit'] rest']|] eqn:E;
        [|discriminate].
      injection Hs as <- <- <-. cbn. rewrite Hexa. eauto.
Qed.

Lemma take_profit_check_count (st st' : Walk.t F) (tick : nat)
    (price ch : F) (k : control) :
  take_profit_check c quantity st tick price ch = (st', k) ->
  (executed_count (Walk.lots st') <= S (executed_count (Walk.lots st)))%nat.
Proof.
  unfold take_profit_check.
  destruct (Walk.lots st) as [|l lots] eqn:Hl.
  - destruct (tp_triggered c st ch); intros [= <- <-]; cbn;
      rewrite ?Hl; auto.
  - destruct (scan_lots ch 0 (l :: lots)) as [[[i hit] lots']|] eqn:E;
      intros [= <- <-].
    + unfold take_profit_lot. cbn [Walk.lots].
      now rewrite (scan_lots_count _ _ _ _ _ _ E).
    + rewrite Hl. auto.
Qed.

(** C2 — With a non-empty stage list, a tick executes at most one stage;
    when the stop-loss does not pre-empt the tick, the first stage in
    configured order that is pending and whose threshold is reached is sold
    ([original_quantity * sell_percent / 100] at the tick's price, event
    [TP_LOT_<index+1>]) and every other stage keeps its flag; when no stage
    is eligible nothing is sold. *)
Theorem one_stage_per_tick (st : Walk.t F) (tick : nat) (price : F) :
  Walk.lots st <> [] ->
  (forall st' k,
      step c quantity st tick price = Ok (st', k) ->
      (executed_count (Walk.lots st')
       <= S (executed_count (Walk.lots st)))%nat) /\
  (forall ch,
      change_pct_of c price = Ok ch ->
      sl_triggered c st ch = false ->
      (forall n lot,
          nth_error (Walk.lots st) n = Some lot ->
          Lot.executed lot = false ->
          (Lot.tp_pct lot <=? ch) = true ->
          (forall j l, (j < n)%nat -> nth_error (Walk.lots st) j = Some l ->
                       Lot.executed l = true
                       \/ (Lot.tp_pct l <=? ch) = false) ->
          let lot_pct := Lot.sell_pct lot /. fhundred in
          let lot_qty := quantity * lot_pct in
          let sell_value := lot_qty * price in
          let profit :=
            sell_value - StrategyConfig.entry_price c * quantity * lot_pct in
          let fee := sell_value * (StrategyConfig.fee_percent c /. fhundred) in
          exists st' k,
            step c quantity st tick price = Ok (st', k) /\
            nth_error (Walk.lots st') n = Some (Lot.set_executed lot) /\
            (forall j, j <> n ->
                       nth_error (Walk.lots st') j
                       = nth_error (Walk.lots st) j) /\
            Walk.remaining_qty st' = Walk.remaining_qty st - lot_qty /\
            Walk.events st'
            = Walk.events st
              ++ [Trade (Event.mk tick price (fround ch 2) (TP_LOT (n + 1))
                           (fround lot_qty 8) (Lot.sell_pct lot)
                           (Some (Lot.tp_pct lot)) (fround profit 2)
                           (fround fee 2) (fround (profit - fee) 2))]) /\
      ((forall j l, nth_error (Walk.lots st) j = Some l ->
                    Lot.executed l = true \/ (Lot.tp_pct l <=? ch) = false) ->
       exists k, step c quantity st tick price = Ok (st, k))).
Proof.
  intros Hne. split.
  - intros st' k Hstep. unfold step in Hstep. exc_inv.
    destruct (sl_triggered c st a).
    + exc_inv. unfold stop_loss in Ha0. exc_inv. cbn. auto.
    + destruct (take_profit_check c quantity st tick price a)
        as [st1 k1] eqn:E.
      apply take_profit_check_count in E.
      destruct k1; [destruct (fleb _ _)|]; injection Hstep as <- <-;
        exact E.
  - intros ch Hch Hsl. split.
    + intros n lot Hn Hex Htp Hbefore lot_pct lot_qty sell_value profit fee.
      destruct (scan_lots_first ch (Walk.lots st) 0 n lot Hn Hex Htp Hbefore)
        as (lots' & Hscan).
      destruct (scan_lots_Some _ _ _ _ _ _ Hscan)
        as (m & Hm & _ & _ & _ & _ & Hn' & Hoth).
      cbn in Hm. subst m.
      unfold step. rewrite Hch. cbn. rewrite Hsl.
      unfold take_profit_check.
      destruct (Walk.lots st) as [|l0 lots0] eqn:Hl; [congruence|].
      rewrite Hscan. cbn.
      match goal with
      | |- context [if ?b then _ else _] => destruct b
      end; eexists _, _; (split; [reflexivity|]); cbn;
        repeat split; auto.
    + intros Hnone. unfold step. rewrite Hch. cbn. rewrite Hsl.
      unfold take_profit_check.
      destruct (Walk.lots st) as [|l0 lots0] eqn:Hl; [congruence|].
      destruct (scan_lots ch 0 (l0 :: lots0)) as [[[i hit] lots']|] eqn:E.
      * destruct (scan_lots_Some _ _ _ _ _ _ E)
          as (m & _ & Hm & Hexm & Htpm & _).
        destruct (Hnone _ _ Hm); congruence.
      * destruct (fleb (Walk.remaining_qty st) f1e_4); eauto.
Qed.

End StagedTakeProfit.

Section WalkerFacts.

Context {F : Type} `{PyFloatLaws F}.
Local Open Scope py_scope.
Variable c : StrategyConfig.t F.
Variable quantity : F.

Local Abbreviation safe := (safe quantity).
Local Abbreviation step_effect := (step_effect quantity).

Lemma safe_initial : safe (initial c quantity).
Proof. intros Hq. cbn. now apply zero_not_above_threshold. Qed.

Lemma safe_nonzero (st : Walk.t F) :
  safe st -> (Walk.remaining_qty st >? f1e_4) = true ->
  feqb quantity fzero = false.
Proof.
  intros Hs Hr. destruct (feqb quantity fzero) eqn:E; [|reflexivity].
  rewrite (Hs E) in Hr. discriminate.
Qed.

Lemma stop_loss_returns (st : Walk.t F) (tick : nat) (price ch : F) :
  feqb quantity fzero = false ->
  let rem := Walk.remaining_qty st in
  let sl_value := rem * price in
  let sl_cost :=
    (rem /. quantity) * (StrategyConfig.entry_price c * quantity) in
  let sl_loss := sl_value - sl_cost in
  let sl_fee := sl_value * (StrategyConfig.fee_percent c /. fhundred) in
  let sl_net := sl_loss - sl_fee in
  stop_loss c quantity st tick price ch
  = Ok (Walk.mk (Walk.lots st) fzero
          (Walk.total_realized st + sl_net) (Walk.total_fees st + sl_fee)
          (Walk.events st
           ++ [Trade (Event.mk tick price (fround ch 2) STOP_LOSS
                        (fround rem 8)
                        (fround ((rem /. quantity) * fhundred) 1) None
                        (fround sl_loss 2) (fround sl_fee 2)
                        (fround sl_net 2))])).
Proof.
  intros Hq. cbn. unfold stop_loss. now rewrite !pydiv_nonzero by exact Hq.
Qed.

Lemma step_effect_of (st st' : Walk.t F) (tick : nat) (price : F)
    (k : control) :
  step c quantity st tick price = Ok (st', k) -> step_effect st st' k.
Proof.
  unfold step. intros Hstep. exc_inv.
  destruct (sl_triggered c st a) eqn:Hsl.
  - exc_inv. unfold stop_loss in Ha0. exc_inv.
    apply andb_true_iff in Hsl. now constructor.
  - unfold take_profit_check in Hstep.
    destruct (Walk.lots st) as [|l lots] eqn:Hl.
    + destruct (tp_triggered c st a) eqn:Htp.
      * injection Hstep as <- <-. unfold take_profit.
        apply andb_true_iff in Htp. now constructor.
      * destruct (fleb (Walk.remaining_qty st) f1e_4);
          injection Hstep as <- <-; constructor.
    + destruct (scan_lots a 0 (l :: lots)) as [[[i hit] lots']|] eqn:E.
      * unfold take_profit_lot in Hstep. rewrite <- Hl in E.
        match type of Hstep with
        | (if ?b then _ else _) = _ => destruct b
        end; injection Hstep as <- <-; now econstructor; eauto.
      * destruct (fleb (Walk.remaining_qty st) f1e_4);
          injection Hstep as <- <-; constructor.
Qed.

Lemma step_safe (st st' : Walk.t F) (tick : nat) (price : F) (k : control) :
  step c quantity st tick price = Ok (st', k) -> safe st -> safe st'.
Proof.
  intros Hstep Hs Hq. apply step_effect_of in Hstep.
  pose proof (Hs Hq) as Hrem.
  destruct Hstep; cbn; auto; try congruence.
  now apply zero_lot_keeps_threshold.
Qed.

Lemma step_returns (st : Walk.t F) (tick : nat) (price : F) :
  feqb (StrategyConfig.entry_price c) fzero = false ->
  safe st -> returns (step c quantity st tick price).
Proof.
  intros He Hs. unfold step, change_pct_of.
  rewrite pydiv_nonzero by exact He. cbn.
  match goal with |- context [sl_triggered c st ?a] =>
    destruct (sl_triggered c st a) eqn:Hsl; [|
      destruct (take_profit_check c quantity st tick price a) as [st1 [|]]]
  end.
  - apply andb_true_iff in Hsl. destruct Hsl as (_ & Hrem).
    rewrite stop_loss_returns by now apply safe_nonzero with st.
    cbn. now eexists.
  - destruct (fleb (Walk.remaining_qty st1) f1e_4); now eexists.
  - now eexists.
Qed.

Lemma walk_safe (prices : list F) :
  forall st tick st' k,
    walk c quantity st tick prices = Ok (st', k) -> safe st -> safe st'.
Proof.
  induction prices as [|p prices IH]; cbn; intros st tick st' k Hw Hs.
  - now injection Hw as <- <-.
  - exc_inv. destruct a as [st1 [|]].
    + apply (IH _ _ _ _ Hw). eapply step_safe; eauto.
    + injection Hw as <- <-. eapply step_safe; eauto.
Qed.

Lemma walk_returns (prices : list F) :
  feqb (StrategyConfig.entry_price c) fzero = false ->
  forall st tick, safe st -> returns (walk c quantity st tick prices).
Proof.
  intros He. induction prices as [|p prices IH]; cbn; intros st tick Hs.
  - now eexists.
  - destruct (step_returns st tick p He Hs) as ([st1 k] & Hstep).
    rewrite Hstep. cbn. destruct k.
    + apply IH. eapply step_safe; eauto.
    + now eexists.
Qed.

Lemma walk_app (pre rest : list F) :
  forall st tick st1,
    walk c quantity st tick pre = Ok (st1, Continue) ->
    walk c quantity st tick (pre ++ rest)
    = walk c quantity st1 (tick + List.length pre) rest.
Proof.
  induction pre as [|p pre IH]; cbn; intros st tick st1 Hw.
  - injection Hw as <-. now rewrite Nat.add_0_r.
  - exc_inv. destruct a as [st2 [|]]; [|discriminate].
    rewrite Ha. cbn. rewrite (IH _ _ _ Hw). f_equal. lia.
Qed.

(** Entries of the log written by the loop are trades. *)
Lemma walk_events (prices : list F) :
  forall st tick st' k,
    walk c quantity st tick prices = Ok (st', k) ->
    exists evs, Walk.events st' = Walk.events st ++ map Trade evs.
Proof.
  induction prices as [|p prices IH]; cbn; intros st tick st' k Hw.
  - injection Hw as <- <-. exists []. now rewrite app_nil_r.
  - exc_inv. destruct a as [st1 k1].
    assert (Hone : exists evs,
               Walk.events st1 = Walk.events st ++ map Trade evs).
    { apply step_effect_of in Ha.
      destruct Ha; cbn;
        try (now exists [ev]); exists []; now rewrite app_nil_r. }
    destruct Hone as (evs1 & H1). destruct k1.
    + destruct (IH _ _ _ _ Hw) as (evs2 & H2).
      exists (evs1 ++ evs2). now rewrite H2, H1, map_app, app_assoc.
    + injection Hw as <- <-. eauto.
Qed.

(** A walk that did not break has sold nothing by stop-loss. *)
Lemma walk_continue_no_stop_loss (prices : list F) :
  forall st tick st',
    walk c quantity st tick prices = Ok (st', Continue) ->
    filter (is_event STOP_LOSS) (Walk.events st')
    = filter (is_event STOP_LOSS) (Walk.events st).
Proof.
  induction prices as [|p prices IH]; cbn; intros st tick st' Hw.
  - now injection Hw as <-.
  - exc_inv. destruct a as [st1 [|]]; [|discriminate].
    rewrite (IH _ _ _ Hw). apply step_effect_of in Ha.
    inversion Ha; subst; cbn; try reflexivity.
    rewrite filter_app. cbn.
    match goal with Hev : Event.event _ = _ |- _ => rewrite Hev end.
    cbn. now rewrite app_nil_r.
Qed.

Lemma summary_returns (st : Walk.t F) :
  summary c quantity st
  = Ok (Summary.mk (fround (Walk.total_realized st) 2)
          (fround (Walk.total_fees st) 2)
          (fround (Walk.remaining_qty st) 8)
          (if quantity >? fzero
           then fround ((Walk.remaining_qty st /. quantity) * fhundred) 1
           else fzero)
          (if StrategyConfig.entry_price c * quantity >? fzero
           then fround ((Walk.total_realized st
                         /. (StrategyConfig.entry_price c * quantity))
                        * fhundred) 2
           else fzero)
          (if Walk.remaining_qty st <=? f1e_4 then COMPLETED else OPEN)).
Proof.
  unfold summary, total_cost.
  destruct (fltb fzero quantity) eqn:Hq;
    destruct (fltb fzero (StrategyConfig.entry_price c * quantity)) eqn:Ht;
    rewrite ?pydiv_nonzero by now apply positive_nonzero.
  all: reflexivity.
Qed.

End WalkerFacts.

Section WalkerTheorems.

Context {F : Type} `{PyFloatLaws F}.
Local Open Scope py_scope.
Variable c : StrategyConfig.t F.
Variable quantity : F.

Local Abbreviation safe := (safe quantity).

(** C1 — A tick reached by the walk whose [change_pct] is at or below
    [-sl_percent] while [remaining_qty] exceeds 1e-4 is handled by the
    stop-loss check, before any take-profit check: the whole remaining
    quantity is sold at that tick's price (cost basis
    [(remaining_qty / quantity) * total_cost], fee on the sale value,
    net = gross - fee), the log holds exactly one STOP_LOSS event,
    [remaining_qty] becomes zero and the ticks after it are not evaluated. *)
Theorem stop_loss_ends_walk (pre post : list F) (price ch : F)
    (st : Walk.t F) :
  walk c quantity (initial c quantity) 0 pre = Ok (st, Continue) ->
  change_pct_of c price = Ok ch ->
  (ch <=? - StrategyConfig.sl_percent c) = true ->
  (Walk.remaining_qty st >? f1e_4) = true ->
  let rem := Walk.remaining_qty st in
  let sl_value := rem * price in
  let sl_cost :=
    (rem /. quantity) * (StrategyConfig.entry_price c * quantity) in
  let sl_loss := sl_value - sl_cost in
  let sl_fee := sl_value * (StrategyConfig.fee_percent c /. fhundred) in
  let sl_net := sl_loss - sl_fee in
  let ev :=
    Event.mk (List.length pre) price (fround ch 2) STOP_LOSS (fround rem 8)
      (fround ((rem /. quantity) * fhundred) 1) None
      (fround sl_loss 2) (fround sl_fee 2) (fround sl_net 2) in
  let st' :=
    Walk.mk (Walk.lots st) fzero (Walk.total_realized st + sl_net)
      (Walk.total_fees st + sl_fee) (Walk.events st ++ [Trade ev]) in
  walk c quantity (initial c quantity) 0 (pre ++ price :: post)
    = Ok (st', Break) /\
  List.length (filter (is_event STOP_LOSS) (Walk.events st')) = 1%nat /\
  (exists s,
      simulate_price_series c quantity (pre ++ price :: post)
        = Ok (Walk.events st' ++ [SUMMARY s]) /\
      Summary.remaining_qty s = fround fzero 8 /\
      Summary.status s = COMPLETED) /\
  simulate_price_series c quantity (pre ++ price :: post)
    = simulate_price_series c quantity (pre ++ [price]).
Proof.
  intros Hpre Hch Hle Hrem rem sl_value sl_cost sl_loss sl_fee sl_net ev st'.
  assert (Hq : feqb quantity fzero = false).
  { apply safe_nonzero with st; [|exact Hrem].
    eapply walk_safe; [exact Hpre | apply safe_initial]. }
  assert (Hstep : forall rest,
    walk c quantity (initial c quantity) 0 (pre ++ price :: rest)
    = Ok (st', Break)).
  { intros rest. rewrite (walk_app c quantity pre _ _ _ _ Hpre). cbn.
    unfold step. rewrite Hch. cbn. unfold sl_triggered.
    rewrite Hle, Hrem. cbn.
    rewrite (stop_loss_returns c quantity st _ price ch Hq). reflexivity. }
  assert (Hsim : forall rest,
    simulate_price_series c quantity (pre ++ price :: rest)
    = Ok (Walk.events st'
          ++ [SUMMARY
                (Summary.mk (fround (Walk.total_realized st') 2)
                   (fround (Walk.total_fees st') 2) (fround fzero 8)
                   (if quantity >? fzero
                    then fround ((fzero /. quantity) * fhundred) 1
                    else fzero)
                   (if StrategyConfig.entry_price c * quantity >? fzero
                    then fround ((Walk.total_realized st'
                                  /. (StrategyConfig.entry_price c * quantity))
                                 * fhundred) 2
                    else fzero)
                   COMPLETED)])).
  { intros rest. unfold simulate_price_series. rewrite Hstep. cbn.
    rewrite summary_returns. cbn. now rewrite zero_below_threshold. }
  split; [apply Hstep|]. split; [|split].
  - subst st'. cbn. rewrite filter_app.
    rewrite (walk_continue_no_stop_loss c quantity pre _ _ _ Hpre).
    reflexivity.
  - eexists. split; [apply Hsim|]. split; reflexivity.
  - now rewrite !Hsim.
Qed.

Local Abbreviation in_step_with_log := (in_step_with_log c quantity).

Lemma booked_snoc (trades : list (Event.t F)) (ev : Event.t F) :
  forall held realized fees,
    booked c quantity held trades ->
    recorded c quantity
      (fst (fst (fold_left (book c quantity) trades (held, realized, fees))))
      ev ->
    booked c quantity held (trades ++ [ev]).
Proof.
  induction trades as [|t trades IH]; cbn; intros held realized fees Hb Hr.
  - auto.
  - destruct Hb as (Ht & Hb). split; [exact Ht|]. eapply IH; eauto.
Qed.

Lemma in_step_with_log_snoc (st : Walk.t F) (ev : Event.t F)
    (lots : list (Lot.t F)) :
  in_step_with_log st ->
  recorded c quantity (Walk.remaining_qty st) ev ->
  in_step_with_log
    (Walk.mk lots (held_after quantity (Walk.remaining_qty st) ev)
       (Walk.total_realized st
        + net_of c quantity (Walk.remaining_qty st) ev)
       (Walk.total_fees st + fee_of c quantity (Walk.remaining_qty st) ev)
       (Walk.events st ++ [Trade ev])).
Proof.
  intros (trades & Hev & Hb & Hl) Hr. exists (trades ++ [ev]). cbn.
  unfold ledger in *. split; [now rewrite Hev, map_app|]. split.
  - eapply booked_snoc; [exact Hb|]. rewrite <- Hl. exact Hr.
  - rewrite fold_left_app, <- Hl. reflexivity.
Qed.

Lemma step_in_step_with_log (st st' : Walk.t F) (tick : nat) (price : F)
    (k : control) :
  step c quantity st tick price = Ok (st', k) ->
  in_step_with_log st -> in_step_with_log st'.
Proof.
  unfold step. intros Hs Hinv. apply bind_Ok_inv in Hs.
  destruct Hs as (ch & _ & Hs).
  destruct (sl_triggered c st ch).
  - apply bind_Ok_inv in Hs. destruct Hs as (st1 & Hsl & Hs).
    injection Hs as <- <-. unfold stop_loss in Hsl.
    apply bind_Ok_inv in Hsl. destruct Hsl as (q & Hq & Hsl).
    apply bind_Ok_inv in Hsl. destruct Hsl as (q' & Hq' & Hsl).
    apply pydiv_Ok_inv in Hq. destruct Hq as (_ & ->).
    injection Hsl as <-.
    match goal with
    | |- in_step_with_log (Walk.mk _ _ _ _ (_ ++ [Trade ?ev])) =>
        apply (in_step_with_log_snoc st ev (Walk.lots st) Hinv)
    end.
    repeat split.
  - unfold take_profit_check in Hs.
    destruct (Walk.lots st) as [|l lots] eqn:Hl.
    + destruct (tp_triggered c st ch).
      * injection Hs as <- <-. unfold take_profit.
        match goal with
        | |- in_step_with_log (Walk.mk _ _ _ _ (_ ++ [Trade ?ev])) =>
            apply (in_step_with_log_snoc st ev (Walk.lots st) Hinv)
        end.
        repeat split.
      * destruct (fleb (Walk.remaining_qty st) f1e_4);
          now injection Hs as <- <-.
    + destruct (scan_lots ch 0 (l :: lots)) as [[[i hit] lots']|] eqn:E.
      * assert (Hst : st' = take_profit_lot c quantity st tick price ch i
                              hit lots').
        { match type of Hs with
          | (if ?b then _ else _) = _ => destruct b
          end; now injection Hs as <- <-. }
        subst st'. unfold take_profit_lot.
        match goal with
        | |- in_step_with_log (Walk.mk _ _ _ _ (_ ++ [Trade ?ev])) =>
            apply (in_step_with_log_snoc st ev lots' Hinv)
        end.
        repeat split.
      * destruct (fleb (Walk.remaining_qty st) f1e_4);
          now injection Hs as <- <-.
Qed.

Lemma walk_in_step_with_log (prices : list F) :
  forall st tick st' k,
    walk c quantity st tick prices = Ok (st', k) ->
    in_step_with_log st -> in_step_with_log st'.
Proof.
  induction prices as [|p prices IH]; cbn [walk]; intros st tick st' k Hw Hi.
  - now injection Hw as <- <-.
  - apply bind_Ok_inv in Hw. destruct Hw as ([st1 k1] & Hstep & Hw).
    apply step_in_step_with_log in Hstep; [|exact Hi].
    destruct k1; [exact (IH _ _ _ _ Hw Hstep)|].
    now injection Hw as <- <-.
Qed.

(** C5 (amended) — Whenever the entry price is not zero or the price
    sequence is empty, [simulate_price_series] returns the trades of the walk
    followed by exactly one SUMMARY entry, the last of the log.  The SUMMARY
    carries the cumulative realized net P&L and the cumulative fees: the
    left-to-right sums, from zero, of the unrounded net and fee of every
    trade of the log (each trade entry showing its own figures rounded to
    cents), rounded to cents; the remaining quantity, which is the quantity
    less the quantities of the stage sales and zero after a liquidation, and
    its percent of the original (zero unless the quantity is positive); the
    return percent [realized / total_cost * 100] when the total cost is
    positive and zero otherwise; and status COMPLETED exactly when the
    remaining quantity is at or below 1e-4, OPEN otherwise.  With a zero
    entry price and a non-empty sequence it raises ZeroDivisionError. *)
Theorem summary_closes_log (prices : list F) :
  (feqb (StrategyConfig.entry_price c) fzero = false \/ prices = [] ->
   exists st k,
     walk c quantity (initial c quantity) 0 prices = Ok (st, k) /\
     forallb (fun e => negb (is_summary e)) (Walk.events st) = true /\
     (exists trades,
         Walk.events st = map Trade trades /\
         booked c quantity quantity trades /\
         (Walk.remaining_qty st, Walk.total_realized st, Walk.total_fees st)
         = ledger c quantity trades) /\
     simulate_price_series c quantity prices
     = Ok (Walk.events st
           ++ [SUMMARY
                 (Summary.mk
                    (fround (Walk.total_realized st) 2)
                    (fround (Walk.total_fees st) 2)
                    (fround (Walk.remaining_qty st) 8)
                    (if quantity >? fzero
                     then fround ((Walk.remaining_qty st /. quantity)
                                  * fhundred) 1
                     else fzero)
                    (if StrategyConfig.entry_price c * quantity >? fzero
                     then fround ((Walk.total_realized st
                                   /. (StrategyConfig.entry_price c
                                       * quantity)) * fhundred) 2
                     else fzero)
                    (if Walk.remaining_qty st <=? f1e_4
                     then COMPLETED else OPEN))])) /\
  (feqb (StrategyConfig.entry_price c) fzero = true -> prices <> [] ->
   simulate_price_series c quantity prices = Raise ZeroDivisionError).
Proof.
  split.
  - intros Hin.
    assert (Hw : returns (walk c quantity (initial c quantity) 0 prices)).
    { destruct Hin as [He | ->].
      - apply walk_returns; [exact He | apply safe_initial].
      - cbn. now eexists. }
    destruct Hw as ([st k] & Hw). exists st, k. split; [exact Hw|].
    split; [|split].
    + destruct (walk_events c quantity _ _ _ _ _ Hw) as (evs & ->). cbn.
      induction evs as [|e evs IH]; cbn; auto.
    + apply (walk_in_step_with_log _ _ _ _ _ Hw).
      exists []. cbn. auto.
    + unfold simulate_price_series. rewrite Hw. cbn.
      now rewrite summary_returns.
  - intros He Hne. destruct prices as [|p prices]; [congruence|].
    unfold simulate_price_series. cbn. unfold step, change_pct_of.
    now rewrite pydiv_zero by exact He.
Qed.

End WalkerTheorems.

(** ** Exact arithmetic: allocation invariants *)

Section RationalFacts.

Local Open Scope Q_scope.
Variable c : StrategyConfig.t Q.
Variable quantity : Q.

Lemma Qsum_shift (l : list Q) :
  forall a, fold_left Qplus l a == a + fold_left Qplus l 0.
Proof.
  induction l as [|x l IH]; cbn; intros a.
  - ring.
  - rewrite (IH (a + x)), (IH (0 + x)). ring.
Qed.

Lemma pysum_cons (x : Q) (l : list Q) : pysum (x :: l) == x + pysum l.
Proof. unfold pysum. cbn. rewrite Qsum_shift. ring. Qed.

Lemma pysum_scale {A} (f : A -> Q) (t : Q) (l : list A) :
  pysum (map (fun a => t * (f a / 100)) l) == t * (pysum (map f l) / 100).
Proof.
  induction l as [|a l IH].
  - cbn. field.
  - cbn [map]. rewrite !pysum_cons, IH. field.
Qed.

Lemma sell_lots_costs (lots : list (GradualLot.t Q)) :
  forall i r r',
    sell_lots c quantity i lots r = Ok r' ->
    map LotResult.cost (SimulationResult.lot_results r')
    = map LotResult.cost (SimulationResult.lot_results r)
      ++ map (fun l => total_cost c quantity
                       * (GradualLot.sell_percent l / 100)) lots.
Proof.
  induction lots as [|l lots IH]; cbn [sell_lots]; intros i r r' Hr.
  - injection Hr as <-. cbn. now rewrite app_nil_r.
  - exc_inv. rewrite (IH _ _ _ Hr). unfold sell_lot in Ha. exc_inv.
    cbn. rewrite map_app, <- app_assoc. reflexivity.
Qed.

(** In exact arithmetic the per-lot costs allocated by
    [simulate_gradual_sell] add up to
    [total_cost * (sum of sell_percent) / 100]: exactly the total cost when
    the percentages sum to 100 (and only then), strictly less when they sum
    to less than 100 and strictly more when they sum to more than 100, for a
    positive total cost. *)
Lemma allocated_cost_sum_exact (r : SimulationResult.t Q) :
  simulate_gradual_sell c quantity = Ok r ->
  let allocated :=
    pysum (map LotResult.cost (SimulationResult.lot_results r)) in
  let percents :=
    pysum (map GradualLot.sell_percent (StrategyConfig.gradual_lots c)) in
  let total := StrategyConfig.entry_price c * quantity in
  allocated == total * (percents / 100) /\
  (StrategyConfig.gradual_lots c <> [] ->
   (allocated == total <-> percents == 100)) /\
  (0 < total -> percents < 100 -> allocated < total) /\
  (0 < total -> 100 < percents -> total < allocated).
Proof.
  intros Hr allocated percents total.
  assert (Hsum : allocated == total * (percents / 100)).
  { unfold simulate_gradual_sell in Hr. subst allocated percents total.
    destruct (StrategyConfig.gradual_lots c) as [|l lots] eqn:Hl.
    - injection Hr as <-. cbn. field.
    - exc_inv. apply risk_reward_keeps_sl in Hr as Hkeep.
      assert (Hlots : SimulationResult.lot_results r
                      = SimulationResult.lot_results a).
      { unfold risk_reward in Hr.
        destruct (SimulationResult.sl_loss a1) as [sl|].
        - destruct (truthy sl && fltb fzero (fabs sl)); exc_inv.
          + unfold stop_loss_leg in Ha1. exc_inv. reflexivity.
          + unfold stop_loss_leg in Ha1. exc_inv. reflexivity.
        - exc_inv. unfold stop_loss_leg in Ha1. exc_inv. reflexivity. }
      rewrite Hlots, (sell_lots_costs _ _ _ _ Ha).
      eapply Qeq_trans;
        [|exact (pysum_scale GradualLot.sell_percent
                   (total_cost c quantity) (l :: lots))].
      reflexivity. }
  assert (Ht : StrategyConfig.gradual_lots c <> [] -> ~ total == 0).
  { intros Hne. unfold simulate_gradual_sell in Hr.
    destruct (StrategyConfig.gradual_lots c) as [|l lots]; [congruence|].
    exc_inv. unfold stop_loss_leg in Ha1. exc_inv.
    now apply Qeq_bool_false in Hnz0. }
  clearbody allocated percents total.
  split; [exact Hsum|]. split; [|split].
  - intros Hne. specialize (Ht Hne).
    rewrite Hsum. split; intros Heq.
    + assert (Hz : total * (percents - 100) == 0).
      { setoid_replace (total * (percents - 100))
          with (100 * (total * (percents / 100) - total)) by field.
        rewrite Heq. ring. }
      apply Qmult_integral in Hz. destruct Hz as [Hz|Hz]; [tauto | lra].
    + rewrite Heq. field.
  - intros Hpos Hlt. rewrite Hsum.
    assert (Hy : 0 < total * (100 - percents)).
    { apply Qmult_lt_0_compat; lra. }
    assert (Hx : total * (percents / 100)
                 == total - total * (100 - percents) * (1 # 100)) by field.
    rewrite Hx. set (y := total * (100 - percents)) in *.
    clearbody y. lra.
  - intros Hpos Hgt. rewrite Hsum.
    assert (Hy : 0 < total * (percents - 100))
      by (apply Qmult_lt_0_compat; lra).
    assert (Hx : total * (percents / 100)
                 == total + total * (percents - 100) * (1 # 100)) by field.
    rewrite Hx. set (y := total * (percents - 100)) in *.
    clearbody y. lra.
Qed.

End RationalFacts.

Section RationalWalk.

Local Open Scope Q_scope.
Variable c : StrategyConfig.t Q.
Variable quantity : Q.

Local Abbreviation pending_qty := (pending_qty quantity).
Local Abbreviation allocation_ok := (allocation_ok quantity).

Hypothesis quantity_nonneg : 0 <= quantity.

Lemma pending_qty_nonneg (lots : list (Lot.t Q)) :
  nonneg_lots lots -> 0 <= pending_qty lots.
Proof.
  induction 1 as [|l lots Hl _ IH]; cbn; [lra|].
  destruct (Lot.executed l); [exact IH|].
  assert (0 <= quantity * (Lot.sell_pct l * (1 # 100)))
    by (apply Qmult_le_0_compat; lra).
  lra.
Qed.

Lemma scan_lots_pending (ch : Q) (lots : list (Lot.t Q)) :
  forall i k hit lots',
    scan_lots ch i lots = Some (k, hit, lots') ->
    nonneg_lots lots ->
    nonneg_lots lots' /\ 0 <= Lot.sell_pct hit /\
    pending_qty lots
    == pending_qty lots' + quantity * (Lot.sell_pct hit * (1 # 100)).
Proof.
  induction lots as [|a lots IH]; cbn [scan_lots]; intros i k hit lots' Hs Hnn;
    [discriminate|].
  inversion Hnn as [|? ? Ha Hrest]; subst.
  destruct (Lot.executed a) eqn:Hexa.
  - destruct (scan_lots ch (S i) lots) as [[[k' hit'] rest']|] eqn:E;
      [|discriminate].
    injection Hs as <- <- <-.
    destruct (IH _ _ _ _ E Hrest) as (Hnn' & Hhit & Heq).
    repeat split; [now constructor | exact Hhit |].
    cbn. now rewrite Hexa.
  - destruct (fleb (Lot.tp_pct a) ch).
    + injection Hs as <- <- <-.
      repeat split; [now constructor | exact Ha |].
      cbn. rewrite Hexa. ring.
    + destruct (scan_lots ch (S i) lots) as [[[k' hit'] rest']|] eqn:E;
        [|discriminate].
      injection Hs as <- <- <-.
      destruct (IH _ _ _ _ E Hrest) as (Hnn' & Hhit & Heq).
      repeat split; [now constructor | exact Hhit |].
      cbn. rewrite Hexa, Heq. ring.
Qed.

Lemma pending_qty_initial (lots : list (GradualLot.t Q)) :
  pending_qty (map Lot.of_config lots)
  == quantity * (pysum (map GradualLot.sell_percent lots) * (1 # 100)).
Proof.
  induction lots as [|l lots IH].
  - cbn. ring.
  - cbn [map pending_qty Lot.of_config Lot.executed Lot.sell_pct].
    rewrite pysum_cons, IH. ring.
Qed.

Lemma allocation_ok_initial :
  Forall (fun l => 0 <= GradualLot.sell_percent l)
    (StrategyConfig.gradual_lots c) ->
  pysum (map GradualLot.sell_percent (StrategyConfig.gradual_lots c)) <= 100 ->
  allocation_ok (initial c quantity).
Proof.
  intros Hnn Hsum. unfold allocation_ok, initial, initial_lots.
  cbn [Walk.lots Walk.remaining_qty].
  destruct (StrategyConfig.gradual_lots c) as [|l lots] eqn:Hl.
  - split; [constructor | cbn; exact quantity_nonneg].
  - rewrite <- Hl in *. split.
    + unfold nonneg_lots. rewrite Forall_map. exact Hnn.
    + rewrite pending_qty_initial.
      set (s := pysum _) in *. clearbody s.
      assert (0 <= quantity * (100 - s)) by (apply Qmult_le_0_compat; lra).
      setoid_replace (quantity * (s * (1 # 100)))
        with (quantity - quantity * (100 - s) * (1 # 100)) by ring.
      set (y := quantity * (100 - s)) in *. clearbody y. lra.
Qed.

Lemma above_threshold_positive (x : Q) :
  fltb (f1e_4 : Q) x = true -> 0 < x.
Proof.
  cbn. intros Hx. apply negb_true_iff, Qle_bool_false in Hx. lra.
Qed.

(** One iteration keeps the invariant unless it sells everything, lowers
    the remaining quantity and leaves it non-negative. *)
Lemma step_allocation (st st' : Walk.t Q) (tick : nat) (price : Q)
    (k : control) :
  step c quantity st tick price = Ok (st', k) ->
  allocation_ok st ->
  (k = Continue -> allocation_ok st') /\
  Walk.remaining_qty st' <= Walk.remaining_qty st /\
  0 <= Walk.remaining_qty st'.
Proof.
  intros Hstep (Hnn & Hpend). apply step_effect_of in Hstep.
  pose proof (pending_qty_nonneg _ Hnn) as Hp0.
  destruct Hstep as [ev realized fees _ Hrem | ev realized fees _ Hrem
                    | ch i hit lots' ev realized fees k Hscan _ | k].
  - apply above_threshold_positive in Hrem. cbn.
    split; [discriminate | split; lra].
  - apply above_threshold_positive in Hrem. cbn.
    split; [discriminate | split; lra].
  - destruct (scan_lots_pending _ _ _ _ _ _ Hscan Hnn) as (Hnn' & Hhit & Heq).
    pose proof (pending_qty_nonneg _ Hnn') as Hp1.
    assert (Hlot : 0 <= quantity * (Lot.sell_pct hit * (1 # 100)))
      by (apply Qmult_le_0_compat; lra).
    cbn. unfold Qdiv. change (/ 100) with (1 # 100).
    set (lot_qty := quantity * (Lot.sell_pct hit * (1 # 100))) in *.
    clearbody lot_qty.
    split; [intros _; split; [exact Hnn' | cbn; lra] | split; lra].
  - split; [intros _; now split | split; lra].
Qed.

Lemma walk_allocation (prices : list Q) :
  forall st tick st',
    walk c quantity st tick prices = Ok (st', Continue) ->
    allocation_ok st -> allocation_ok st'.
Proof.
  induction prices as [|p prices IH]; cbn; intros st tick st' Hw Hinv.
  - now injection Hw as <-.
  - exc_inv. destruct a as [st1 [|]]; [|discriminate].
    apply (IH _ _ _ Hw).
    now apply (step_allocation _ _ _ _ _ Ha Hinv).
Qed.

(** In exact arithmetic, for a non-negative quantity and stages whose
    sell-percentages are non-negative and sum to at most 100, every tick
    the walk evaluates leaves [remaining_qty] no larger than before and not
    negative. *)
Lemma remaining_qty_exact (pre : list Q) (price : Q)
    (st st' : Walk.t Q) (k : control) :
  Forall (fun l => 0 <= GradualLot.sell_percent l)
    (StrategyConfig.gradual_lots c) ->
  pysum (map GradualLot.sell_percent (StrategyConfig.gradual_lots c)) <= 100 ->
  walk c quantity (initial c quantity) 0 pre = Ok (st, Continue) ->
  step c quantity st (List.length pre) price = Ok (st', k) ->
  Walk.remaining_qty st' <= Walk.remaining_qty st /\
  0 <= Walk.remaining_qty st' /\
  0 <= Walk.remaining_qty st.
Proof.
  intros Hnn Hsum Hpre Hstep.
  assert (Hinv : allocation_ok st).
  { apply (walk_allocation _ _ _ _ Hpre).
    now apply allocation_ok_initial. }
  destruct (step_allocation _ _ _ _ _ Hstep Hinv) as (_ & Hle & H0).
  repeat split; auto.
  destruct Hinv as (Hnn' & Hpend).
  pose proof (pending_qty_nonneg _ Hnn'). lra.
Qed.

End RationalWalk.

(** ** The remaining quantity never grows *)

Section OrderedWalk.

Context {F : Type} `{PyFloatOrder F}.
Local Open Scope py_scope.
Variable c : StrategyConfig.t F.
Variable quantity : F.

Hypothesis quantity_positive : (quantity >? fzero) = true.
Hypothesis quantity_below_infinity : below_infinity quantity = true.

Local Abbreviation share_ok :=
  (fun l : Lot.t F => (Lot.sell_pct l >=? fzero) = true).

Local Abbreviation holds_a_number :=
  (fun st : Walk.t F =>
     below_infinity (Walk.remaining_qty st) = true /\
     Forall share_ok (Walk.lots st)).

Lemma scan_lots_shares (ch : F) (lots : list (Lot.t F)) :
  forall i k hit lots',
    scan_lots ch i lots = Some (k, hit, lots') ->
    Forall share_ok lots ->
    share_ok hit /\ Forall share_ok lots'.
Proof.
  induction lots as [|l lots IH]; cbn [scan_lots];
    intros i k hit lots' Hs Hf; [discriminate|].
  inversion Hf as [|? ? Hl Hrest]; subst.
  assert (Hrec : match scan_lots ch (S i) lots with
                 | Some (k, hit, rest') => Some (k, hit, l :: rest')
                 | None => None
                 end = Some (k, hit, lots') ->
                 share_ok hit /\ Forall share_ok lots').
  { destruct (scan_lots ch (S i) lots) as [[[k' h'] r']|] eqn:E;
      [|discriminate].
    intros [= <- <- <-]. destruct (IH _ _ _ _ E Hrest). auto. }
  destruct (Lot.executed l); [exact (Hrec Hs)|].
  destruct (fleb (Lot.tp_pct l) ch); [|exact (Hrec Hs)].
  injection Hs as <- <- <-. split; [exact Hl|].
  constructor; [exact Hl | exact Hrest].
Qed.

Lemma step_not_larger (st st' : Walk.t F) (tick : nat) (price : F)
    (k : control) :
  step c quantity st tick price = Ok (st', k) ->
  holds_a_number st ->
  (Walk.remaining_qty st' <=? Walk.remaining_qty st) = true /\
  holds_a_number st'.
Proof.
  intros Hs (Hr & Hl). apply step_effect_of in Hs.
  destruct Hs as [ev realized fees Hev Hrem | ev realized fees Hev Hrem
                 | ch i hit lots' ev realized fees k Hscan Hev | k];
    cbn [Walk.remaining_qty Walk.lots].
  - split; [now apply above_threshold_not_negative|].
    split; [apply zero_below_infinity | exact Hl].
  - split; [now apply above_threshold_not_negative|].
    split; [apply zero_below_infinity | exact Hl].
  - destruct (scan_lots_shares _ _ _ _ _ _ Hscan Hl) as (Hh & Hl').
    pose proof (share_not_negative _ _ quantity_positive
                  quantity_below_infinity Hh) as Hy.
    destruct (sub_not_larger _ _ Hr Hy) as (Hle & Hb). auto.
  - split; [now apply le_refl_below_infinity | auto].
Qed.

Lemma walk_holds_a_number (prices : list F) :
  forall st tick st' k,
    walk c quantity st tick prices = Ok (st', k) ->
    holds_a_number st -> holds_a_number st'.
Proof.
  induction prices as [|p prices IH]; cbn [walk]; intros st tick st' k Hw Hi.
  - now injection Hw as <- <-.
  - apply bind_Ok_inv in Hw. destruct Hw as ([st1 k1] & Hstep & Hw).
    destruct (step_not_larger _ _ _ _ _ Hstep Hi) as (_ & Hi1).
    destruct k1; [exact (IH _ _ _ _ Hw Hi1)|].
    now injection Hw as <- <-.
Qed.

Lemma initial_holds_a_number :
  Forall (fun l => (GradualLot.sell_percent l >=? fzero) = true)
    (StrategyConfig.gradual_lots c) ->
  holds_a_number (initial c quantity).
Proof.
  intros Hs. split; [exact quantity_below_infinity|].
  cbn. unfold initial_lots.
  destruct (StrategyConfig.gradual_lots c) as [|l lots]; [constructor|].
  rewrite Forall_map. exact Hs.
Qed.

End OrderedWalk.

(** C4 (amended) — For a positive quantity below infinity and stages whose
    sell-percentages are not negative, whatever they sum to, every tick the
    walk evaluates leaves [remaining_qty] less than or equal to what it was
    before the tick, and a number (not NaN, below infinity).  This holds of
    the binary64 arithmetic the program runs on and of exact arithmetic
    alike.  (Nothing keeps [remaining_qty] from going negative.) *)
Theorem remaining_qty_monotone {F : Type} `{PyFloatOrder F}
    (c : StrategyConfig.t F) (quantity : F) (pre : list F) (price : F)
    (st st' : Walk.t F) (k : control) :
  fltb fzero quantity = true ->
  below_infinity quantity = true ->
  Forall (fun l => fleb fzero (GradualLot.sell_percent l) = true)
    (StrategyConfig.gradual_lots c) ->
  walk c quantity (initial c quantity) 0 pre = Ok (st, Continue) ->
  step c quantity st (List.length pre) price = Ok (st', k) ->
  fleb (Walk.remaining_qty st') (Walk.remaining_qty st) = true /\
  below_infinity (Walk.remaining_qty st') = true /\
  below_infinity (Walk.remaining_qty st) = true.
Proof.
  intros Hq Hb Hshares Hpre Hstep.
  pose proof (initial_holds_a_number c quantity Hb Hshares) as Hi.
  pose proof (walk_holds_a_number c quantity Hq Hb _ _ _ _ _ Hpre Hi) as Hst.
  destruct (step_not_larger c quantity Hq Hb _ _ _ _ _ Hstep Hst)
    as (Hle & Hb' & _).
  split; [exact Hle|]. split; [exact Hb' | exact (proj1 Hst)].
Qed.

(** ** Degenerate configurations *)

Section Degenerate.

Context {F : Type} `{PyFloatLaws F}.
Local Open Scope py_scope.
Variable c : StrategyConfig.t F.
Variable quantity : F.

Lemma single_sell_raises :
  feqb (StrategyConfig.entry_price c * quantity) fzero = true ->
  simulate_single_sell c quantity = Raise ZeroDivisionError.
Proof.
  intros Hz. unfold simulate_single_sell, total_cost.
  now rewrite pydiv_zero by exact Hz.
Qed.

Lemma single_sell_returns :
  feqb (StrategyConfig.entry_price c * quantity) fzero = false ->
  returns (simulate_single_sell c quantity).
Proof.
  intros Hnz. unfold simulate_single_sell, stop_loss_leg, total_cost.
  rewrite !pydiv_nonzero by exact Hnz. cbn [bind].
  apply risk_reward_returns.
Qed.

Lemma sell_lot_raises (i : nat) (l : GradualLot.t F) :
  feqb (StrategyConfig.entry_price c * quantity
        * (GradualLot.sell_percent l /. fhundred)) fzero = true ->
  sell_lot c quantity i l = Raise ZeroDivisionError.
Proof.
  intros Hz. unfold sell_lot, total_cost. now rewrite pydiv_zero by exact Hz.
Qed.

Lemma price_series_returns (prices : list F) :
  feqb (StrategyConfig.entry_price c) fzero = false \/ prices = [] ->
  returns (simulate_price_series c quantity prices).
Proof.
  intros Hin.
  assert (Hw : returns (walk c quantity (initial c quantity) 0 prices)).
  { destruct Hin as [He | ->].
    - apply walk_returns; [exact He | apply safe_initial].
    - cbn. now eexists. }
  destruct Hw as ([st k] & Hw). unfold simulate_price_series.
  rewrite Hw. cbn. rewrite summary_returns. cbn. now eexists.
Qed.

Lemma price_series_raises (prices : list F) :
  feqb (StrategyConfig.entry_price c) fzero = true -> prices <> [] ->
  simulate_price_series c quantity prices = Raise ZeroDivisionError.
Proof.
  intros He Hne. destruct prices as [|p prices]; [congruence|].
  unfold simulate_price_series. cbn. unfold step, change_pct_of.
  now rewrite pydiv_zero by exact He.
Qed.

(** C3 (amended) — The core validates nothing and has no "invalid
    configuration" error.  When the total cost [entry_price * quantity] is
    zero, [simulate_single_sell] raises ZeroDivisionError, and so do
    [simulate_gradual_sell] and [simulate_partial_exit] (with at least one
    stage hit) when the first stage's allocated cost is zero;
    [simulate_price_series] raises ZeroDivisionError when the entry price is
    zero and the price sequence is not empty.  Otherwise they return:
    [simulate_single_sell] for every non-zero total cost (negative entry
    prices included), [simulate_gradual_sell] and [simulate_partial_exit]
    for every configuration without stages, [simulate_price_series] for
    every non-zero entry price or empty price sequence. *)
Theorem degenerate_configuration_behaviour :
  (feqb (StrategyConfig.entry_price c * quantity) fzero = true ->
   simulate_single_sell c quantity = Raise ZeroDivisionError) /\
  (feqb (StrategyConfig.entry_price c * quantity) fzero = false ->
   returns (simulate_single_sell c quantity)) /\
  (StrategyConfig.gradual_lots c = [] ->
   returns (simulate_gradual_sell c quantity) /\
   forall lots_hit, returns (simulate_partial_exit c quantity lots_hit)) /\
  (forall l rest,
      StrategyConfig.gradual_lots c = l :: rest ->
      feqb (StrategyConfig.entry_price c * quantity
            * (GradualLot.sell_percent l /. fhundred)) fzero = true ->
      simulate_gradual_sell c quantity = Raise ZeroDivisionError /\
      forall lots_hit,
        (0 < lots_hit)%Z ->
        simulate_partial_exit c quantity lots_hit = Raise ZeroDivisionError) /\
  (forall prices,
      feqb (StrategyConfig.entry_price c) fzero = true -> prices <> [] ->
      simulate_price_series c quantity prices = Raise ZeroDivisionError) /\
  (forall prices,
      feqb (StrategyConfig.entry_price c) fzero = false \/ prices = [] ->
      returns (simulate_price_series c quantity prices)).
Proof.
  split; [apply single_sell_raises|]. split; [apply single_sell_returns|].
  split; [|split; [|split]].
  - intros Hl. unfold simulate_gradual_sell, simulate_partial_exit.
    rewrite Hl. split; [|intros n]; now eexists.
  - intros l rest Hl Hz. unfold simulate_gradual_sell, simulate_partial_exit.
    rewrite Hl. split.
    + cbn. now rewrite sell_lot_raises.
    + intros n Hn.
      destruct (Z.to_nat (Z.min n (Z.of_nat (List.length (l :: rest)))))
        as [|m] eqn:Hm.
      * cbn [List.length] in Hm. lia.
      * cbn. now rewrite sell_lot_raises.
  - apply price_series_raises.
  - apply price_series_returns.
Qed.

End Degenerate.

(** ** The reference scenario and concrete runs (binary64 and exact) *)

Section Concrete.

Import Examples.
Local Open Scope float_scope.

(** [round] on values whose CPython results are well known. *)
Example round_known_values :
  map (fun x => Binary64.round x 2) [2.675; 0.125; 0.375; 1.005; -0.86724]
  = [2.67; 0.12; 0.38; 1; -0.87] /\
  map (fun x => Binary64.round x 0) [0.5; 1.5; 2.5] = [0; 2; 2].
Proof. split; vm_compute; reflexivity. Qed.

(** The falling path of [main()]: one STOP_LOSS at tick 5, then the
    SUMMARY. *)
Example falling_path_log :
  exists ev s,
    simulate_price_series sol_config sol_quantity falling_prices
      = Ok [Trade ev; SUMMARY s] /\
    Event.tick ev = 5%nat /\ Event.event ev = STOP_LOSS /\
    Event.sell_pct ev = 100 /\ Event.net_pnl ev = -0.87 /\
    Summary.status s = COMPLETED.
Proof.
  eexists _, _. split; [vm_compute; reflexivity|].
  repeat split; vm_compute; reflexivity.
Qed.

(** The rising path of [main()]: the four stages fire one per tick, at
    ticks 10, 16, 21 and 25. *)
Example rising_path_log :
  exists log,
    simulate_price_series sol_config sol_quantity rising_prices = Ok log /\
    map (fun e => match e with
                  | Trade ev => Some (Event.tick ev, Event.event ev)
                  | SUMMARY _ => None
                  end) log
    = [Some (10, TP_LOT 1); Some (16, TP_LOT 2); Some (21, TP_LOT 3);
       Some (25, TP_LOT 4); None]%nat.
Proof. eexists. split; vm_compute; reflexivity. Qed.

(** The payload of the default configuration: key order and name. *)
Example default_payload :
  map fst (generate_api_payload sol_config)
  = ["name"; "strategy_type"; "symbol"; "exchange_id"; "exchange_name";
     "check_interval_secs"; "config"]%string /\
  getitem (generate_api_payload sol_config) "name"
  = Some (PStr "SOL Swing Gradual") /\
  getitem (generate_api_payload sol_config) "check_interval_secs"
  = Some (PInt 900) /\
  (exists config,
      getitem (generate_api_payload sol_config) "config"
      = Some (PDict config) /\
      map fst config
      = ["fee_percent"; "stop_loss"; "mode"; "gradual_sell"]%string).
Proof.
  repeat split. eexists. split; reflexivity.
Qed.

(** C6 (counterexample) — The net return percent of the reference
    single-sell is 9.45: it differs from the stated 9.4503 by more than
    0.0002, in binary64 and in exact arithmetic. *)
Lemma single_sell_return_is_not_9_4503 :
  (exists r,
      simulate_single_sell single_config sol_quantity = Ok r /\
      (0.0002 <? abs (SimulationResult.total_net_return_pct r - 9.4503))
      = true) /\
  (exists r,
      simulate_single_sell single_config_exact sol_quantity_exact = Ok r /\
      (SimulationResult.total_net_return_pct r == 945 # 100)%Q /\
      ((2 # 10000)
       < Qabs (SimulationResult.total_net_return_pct r - (94503 # 10000)))%Q).
Proof.
  split; eexists; (split; [vm_compute; reflexivity|]).
  - vm_compute. reflexivity.
  - split; vm_compute; reflexivity.
Qed.

(** C6 (amended) — For entry 36, tp 10, sl 5, fee 0.5 and quantity 0.44,
    [simulate_single_sell] returns total cost 15.84, sell price 39.6, gross
    proceeds 17.424, fee 0.08712, net profit 1.49688 and net return percent
    9.45; the stop-loss leg has price 34.2, net loss -0.86724 and return
    percent -5.475; the risk/reward ratio is 126/73, about 1.726.  The
    figures are exact in rational arithmetic and hold within 1e-12 in
    binary64. *)
Theorem single_sell_reference_figures :
  (exists r lot sl slr,
      simulate_single_sell single_config sol_quantity = Ok r /\
      SimulationResult.lot_results r = [lot] /\
      SimulationResult.sl_loss r = Some sl /\
      SimulationResult.sl_return_pct r = Some slr /\
      near (SimulationResult.total_cost r) 15.84 1e-12 = true /\
      near (LotResult.sell_price lot) 39.6 1e-12 = true /\
      near (LotResult.gross_value lot) 17.424 1e-12 = true /\
      near (LotResult.fee lot) 0.08712 1e-12 = true /\
      near (LotResult.net_profit lot) 1.49688 1e-12 = true /\
      near (LotResult.net_return_pct lot) 9.45 1e-12 = true /\
      near (SimulationResult.total_net_return_pct r) 9.45 1e-12 = true /\
      near (36 * (1 - 5 / 100)) 34.2 1e-12 = true /\
      near sl (-0.86724) 1e-12 = true /\
      near slr (-5.475) 1e-12 = true /\
      near (SimulationResult.risk_reward_ratio r) 1.726 0.0005 = true) /\
  (exists r lot sl slr,
      simulate_single_sell single_config_exact sol_quantity_exact = Ok r /\
      SimulationResult.lot_results r = [lot] /\
      SimulationResult.sl_loss r = Some sl /\
      SimulationResult.sl_return_pct r = Some slr /\
      (SimulationResult.total_cost r == 15.84)%Q /\
      (LotResult.sell_price lot == 39.6)%Q /\
      (LotResult.gross_value lot == 17.424)%Q /\
      (LotResult.fee lot == 0.08712)%Q /\
      (LotResult.net_profit lot == 1.49688)%Q /\
      (LotResult.net_return_pct lot == 9.45)%Q /\
      (SimulationResult.total_net_return_pct r == 9.45)%Q /\
      (36 * (1 - 5 / 100) == 34.2)%Q /\
      (sl == -0.86724)%Q /\
      (slr == -5.475)%Q /\
      (SimulationResult.risk_reward_ratio r == 126 # 73)%Q /\
      (Qabs (SimulationResult.risk_reward_ratio r - 1.726) < 0.0005)%Q).
Proof.
  split; eexists _, _, _, _;
    (split; [vm_compute; reflexivity|]);
    repeat (split; [vm_compute; reflexivity|]);
    vm_compute; reflexivity.
Qed.

(** C3 (counterexample) — A negative entry price is not rejected:
    [simulate_single_sell] returns a result; a zero quantity is not rejected
    by [simulate_price_series]; a zero entry price is not rejected by
    [simulate_gradual_sell] without stages. *)
Lemma degenerate_configuration_accepted :
  (StrategyConfig.entry_price negative_entry <? 0) = true /\
  (exists r,
      simulate_single_sell negative_entry sol_quantity = Ok r /\
      SimulationResult.total_cost r = -15.84) /\
  returns (simulate_price_series single_config 0 [40]) /\
  returns (simulate_gradual_sell zero_entry sol_quantity).
Proof.
  split; [reflexivity|]. split; [|split].
  - eexists. split; vm_compute; reflexivity.
  - eexists. vm_compute. reflexivity.
  - eexists. vm_compute. reflexivity.
Qed.

(** C5 (counterexample) — With a zero entry price the first tick raises
    ZeroDivisionError: no log, and no SUMMARY entry, is returned. *)
Lemma zero_entry_price_no_summary :
  simulate_price_series zero_entry sol_quantity [1]
  = Raise ZeroDivisionError.
Proof. reflexivity. Qed.

(** C4 (counterexample) — Stages that sell 120% of the position drive
    [remaining_qty] below zero; a stage with a negative share raises it; and
    the default configuration itself ends slightly below zero in binary64. *)
Lemma remaining_qty_negative_or_growing :
  (exists st st' k,
      walk over_allocated sol_quantity
        (initial over_allocated sol_quantity) 0 [40] = Ok (st, Continue) /\
      step over_allocated sol_quantity st 1 44 = Ok (st', k) /\
      (Walk.remaining_qty st' <? 0) = true) /\
  (exists st' k,
      step negative_share sol_quantity
        (initial negative_share sol_quantity) 0 40 = Ok (st', k) /\
      (Walk.remaining_qty (initial negative_share sol_quantity)
       <? Walk.remaining_qty st') = true) /\
  (exists st k,
      walk sol_config sol_quantity (initial sol_config sol_quantity) 0
        [40; 42; 44; 46] = Ok (st, k) /\
      (Walk.remaining_qty st <? 0) = true).
Proof.
  split; [|split].
  - eexists _, _, _. split; [vm_compute; reflexivity|].
    split; vm_compute; reflexivity.
  - eexists _, _. split; vm_compute; reflexivity.
  - eexists _, _. split; vm_compute; reflexivity.
Qed.


End Concrete.

(** ** Witnesses: the theorems at concrete inputs *)

Section Witnesses.

Import Examples.

(** C1 on the falling path of [main()]: the stop-loss fires at tick 5. *)
Lemma stop_loss_ends_walk_witness :
  let pre := firstn 5 falling_prices in
  let price := nth 5 falling_prices 0%float in
  let post := skipn 6 falling_prices in
  let ch := ((price - 36) / 36 * 100)%float in
  walk sol_config sol_quantity (initial sol_config sol_quantity) 0 pre
    = Ok (initial sol_config sol_quantity, Continue) /\
  change_pct_of sol_config price = Ok ch /\
  (ch <=? - 5)%float = true /\
  (0.0001 <? sol_quantity)%float = true /\
  simulate_price_series sol_config sol_quantity (pre ++ price :: post)
    = simulate_price_series sol_config sol_quantity (pre ++ [price]).
Proof.
  intros pre price post ch.
  assert (H1 : walk sol_config sol_quantity
                 (initial sol_config sol_quantity) 0 pre
               = Ok (initial sol_config sol_quantity, Continue))
    by (vm_compute; reflexivity).
  assert (H2 : change_pct_of sol_config price = Ok ch)
    by (vm_compute; reflexivity).
  assert (H3 : fleb ch (fneg (StrategyConfig.sl_percent sol_config)) = true)
    by (vm_compute; reflexivity).
  assert (H4 : fltb f1e_4
                 (Walk.remaining_qty (initial sol_config sol_quantity))
               = true)
    by (vm_compute; reflexivity).
  split; [exact H1|]. split; [exact H2|]. split; [exact H3|].
  split; [exact H4|].
  exact (proj2 (proj2 (proj2
    (stop_loss_ends_walk sol_config sol_quantity pre post price ch
       (initial sol_config sol_quantity) H1 H2 H3 H4)))).
Defined.

(** C2 on a tick that reaches both thresholds of [two_stages] at once. *)
Lemma one_stage_per_tick_witness :
  exists st' k,
    step two_stages sol_quantity (initial two_stages sol_quantity) 0 45%float
      = Ok (st', k) /\
    nth_error (Walk.lots st') 0 = Some (Lot.mk 50 10 true)%float /\
    nth_error (Walk.lots st') 1 = Some (Lot.mk 50 20 false)%float.
Proof.
  assert (Hne : Walk.lots (initial two_stages sol_quantity) <> [])
    by discriminate.
  destruct (one_stage_per_tick two_stages sol_quantity
              (initial two_stages sol_quantity) 0 45%float Hne)
    as (_ & Hfire).
  assert (Hch : change_pct_of two_stages 45%float = Ok 25%float)
    by (vm_compute; reflexivity).
  assert (Hsl : sl_triggered two_stages (initial two_stages sol_quantity)
                  25%float = false)
    by (vm_compute; reflexivity).
  destruct (Hfire _ Hch Hsl) as (Hfirst & _).
  destruct (Hfirst 0%nat (Lot.mk 50 10 false)%float eq_refl eq_refl eq_refl)
    as (st' & k & Hstep & Hn & Hoth & _).
  { intros j l Hj. lia. }
  exists st', k. split; [exact Hstep|]. split; [exact Hn|].
  rewrite (Hoth 1%nat) by lia. reflexivity.
Defined.

(** C3 at a zero and at a negative entry price. *)
Lemma degenerate_configuration_behaviour_witness :
  feqb (fmul (StrategyConfig.entry_price zero_entry) sol_quantity) fzero
    = true /\
  simulate_single_sell zero_entry sol_quantity = Raise ZeroDivisionError /\
  returns (simulate_single_sell negative_entry sol_quantity).
Proof.
  assert (Hz : feqb (fmul (StrategyConfig.entry_price zero_entry)
                       sol_quantity) fzero = true)
    by (vm_compute; reflexivity).
  assert (Hn : feqb (fmul (StrategyConfig.entry_price negative_entry)
                       sol_quantity) fzero = false)
    by (vm_compute; reflexivity).
  split; [exact Hz|]. split.
  - exact (proj1 (degenerate_configuration_behaviour zero_entry sol_quantity)
             Hz).
  - exact (proj1 (proj2 (degenerate_configuration_behaviour negative_entry
                           sol_quantity)) Hn).
Defined.

(** C4 on the rising path in binary64: tick 16 fires the second stage. *)
Lemma remaining_qty_monotone_witness :
  let pre := firstn 16 rising_prices in
  let price := nth 16 rising_prices 0%float in
  exists st st' k,
    walk sol_config sol_quantity (initial sol_config sol_quantity) 0 pre
      = Ok (st, Continue) /\
    step sol_config sol_quantity st 16 price = Ok (st', k) /\
    (Walk.remaining_qty st' <=? Walk.remaining_qty st)%float = true /\
    (Walk.remaining_qty st' =? Walk.remaining_qty st)%float = false.
Proof.
  intros pre price.
  assert (Hq : fltb fzero sol_quantity = true) by (vm_compute; reflexivity).
  assert (Hb : below_infinity sol_quantity = true)
    by (vm_compute; reflexivity).
  assert (Hnn : Forall (fun l => fleb fzero (GradualLot.sell_percent l)
                                 = true)
                  (StrategyConfig.gradual_lots sol_config))
    by (repeat constructor).
  destruct (walk sol_config sol_quantity
              (initial sol_config sol_quantity) 0 pre)
    as [[st [|]]|e] eqn:Hw; try (vm_compute in Hw; discriminate).
  pose proof Hw as Hst. vm_compute in Hst. injection Hst as Hst.
  destruct (step sol_config sol_quantity st 16 price)
    as [[st' k]|e] eqn:E;
    [|rewrite <- Hst in E; vm_compute in E; discriminate].
  exists st, st', k. split; [reflexivity|]. split; [exact E|].
  destruct (remaining_qty_monotone sol_config sol_quantity pre price
              st st' k Hq Hb Hnn Hw E) as (Hle & _ & _).
  split; [exact Hle|].
  rewrite <- Hst in E. vm_compute in E. injection E as <- _.
  rewrite <- Hst. vm_compute. reflexivity.
Defined.

(** C5 on the rising path of [main()]. *)
Lemma summary_closes_log_witness :
  exists trades s,
    simulate_price_series sol_config sol_quantity rising_prices
      = Ok (map Trade trades ++ [SUMMARY s]) /\
    booked sol_config sol_quantity sol_quantity trades /\
    Summary.total_realized_pnl s
    = fround (snd (fst (ledger sol_config sol_quantity trades))) 2 /\
    Summary.total_fees s
    = fround (snd (ledger sol_config sol_quantity trades)) 2 /\
    Summary.status s = COMPLETED.
Proof.
  assert (He : feqb (StrategyConfig.entry_price sol_config) fzero = false)
    by (vm_compute; reflexivity).
  destruct (proj1 (summary_closes_log sol_config sol_quantity rising_prices)
              (or_introl He))
    as (st & k & Hw & _ & (trades & Hev & Hbooked & Hledger) & Hsim).
  rewrite Hev in Hsim.
  exists trades. eexists. split; [exact Hsim|]. split; [exact Hbooked|].
  rewrite <- Hledger. split; [reflexivity|]. split; [reflexivity|].
  cbn [Summary.status].
  assert (Hst : walk sol_config sol_quantity
                  (initial sol_config sol_quantity) 0 rising_prices
                = Ok (st, k)) by exact Hw.
  vm_compute in Hst. injection Hst as <- <-. reflexivity.
Defined.

(** C7 on the reference configuration and on a zero stop-loss loss. *)
Lemma risk_reward_ratio_value_witness :
  (exists r sl,
      simulate_single_sell single_config sol_quantity = Ok r /\
      SimulationResult.sl_loss r = Some sl /\
      fltb fzero (fabs sl) = true /\
      SimulationResult.risk_reward_ratio r
      = fabs (fquot (SimulationResult.total_net_profit r) sl)) /\
  (exists r,
      simulate_single_sell zero_stop sol_quantity = Ok r /\
      SimulationResult.sl_loss r = Some 0%float /\
      SimulationResult.risk_reward_ratio r = 0%float).
Proof.
  split.
  - destruct (simulate_single_sell single_config sol_quantity) as [r|e] eqn:E;
      [|vm_compute in E; discriminate].
    destruct (proj1 (risk_reward_ratio_value single_config sol_quantity) r E)
      as (sl & net & Hsl & Hnet & Hrr).
    exists r, sl. split; [reflexivity|]. split; [exact Hsl|].
    assert (Habs : fltb fzero (fabs sl) = true).
    { vm_compute in E. injection E as <-. cbn in Hsl. injection Hsl as <-.
      reflexivity. }
    split; [exact Habs|]. rewrite Hrr, Habs, Hnet. reflexivity.
  - destruct (simulate_single_sell zero_stop sol_quantity) as [r|e] eqn:E;
      [|vm_compute in E; discriminate].
    destruct (proj1 (risk_reward_ratio_value zero_stop sol_quantity) r E)
      as (sl & net & Hsl & Hnet & Hrr).
    assert (Hzero : sl = 0%float).
    { vm_compute in E. injection E as <-. cbn in Hsl. now injection Hsl as <-. }
    subst sl. exists r. split; [reflexivity|]. split; [exact Hsl|].
    rewrite Hrr. reflexivity.
Defined.

(** C10 on the configuration without stages. *)
Lemma gradual_sell_without_stages_witness :
  StrategyConfig.gradual_lots single_config = [] /\
  simulate_gradual_sell single_config sol_quantity
  = Ok (SimulationResult.mk "Venda Gradual" single_config sol_quantity
          (fmul (StrategyConfig.entry_price single_config) sol_quantity)
          [] fzero fzero fzero fzero None None fzero).
Proof.
  split; [reflexivity|].
  exact (proj1 (gradual_sell_without_stages single_config sol_quantity)
           eq_refl).
Defined.

End Witnesses.

(** * Further properties of the code *)

(** ** The scenario engine: lots and totals *)

Section LotFacts.

Context {F : Type} `{PyFloat F}.
Local Open Scope py_scope.
Variable c : StrategyConfig.t F.
Variable quantity : F.

Lemma add_lots_fields (outs : list (LotResult.t F)) :
  forall r,
    let r' := fold_left SimulationResult.add_lot outs r in
    SimulationResult.lot_results r' = SimulationResult.lot_results r ++ outs /\
    SimulationResult.total_gross_profit r'
    = fold_left fadd (map LotResult.gross_profit outs)
        (SimulationResult.total_gross_profit r) /\
    SimulationResult.total_fees r'
    = fold_left fadd (map LotResult.fee outs) (SimulationResult.total_fees r) /\
    SimulationResult.total_net_profit r'
    = fold_left fadd (map LotResult.net_profit outs)
        (SimulationResult.total_net_profit r) /\
    SimulationResult.scenario r' = SimulationResult.scenario r /\
    SimulationResult.sl_loss r' = SimulationResult.sl_loss r /\
    SimulationResult.sl_return_pct r' = SimulationResult.sl_return_pct r /\
    SimulationResult.risk_reward_ratio r'
    = SimulationResult.risk_reward_ratio r.
Proof.
  induction outs as [|o outs IH]; intros r; cbn.
  - rewrite app_nil_r. repeat split.
  - destruct (IH (SimulationResult.add_lot r o))
      as (H1 & H2 & H3 & H4 & H5 & H6 & H7 & H8).
    cbn in *. rewrite H1, H2, H3, H4, H5, H6, H7, H8, <- app_assoc.
    repeat split.
Qed.

Lemma sell_lots_each (lots : list (GradualLot.t F)) :
  forall i r,
    sell_lots c quantity i lots r
    = (outs <- sell_each c quantity i lots ;;
       Ok (fold_left SimulationResult.add_lot outs r)).
Proof.
  induction lots as [|l lots IH]; intros i r; cbn; [reflexivity|].
  destruct (sell_lot c quantity i l) as [lot|e]; cbn; [|reflexivity].
  rewrite IH. now destruct (sell_each c quantity (S i) lots).
Qed.

Lemma sell_hit_lots_each (lots : list (GradualLot.t F)) :
  forall i r sold,
    sell_hit_lots c quantity i lots r sold
    = (outs <- sell_each c quantity i lots ;;
       Ok (fold_left SimulationResult.add_lot outs r,
           fold_left fadd (map GradualLot.sell_percent lots) sold)).
Proof.
  induction lots as [|l lots IH]; intros i r sold; cbn; [reflexivity|].
  destruct (sell_lot c quantity i l) as [lot|e]; cbn; [|reflexivity].
  rewrite IH. now destruct (sell_each c quantity (S i) lots).
Qed.

Lemma sell_each_mirror (lots : list (GradualLot.t F)) :
  forall i outs,
    sell_each c quantity i lots = Ok outs ->
    map LotResult.lot_index outs
    = map Z.of_nat (seq i (List.length lots)) /\
    map LotResult.sell_percent outs = map GradualLot.sell_percent lots /\
    map LotResult.tp_percent outs = map GradualLot.tp_percent lots.
Proof.
  induction lots as [|l lots IH]; cbn; intros i outs Ho.
  - injection Ho as <-. repeat split.
  - exc_inv. destruct (IH _ _ Ha0) as (H1 & H2 & H3).
    unfold sell_lot in Ha. exc_inv. cbn. now rewrite H1, H2, H3.
Qed.

Lemma sell_each_firstn (lots : list (GradualLot.t F)) :
  forall i outs k,
    sell_each c quantity i lots = Ok outs ->
    sell_each c quantity i (firstn k lots) = Ok (firstn k outs).
Proof.
  induction lots as [|l lots IH]; cbn; intros i outs k Ho.
  - injection Ho as <-. now destruct k.
  - exc_inv. destruct k as [|k]; cbn; [reflexivity|].
    rewrite Ha. cbn. now rewrite (IH _ _ k Ha0).
Qed.

(** What the tail of [simulate_gradual_sell] and [simulate_partial_exit]
    leaves untouched. *)
Lemma stop_loss_leg_keeps (r r' : SimulationResult.t F) :
  stop_loss_leg c quantity r = Ok r' ->
  r' = SimulationResult.set_sl r (sl_loss_of c quantity)
         (fquot (sl_loss_of c quantity) (total_cost c quantity) * fhundred).
Proof. unfold stop_loss_leg. intros Hr. now exc_inv. Qed.

Lemma risk_reward_keeps (net : F) (r r' : SimulationResult.t F) :
  risk_reward net r = Ok r' ->
  exists v, r' = SimulationResult.set_risk_reward_ratio r v.
Proof.
  destruct r as [sc cf qt tc ls gp fe np rp [sl|] sr rr];
    unfold risk_reward; cbn.
  - destruct (truthy sl && fltb fzero (fabs sl)); intros Hr; exc_inv;
      eexists; reflexivity.
  - intros Hr. exc_inv. eexists. reflexivity.
Qed.

(** X1 — [simulate_gradual_sell] returns one lot per configured stage, in
    order: lot [i] has index [i] and the stage's [sell_percent] and
    [tp_percent]. *)
Theorem gradual_lots_mirror_stages (r : SimulationResult.t F) :
  simulate_gradual_sell c quantity = Ok r ->
  map LotResult.lot_index (SimulationResult.lot_results r)
  = map Z.of_nat (seq 0 (List.length (StrategyConfig.gradual_lots c))) /\
  map LotResult.sell_percent (SimulationResult.lot_results r)
  = map GradualLot.sell_percent (StrategyConfig.gradual_lots c) /\
  map LotResult.tp_percent (SimulationResult.lot_results r)
  = map GradualLot.tp_percent (StrategyConfig.gradual_lots c).
Proof.
  unfold simulate_gradual_sell.
  destruct (StrategyConfig.gradual_lots c) as [|l lots] eqn:Hl.
  - intros [= <-]. repeat split.
  - intros Hr. exc_inv. rewrite sell_lots_each in Ha. exc_inv.
    apply risk_reward_keeps in Hr. destruct Hr as (v & ->).
    apply stop_loss_leg_keeps in Ha1. subst a1.
    destruct (add_lots_fields a0
                (SimulationResult.new "Venda Gradual" c quantity
                   (total_cost c quantity))) as (Hlots & _).
    cbn [SimulationResult.lot_results SimulationResult.set_sl
         SimulationResult.set_risk_reward_ratio
         SimulationResult.set_total_net_return_pct].
    rewrite Hlots. cbn [SimulationResult.new SimulationResult.lot_results app].
    eapply sell_each_mirror; eassumption.
Qed.

Lemma partial_exit_inv (lots_hit : Z) (r : SimulationResult.t F) :
  StrategyConfig.gradual_lots c <> [] ->
  simulate_partial_exit c quantity lots_hit = Ok r ->
  exists outs scenario v,
    sell_each c quantity 0
      (firstn (stages_hit c lots_hit) (StrategyConfig.gradual_lots c))
    = Ok outs /\
    r = SimulationResult.set_sl
          (SimulationResult.set_total_net_return_pct
             (fold_left SimulationResult.add_lot
                (outs ++ if remaining_pct_of c lots_hit >? f1e_3
                         then [closing_lot c quantity lots_hit] else [])
                (SimulationResult.new scenario c quantity
                   (total_cost c quantity)))
             v)
          (sl_loss_of c quantity)
          (fquot (sl_loss_of c quantity) (total_cost c quantity) * fhundred)
    /\
    v = fquot
          (SimulationResult.total_net_profit
             (fold_left SimulationResult.add_lot
                (outs ++ if remaining_pct_of c lots_hit >? f1e_3
                         then [closing_lot c quantity lots_hit] else [])
                (SimulationResult.new scenario c quantity
                   (total_cost c quantity))))
          (total_cost c quantity) * fhundred /\
    feqb (total_cost c quantity) fzero = false /\
    ((remaining_pct_of c lots_hit >? f1e_3) = true ->
     feqb (total_cost c quantity * remaining_pct_of c lots_hit) fzero = false).
Proof.
  intros Hne. unfold simulate_partial_exit.
  destruct (StrategyConfig.gradual_lots c) as [|l lots] eqn:Hl;
    [congruence|].
  rewrite <- Hl. rewrite sell_hit_lots_each. intros Hr.
  apply bind_Ok_inv in Hr. destruct Hr as ([r1 sold] & Hloop & Hr).
  apply bind_Ok_inv in Hloop. destruct Hloop as (outs & Houts & Hloop).
  injection Hloop as <- <-. cbn beta iota in Hr.
  fold (stages_hit c lots_hit) in Houts, Hr.
  fold (remaining_pct_of c lots_hit) in Hr.
  apply bind_Ok_inv in Hr. destruct Hr as (r2 & Hclose & Hr).
  apply bind_Ok_inv in Hr. destruct Hr as (q & Hq & Hr).
  apply stop_loss_leg_keeps in Hr. subst r.
  apply pydiv_Ok_inv in Hq. destruct Hq as (Htc & ->).
  destruct (fltb f1e_3 (remaining_pct_of c lots_hit)).
  - apply bind_Ok_inv in Hclose. destruct Hclose as (q' & Hq' & Hclose).
    apply pydiv_Ok_inv in Hq'. destruct Hq' as (Hrc & ->).
    injection Hclose as <-.
    exists outs. eexists _, _. split; [exact Houts|].
    rewrite !fold_left_app.
    split; [reflexivity|]. split; [reflexivity|].
    split; [exact Htc | intros _; exact Hrc].
  - injection Hclose as <-.
    exists outs. eexists _, _. split; [exact Houts|].
    rewrite !fold_left_app.
    split; [reflexivity|]. split; [reflexivity|].
    split; [exact Htc | discriminate].
Qed.

Lemma gradual_sell_inv (r : SimulationResult.t F) :
  StrategyConfig.gradual_lots c <> [] ->
  simulate_gradual_sell c quantity = Ok r ->
  exists outs v w,
    sell_each c quantity 0 (StrategyConfig.gradual_lots c) = Ok outs /\
    r = SimulationResult.set_risk_reward_ratio
          (SimulationResult.set_sl
             (SimulationResult.set_total_net_return_pct
                (fold_left SimulationResult.add_lot outs
                   (SimulationResult.new "Venda Gradual" c quantity
                      (total_cost c quantity)))
                v)
             (sl_loss_of c quantity)
             (fquot (sl_loss_of c quantity) (total_cost c quantity)
              * fhundred))
          w.
Proof.
  intros Hne. unfold simulate_gradual_sell.
  destruct (StrategyConfig.gradual_lots c) as [|l lots] eqn:Hl;
    [congruence|].
  rewrite sell_lots_each. intros Hr.
  apply bind_Ok_inv in Hr. destruct Hr as (r1 & Hloop & Hr).
  apply bind_Ok_inv in Hloop. destruct Hloop as (outs & Houts & Hloop).
  injection Hloop as <-.
  apply bind_Ok_inv in Hr. destruct Hr as (q & Hq & Hr).
  apply bind_Ok_inv in Hr. destruct Hr as (r2 & Hsl & Hr).
  apply stop_loss_leg_keeps in Hsl. subst r2.
  apply risk_reward_keeps in Hr. destruct Hr as (w & ->).
  exists outs. eexists _, _. split; [exact Houts | reflexivity].
Qed.

(** X2 — With at least one stage configured, [simulate_partial_exit]
    returns the first [min(lots_hit, number of stages)] lots that
    [simulate_gradual_sell] computes (none when [lots_hit] is zero or
    negative), followed by one closing stop-loss lot exactly when the unsold
    share [(100 - sold_pct) / 100] exceeds 0.001.  The closing lot carries
    [lots_hit] itself as index and [-sl_percent] as [tp_percent]. *)
Theorem partial_exit_lots (lots_hit : Z) (r : SimulationResult.t F) :
  StrategyConfig.gradual_lots c <> [] ->
  simulate_partial_exit c quantity lots_hit = Ok r ->
  exists outs,
    SimulationResult.lot_results r
    = outs ++ (if remaining_pct_of c lots_hit >? f1e_3
               then [closing_lot c quantity lots_hit] else []) /\
    List.length outs
    = Z.to_nat (Z.min lots_hit
                  (Z.of_nat (List.length (StrategyConfig.gradual_lots c)))) /\
    (forall g,
        simulate_gradual_sell c quantity = Ok g ->
        outs = firstn (List.length outs) (SimulationResult.lot_results g)) /\
    LotResult.lot_index (closing_lot c quantity lots_hit) = lots_hit /\
    LotResult.tp_percent (closing_lot c quantity lots_hit)
    = - StrategyConfig.sl_percent c.
Proof.
  intros Hne Hr.
  destruct (partial_exit_inv _ _ Hne Hr)
    as (outs & sc & v & Houts & -> & _).
  exists outs. cbn [SimulationResult.lot_results SimulationResult.set_sl
                    SimulationResult.set_total_net_return_pct].
  destruct (add_lots_fields
              (outs ++ if remaining_pct_of c lots_hit >? f1e_3
                       then [closing_lot c quantity lots_hit] else [])
              (SimulationResult.new sc c quantity (total_cost c quantity)))
    as (Hlots & _).
  rewrite Hlots. cbn [SimulationResult.new SimulationResult.lot_results app].
  assert (Hlen : List.length outs = stages_hit c lots_hit).
  { destruct (sell_each_mirror _ _ _ Houts) as (_ & Hm & _).
    apply (f_equal (@List.length _)) in Hm. rewrite !length_map in Hm.
    rewrite Hm. apply firstn_length_le. unfold stages_hit. lia. }
  split; [reflexivity|]. split; [exact Hlen|].
  split; [|split; reflexivity].
  intros g Hg.
  destruct (gradual_sell_inv _ Hne Hg) as (all & v' & w & Hall & ->).
  cbn [SimulationResult.lot_results SimulationResult.set_sl
       SimulationResult.set_total_net_return_pct
       SimulationResult.set_risk_reward_ratio].
  destruct (add_lots_fields all
              (SimulationResult.new "Venda Gradual" c quantity
                 (total_cost c quantity))) as (Hg' & _).
  rewrite Hg'. cbn [SimulationResult.new SimulationResult.lot_results app].
  rewrite Hlen.
  pose proof (sell_each_firstn _ _ _ (stages_hit c lots_hit) Hall) as Hf.
  rewrite Houts in Hf. now injection Hf.
Qed.

(** X3 — [simulate_partial_exit] never computes the risk/reward ratio: with
    at least one stage configured every result it returns has the pure
    stop-loss figures set and [risk_reward_ratio] still 0. *)
Theorem partial_exit_leaves_ratio_unset (lots_hit : Z)
    (r : SimulationResult.t F) :
  StrategyConfig.gradual_lots c <> [] ->
  simulate_partial_exit c quantity lots_hit = Ok r ->
  SimulationResult.risk_reward_ratio r = fzero /\
  SimulationResult.sl_loss r = Some (sl_loss_of c quantity) /\
  SimulationResult.sl_return_pct r
  = Some (fquot (sl_loss_of c quantity)
            (StrategyConfig.entry_price c * quantity) * fhundred).
Proof.
  intros Hne Hr.
  destruct (partial_exit_inv _ _ Hne Hr)
    as (outs & sc & v & Houts & -> & _).
  cbn [SimulationResult.risk_reward_ratio SimulationResult.sl_loss
       SimulationResult.sl_return_pct SimulationResult.set_sl
       SimulationResult.set_total_net_return_pct].
  split; [|split; reflexivity].
  match goal with
  | |- SimulationResult.risk_reward_ratio (fold_left _ ?l ?r0) = _ =>
      destruct (add_lots_fields l r0) as (_ & _ & _ & _ & _ & _ & _ & ->)
  end.
  reflexivity.
Qed.

(** X4 — In the results of [simulate_gradual_sell] and
    [simulate_partial_exit] the three totals are the left-to-right sums,
    from 0, of the per-lot gross profits, fees and net profits (the closing
    stop-loss lot included). *)
Theorem totals_are_lot_sums (r : SimulationResult.t F) :
  simulate_gradual_sell c quantity = Ok r
  \/ (exists lots_hit, simulate_partial_exit c quantity lots_hit = Ok r) ->
  SimulationResult.total_gross_profit r
  = pysum (map LotResult.gross_profit (SimulationResult.lot_results r)) /\
  SimulationResult.total_fees r
  = pysum (map LotResult.fee (SimulationResult.lot_results r)) /\
  SimulationResult.total_net_profit r
  = pysum (map LotResult.net_profit (SimulationResult.lot_results r)).
Proof.
  assert (Hsums : forall outs sc,
    let r0 := fold_left SimulationResult.add_lot outs
                (SimulationResult.new sc c quantity (total_cost c quantity)) in
    SimulationResult.total_gross_profit r0
    = pysum (map LotResult.gross_profit (SimulationResult.lot_results r0)) /\
    SimulationResult.total_fees r0
    = pysum (map LotResult.fee (SimulationResult.lot_results r0)) /\
    SimulationResult.total_net_profit r0
    = pysum (map LotResult.net_profit (SimulationResult.lot_results r0))).
  { intros outs sc r0. subst r0.
    destruct (add_lots_fields outs
                (SimulationResult.new sc c quantity (total_cost c quantity)))
      as (-> & -> & -> & -> & _).
    repeat split. }
  destruct (StrategyConfig.gradual_lots c) as [|l lots] eqn:Hl.
  - intros [Hr | (n & Hr)].
    + unfold simulate_gradual_sell in Hr. rewrite Hl in Hr.
      injection Hr as <-. repeat split.
    + unfold simulate_partial_exit in Hr. rewrite Hl in Hr.
      injection Hr as <-. repeat split.
  - assert (Hne : StrategyConfig.gradual_lots c <> []) by congruence.
    intros [Hr | (n & Hr)].
    + destruct (gradual_sell_inv _ Hne Hr) as (outs & v & w & _ & ->).
      apply Hsums.
    + destruct (partial_exit_inv _ _ Hne Hr)
        as (outs & sc & v & _ & -> & _).
      apply Hsums.
Qed.

End LotFacts.

(** ** Allocated costs *)

Lemma sell_each_costs {F : Type} `{PyFloat F} (c : StrategyConfig.t F)
    (quantity : F) (lots : list (GradualLot.t F)) :
  forall i outs,
    sell_each c quantity i lots = Ok outs ->
    map LotResult.cost outs
    = map (fun l => fmul (total_cost c quantity)
                      (fquot (GradualLot.sell_percent l) fhundred)) lots /\
    Forall (fun l => feqb (fmul (total_cost c quantity)
                             (fquot (GradualLot.sell_percent l) fhundred))
                       fzero = false) lots.
Proof.
  induction lots as [|l lots IH]; cbn [sell_each]; intros i outs Ho.
  - injection Ho as <-. split; constructor.
  - apply bind_Ok_inv in Ho. destruct Ho as (lot & Hlot & Ho).
    apply bind_Ok_inv in Ho. destruct Ho as (rest & Hrest & Ho).
    injection Ho as <-. destruct (IH _ _ Hrest) as (Hc & Hnz).
    unfold sell_lot in Hlot.
    apply bind_Ok_inv in Hlot. destruct Hlot as (q & Hq & Hlot).
    apply pydiv_Ok_inv in Hq. destruct Hq as (Hz & _).
    injection Hlot as <-. cbn. rewrite Hc. split; [reflexivity|].
    constructor; [exact Hz | exact Hnz].
Qed.

Lemma gradual_sell_costs {F : Type} `{PyFloat F} (c : StrategyConfig.t F)
    (quantity : F) (r : SimulationResult.t F) :
  simulate_gradual_sell c quantity = Ok r ->
  map LotResult.cost (SimulationResult.lot_results r)
  = map (fun l => fmul (total_cost c quantity)
                    (fquot (GradualLot.sell_percent l) fhundred))
      (StrategyConfig.gradual_lots c) /\
  Forall (fun l => feqb (fmul (total_cost c quantity)
                           (fquot (GradualLot.sell_percent l) fhundred))
                     fzero = false) (StrategyConfig.gradual_lots c).
Proof.
  intros Hr.
  destruct (StrategyConfig.gradual_lots c) as [|l lots] eqn:Hl.
  - unfold simulate_gradual_sell in Hr. rewrite Hl in Hr.
    injection Hr as <-. split; constructor.
  - assert (Hne : StrategyConfig.gradual_lots c <> []) by congruence.
    destruct (gradual_sell_inv _ _ _ Hne Hr) as (outs & v & w & Ho & ->).
    rewrite Hl in Ho.
    destruct (add_lots_fields outs
                (SimulationResult.new "Venda Gradual" c quantity
                   (total_cost c quantity))) as (Hlots & _).
    cbn [app SimulationResult.lot_results SimulationResult.new] in Hlots.
    cbn [SimulationResult.lot_results SimulationResult.set_sl
           SimulationResult.set_risk_reward_ratio
           SimulationResult.set_total_net_return_pct].
    rewrite Hlots. exact (sell_each_costs c quantity _ _ _ Ho).
Qed.


Section AllocationWitness.

Import Examples.


End AllocationWitness.

(** ** The scenario engine in binary64 *)

Section Binary64Engine.

Local Open Scope py_scope.
Variable c : StrategyConfig.t float.
Variable quantity : float.

Lemma whole_share : (fhundred /. fhundred : float) = fone.
Proof. reflexivity. Qed.

Lemma nothing_sold : ((fhundred - fzero) /. fhundred : float) = fone.
Proof. reflexivity. Qed.

Lemma times_one (x : float) : x * fone = x.
Proof. exact (mul_one x). Qed.

Lemma plus_from_zero (x : float) : (x =? fzero) = false -> fzero + x = x.
Proof. exact (zero_add x). Qed.

Lemma single_sell_nonzero_cost (s : SimulationResult.t float) :
  simulate_single_sell c quantity = Ok s ->
  (total_cost c quantity =? fzero) = false.
Proof.
  unfold simulate_single_sell. intros Hs.
  apply bind_Ok_inv in Hs. destruct Hs as (q & Hq & _).
  now apply pydiv_Ok_inv in Hq.
Qed.

(** X6 — A single stage selling 100% at the configuration's own
    [tp_percent] makes [simulate_gradual_sell] agree with
    [simulate_single_sell] in binary64: whenever the latter returns, so does
    the former, with the same lot and the same stop-loss figures; its totals
    are the single-sell figures added to 0.0, so that, unless the net profit
    is zero, net profit, return percent and risk/reward ratio are equal. *)
Theorem single_stage_matches_single_sell (l : GradualLot.t float)
    (s : SimulationResult.t float) :
  StrategyConfig.gradual_lots c = [l] ->
  GradualLot.sell_percent l = fhundred ->
  GradualLot.tp_percent l = StrategyConfig.tp_percent c ->
  simulate_single_sell c quantity = Ok s ->
  exists g,
    simulate_gradual_sell c quantity = Ok g /\
    SimulationResult.lot_results g = SimulationResult.lot_results s /\
    SimulationResult.total_gross_profit g
    = fzero + SimulationResult.total_gross_profit s /\
    SimulationResult.total_fees g = fzero + SimulationResult.total_fees s /\
    SimulationResult.total_net_profit g
    = fzero + SimulationResult.total_net_profit s /\
    SimulationResult.sl_loss g = SimulationResult.sl_loss s /\
    SimulationResult.sl_return_pct g = SimulationResult.sl_return_pct s /\
    ((SimulationResult.total_net_profit s =? fzero) = false ->
     SimulationResult.total_net_profit g
     = SimulationResult.total_net_profit s /\
     SimulationResult.total_net_return_pct g
     = SimulationResult.total_net_return_pct s /\
     SimulationResult.risk_reward_ratio g
     = SimulationResult.risk_reward_ratio s).
Proof.
  intros Hl Hsp Htp Hs.
  pose proof (single_sell_nonzero_cost s Hs) as Htc.
  unfold simulate_single_sell in Hs.
  rewrite !(pydiv_nonzero _ _ Htc) in Hs. cbn [bind] in Hs.
  unfold stop_loss_leg in Hs.
  rewrite (pydiv_nonzero _ _ Htc) in Hs. cbn [bind] in Hs.
  unfold simulate_gradual_sell. rewrite Hl. cbn [sell_lots].
  unfold sell_lot. rewrite Hsp, Htp, whole_share, !times_one.
  rewrite (pydiv_nonzero _ _ Htc). cbn [bind].
  cbn [SimulationResult.add_lot SimulationResult.new
       SimulationResult.total_net_profit LotResult.net_profit].
  rewrite (pydiv_nonzero _ _ Htc). cbn [bind].
  unfold stop_loss_leg. rewrite (pydiv_nonzero _ _ Htc). cbn [bind].
  unfold risk_reward in Hs |- *.
  cbn [SimulationResult.sl_loss SimulationResult.set_sl
       SimulationResult.set_total_net_return_pct] in Hs |- *.
  destruct (truthy (sl_loss_of c quantity)
            && (fabs (sl_loss_of c quantity) >? fzero)) eqn:Ht.
  - assert (Hsl : (sl_loss_of c quantity =? fzero) = false).
    { apply andb_true_iff in Ht. destruct Ht as (Ht & _).
      unfold truthy in Ht. now apply negb_true_iff in Ht. }
    rewrite (pydiv_nonzero _ _ Hsl) in Hs. rewrite (pydiv_nonzero _ _ Hsl).
    cbn [bind] in Hs |- *.
    injection Hs as <-. eexists. split; [reflexivity|].
    cbn. repeat split.
    all: try (rewrite plus_from_zero by assumption; reflexivity).
  - injection Hs as <-. eexists. split; [reflexivity|].
    cbn. repeat split.
    all: try (rewrite plus_from_zero by assumption; reflexivity).
Qed.

(** X8 — [simulate_partial_exit] with [lots_hit] zero or negative is the
    pure stop-loss in binary64: its only lot is the closing lot, for 100% of
    the position, the whole quantity and the whole cost, and its net profit
    is the [sl_loss] the result reports; the total net profit is that figure
    added to 0.0, so that, unless it is zero, total net profit and return
    percent equal [sl_loss] and [sl_return_pct]. *)
Theorem partial_exit_without_hits (lots_hit : Z)
    (r : SimulationResult.t float) :
  StrategyConfig.gradual_lots c <> [] ->
  (lots_hit <= 0)%Z ->
  simulate_partial_exit c quantity lots_hit = Ok r ->
  exists lot sl slr,
    SimulationResult.lot_results r = [lot] /\
    LotResult.lot_index lot = lots_hit /\
    LotResult.sell_percent lot = fhundred /\
    LotResult.lot_quantity lot = quantity /\
    LotResult.cost lot = total_cost c quantity /\
    LotResult.net_profit lot = sl /\
    SimulationResult.sl_loss r = Some sl /\
    SimulationResult.sl_return_pct r = Some slr /\
    SimulationResult.total_net_profit r = fzero + sl /\
    ((sl =? fzero) = false ->
     SimulationResult.total_net_profit r = sl /\
     SimulationResult.total_net_return_pct r = slr).
Proof.
  intros Hne Hhit Hr.
  destruct (partial_exit_inv _ _ _ _ Hne Hr)
    as (outs & sc & v & Houts & -> & -> & _).
  assert (Hn : stages_hit c lots_hit = 0%nat).
  { unfold stages_hit. rewrite Z.min_l by lia. destruct lots_hit; lia. }
  assert (Hrem : remaining_pct_of c lots_hit = fone).
  { unfold remaining_pct_of. rewrite Hn. exact nothing_sold. }
  rewrite Hn in Houts. cbn in Houts. injection Houts as <-.
  rewrite Hrem.
  replace (fone >? f1e_3) with true by reflexivity.
  assert (Hlot : closing_lot c quantity lots_hit
                 = LotResult.mk lots_hit fhundred
                     (- StrategyConfig.sl_percent c) quantity
                     (StrategyConfig.entry_price c
                      * (fone - StrategyConfig.sl_percent c /. fhundred))
                     (quantity
                      * (StrategyConfig.entry_price c
                         * (fone - StrategyConfig.sl_percent c /. fhundred)))
                     (total_cost c quantity)
                     (quantity
                      * (StrategyConfig.entry_price c
                         * (fone - StrategyConfig.sl_percent c /. fhundred))
                      - total_cost c quantity)
                     (quantity
                      * (StrategyConfig.entry_price c
                         * (fone - StrategyConfig.sl_percent c /. fhundred))
                      * (StrategyConfig.fee_percent c /. fhundred))
                     (sl_loss_of c quantity)
                     (sl_loss_of c quantity /. total_cost c quantity
                      * fhundred)).
  { unfold closing_lot. rewrite Hrem, !times_one. reflexivity. }
  rewrite Hlot. eexists.
  exists (sl_loss_of c quantity),
    (sl_loss_of c quantity /. total_cost c quantity * fhundred).
  cbn. do 9 (split; [reflexivity|]).
  intros Hz. split; rewrite zero_add by exact Hz; reflexivity.
Qed.

End Binary64Engine.

(** ** The walker: shape of the log *)

Section LogFacts.

Context {F : Type} `{PyFloatLaws F}.
Local Open Scope py_scope.
Variable c : StrategyConfig.t F.
Variable quantity : F.

Local Abbreviation step_effect := (step_effect quantity).

(** Once the loop is left by [break], the rest of the prices is not read. *)
Lemma walk_break_app (pre more : list F) :
  forall st tick st',
    walk c quantity st tick pre = Ok (st', Break) ->
    walk c quantity st tick (pre ++ more) = Ok (st', Break).
Proof.
  induction pre as [|p pre IH]; cbn; intros st tick st' Hw; [discriminate|].
  apply bind_Ok_inv in Hw. destruct Hw as ([st1 k] & Hstep & Hw).
  rewrite Hstep. cbn. destruct k; [now apply IH | exact Hw].
Qed.

(** An iteration that lets the loop go on leaves more than the threshold. *)
Lemma step_continue_open (st st' : Walk.t F) (tick : nat) (price : F) :
  step c quantity st tick price = Ok (st', Continue) ->
  (Walk.remaining_qty st' <=? f1e_4) = false.
Proof.
  unfold step. intros Hs. apply bind_Ok_inv in Hs.
  destruct Hs as (ch & _ & Hs).
  destruct (sl_triggered c st ch).
  - apply bind_Ok_inv in Hs. destruct Hs as (? & _ & Hs). discriminate.
  - destruct (take_profit_check c quantity st tick price ch) as [st1 [|]];
      [|discriminate].
    destruct (fleb (Walk.remaining_qty st1) f1e_4) eqn:E; [discriminate|].
    now injection Hs as <-.
Qed.

Lemma walk_continue_open (prices : list F) :
  prices <> [] ->
  forall st tick st',
    walk c quantity st tick prices = Ok (st', Continue) ->
    (Walk.remaining_qty st' <=? f1e_4) = false.
Proof.
  induction prices as [|p prices IH]; [congruence|]. intros _ st tick st' Hw.
  cbn in Hw. apply bind_Ok_inv in Hw. destruct Hw as ([st1 k] & Hstep & Hw).
  destruct k; [|discriminate].
  destruct prices as [|p' prices].
  - cbn in Hw. injection Hw as <-. eapply step_continue_open; eauto.
  - eapply IH; [discriminate | exact Hw].
Qed.

Lemma summary_inv (st : Walk.t F) (s : Summary.t F) :
  summary c quantity st = Ok s ->
  Summary.status s
  = if Walk.remaining_qty st <=? f1e_4 then COMPLETED else OPEN.
Proof.
  unfold summary. intros Hs.
  apply bind_Ok_inv in Hs. destruct Hs as (? & _ & Hs).
  apply bind_Ok_inv in Hs. destruct Hs as (? & _ & Hs).
  now injection Hs as <-.
Qed.

(** X9 — A log that ends COMPLETED is final: for a non-empty price
    sequence whose SUMMARY reports COMPLETED, appending any further prices
    leaves the whole log unchanged. *)
Theorem completed_log_is_final (prices more : list F)
    (log : list (LogEntry F)) (s : Summary.t F) :
  prices <> [] ->
  simulate_price_series c quantity prices = Ok (log ++ [SUMMARY s]) ->
  Summary.status s = COMPLETED ->
  simulate_price_series c quantity (prices ++ more)
  = Ok (log ++ [SUMMARY s]).
Proof.
  intros Hne Hsim Hst. unfold simulate_price_series in *.
  apply bind_Ok_inv in Hsim. destruct Hsim as ([st k] & Hw & Hsim).
  apply bind_Ok_inv in Hsim. destruct Hsim as (s0 & Hs0 & Hsim).
  injection Hsim as Hsim. apply app_inj_tail in Hsim.
  destruct Hsim as (Hlog & Hs). injection Hs as ->.
  destruct k.
  - apply (walk_continue_open _ Hne) in Hw.
    rewrite (summary_inv _ _ Hs0), Hw in Hst. discriminate.
  - rewrite (walk_break_app _ more _ _ _ Hw). cbn. rewrite Hs0. cbn.
    now rewrite Hlog.
Qed.

(** What one iteration does to the log and to the stage flags. *)
Lemma step_log (st st' : Walk.t F) (tick : nat) (price : F) (k : control) :
  step c quantity st tick price = Ok (st', k) ->
  st' = st
  \/ (exists ev,
         Walk.events st' = Walk.events st ++ [Trade ev] /\
         Event.tick ev = tick /\ k = Break /\
         Walk.lots st' = Walk.lots st /\
         Walk.remaining_qty st' = fzero /\
         (Event.event ev = STOP_LOSS
          \/ (Event.event ev = TAKE_PROFIT /\ Walk.lots st = [])))
  \/ (exists ev n hit,
         Walk.events st' = Walk.events st ++ [Trade ev] /\
         Event.tick ev = tick /\
         Event.event ev = TP_LOT (n + 1) /\
         nth_error (Walk.lots st) n = Some hit /\
         Lot.executed hit = false /\
         nth_error (Walk.lots st') n = Some (Lot.set_executed hit) /\
         (forall j, j <> n ->
                    nth_error (Walk.lots st') j = nth_error (Walk.lots st) j)).
Proof.
  unfold step. intros Hs. apply bind_Ok_inv in Hs.
  destruct Hs as (ch & _ & Hs).
  destruct (sl_triggered c st ch).
  - apply bind_Ok_inv in Hs. destruct Hs as (st1 & Hsl & Hs).
    injection Hs as <- <-. unfold stop_loss in Hsl.
    apply bind_Ok_inv in Hsl. destruct Hsl as (q & _ & Hsl).
    apply bind_Ok_inv in Hsl. destruct Hsl as (q' & _ & Hsl).
    injection Hsl as <-. right. left. eexists. cbn.
    repeat split; eauto.
  - unfold take_profit_check in Hs.
    destruct (Walk.lots st) as [|l lots] eqn:Hl.
    + destruct (tp_triggered c st ch).
      * injection Hs as <- <-. right. left. eexists. cbn.
        repeat split; eauto.
      * left. destruct (fleb (Walk.remaining_qty st) f1e_4);
          now injection Hs as <-.
    + destruct (scan_lots ch 0 (l :: lots)) as [[[i hit] lots']|] eqn:E.
      * destruct (scan_lots_Some _ _ _ _ _ _ E)
          as (n & Hi & Hn & Hex & _ & _ & Hn' & Hoth).
        cbn in Hi. subst i. right. right.
        exists (Event.mk tick price (fround ch 2) (TP_LOT (n + 1))
                  (fround (quantity * (Lot.sell_pct hit /. fhundred)) 8)
                  (Lot.sell_pct hit) (Some (Lot.tp_pct hit))
                  (fround (quantity * (Lot.sell_pct hit /. fhundred) * price
                           - total_cost c quantity
                             * (Lot.sell_pct hit /. fhundred)) 2)
                  (fround (quantity * (Lot.sell_pct hit /. fhundred) * price
                           * (StrategyConfig.fee_percent c /. fhundred)) 2)
                  (fround (quantity * (Lot.sell_pct hit /. fhundred) * price
                           - total_cost c quantity
                             * (Lot.sell_pct hit /. fhundred)
                           - quantity * (Lot.sell_pct hit /. fhundred)
                             * price
                             * (StrategyConfig.fee_percent c /. fhundred))
                     2)), n, hit.
        unfold take_profit_lot in Hs.
        match type of Hs with
        | (if ?b then _ else _) = _ => destruct b
        end; injection Hs as <- <-; cbn; repeat split; auto.
      * left. destruct (fleb (Walk.remaining_qty st) f1e_4);
          now injection Hs as <-.
Qed.

Lemma trade_ticks_trades (evs : list (Event.t F)) :
  trade_ticks (map Trade evs) = map Event.tick evs.
Proof. induction evs as [|e evs IH]; cbn; [reflexivity | now f_equal]. Qed.

Lemma walk_ticks (prices : list F) :
  forall st tick st' k,
    walk c quantity st tick prices = Ok (st', k) ->
    exists evs,
      Walk.events st' = Walk.events st ++ map Trade evs /\
      StronglySorted lt (map Event.tick evs) /\
      Forall (fun ev => (tick <= Event.tick ev
                         < tick + List.length prices)%nat) evs.
Proof.
  induction prices as [|p prices IH]; cbn [walk]; intros st tick st' k Hw.
  - injection Hw as <- <-. exists []. rewrite app_nil_r.
    repeat split; constructor.
  - apply bind_Ok_inv in Hw. destruct Hw as ([st1 k1] & Hstep & Hw).
    assert (Hone : exists evs1,
               Walk.events st1 = Walk.events st ++ map Trade evs1 /\
               (evs1 = [] \/ exists ev, evs1 = [ev] /\ Event.tick ev = tick)).
    { destruct (step_log _ _ _ _ _ Hstep)
        as [-> | [(ev & He & Ht & _) | (ev & n & hit & He & Ht & _)]].
      - exists []. rewrite app_nil_r. auto.
      - exists [ev]. eauto.
      - exists [ev]. eauto. }
    destruct Hone as (evs1 & He1 & Hevs1).
    assert (Hrest : exists evs2,
               Walk.events st' = Walk.events st1 ++ map Trade evs2 /\
               StronglySorted lt (map Event.tick evs2) /\
               Forall (fun ev => (S tick <= Event.tick ev
                                  < S tick + List.length prices)%nat) evs2).
    { destruct k1.
      - exact (IH _ _ _ _ Hw).
      - injection Hw as <- <-. exists []. rewrite app_nil_r.
        repeat split; constructor. }
    destruct Hrest as (evs2 & He2 & Hsorted & Hrange).
    exists (evs1 ++ evs2). rewrite He2, He1, map_app, app_assoc.
    split; [reflexivity|].
    destruct Hevs1 as [-> | (ev & -> & Ht)]; cbn [app map List.length].
    + split; [exact Hsorted|].
      eapply Forall_impl; [|exact Hrange]. cbn. intros; lia.
    + split.
      * constructor; [exact Hsorted|].
        rewrite Forall_map. eapply Forall_impl; [|exact Hrange].
        cbn. intros; lia.
      * constructor; [lia|].
        eapply Forall_impl; [|exact Hrange]. cbn. intros; lia.
Qed.

(** X10 — The trades of a log carry strictly increasing tick numbers, all
    below the number of prices: a tick yields at most one trade, and trades
    are logged in tick order. *)
Theorem log_ticks_increase (prices : list F) (log : list (LogEntry F)) :
  simulate_price_series c quantity prices = Ok log ->
  StronglySorted lt (trade_ticks log) /\
  Forall (fun t => (t < List.length prices)%nat) (trade_ticks log).
Proof.
  unfold simulate_price_series. intros Hsim.
  apply bind_Ok_inv in Hsim. destruct Hsim as ([st k] & Hw & Hsim).
  apply bind_Ok_inv in Hsim. destruct Hsim as (s & _ & Hsim).
  injection Hsim as <-.
  destruct (walk_ticks _ _ _ _ _ Hw) as (evs & He & Hsorted & Hrange).
  cbn in He. rewrite He. unfold trade_ticks at 1 2.
  rewrite !flat_map_app. cbn [flat_map app].
  fold (trade_ticks (map Trade evs)). rewrite trade_ticks_trades, app_nil_r.
  split; [exact Hsorted|].
  rewrite Forall_map. eapply Forall_impl; [|exact Hrange].
  cbn. intros; lia.
Qed.

(** The events a walk appends: stage sales, then at most one liquidation,
    which leaves the loop with nothing held. *)
Lemma walk_shape (prices : list F) :
  forall st tick st' k,
    walk c quantity st tick prices = Ok (st', k) ->
    exists stages closing,
      Walk.events st' = Walk.events st ++ map Trade (stages ++ closing) /\
      Forall (fun ev => exists n, Event.event ev = TP_LOT n) stages /\
      (Walk.lots st = [] -> stages = []) /\
      (closing = []
       \/ exists ev,
           closing = [ev] /\ k = Break /\ Walk.remaining_qty st' = fzero /\
           (Event.event ev = STOP_LOSS
            \/ (Event.event ev = TAKE_PROFIT /\ Walk.lots st = []))).
Proof.
  induction prices as [|p prices IH]; cbn [walk]; intros st tick st' k Hw.
  - injection Hw as <- <-. exists [], []. cbn. rewrite app_nil_r. auto.
  - apply bind_Ok_inv in Hw. destruct Hw as ([st1 k1] & Hstep & Hw).
    destruct (step_log _ _ _ _ _ Hstep)
      as [-> | [(ev & He & _ & -> & _ & Hq & Hk)
               | (ev & n & hit & He & _ & Hk & Hn & _ & Hn' & _)]].
    + destruct k1; [exact (IH _ _ _ _ Hw)|].
      injection Hw as <- <-. exists [], []. cbn. rewrite app_nil_r. auto.
    + injection Hw as <- <-. exists [], [ev]. cbn.
      split; [exact He|]. split; [constructor|]. split; [reflexivity|].
      right. exists ev. auto.
    + assert (Hne : Walk.lots st <> [])
        by (intros E; rewrite E in Hn; destruct n; discriminate).
      assert (Hne1 : Walk.lots st1 <> [])
        by (intros E; rewrite E in Hn'; destruct n; discriminate).
      destruct k1.
      * destruct (IH _ _ _ _ Hw) as (stages & closing & He2 & Hst & _ & Hc).
        exists (ev :: stages), closing.
        split; [rewrite He2, He, <- app_assoc; reflexivity|].
        split; [constructor; eauto|]. split; [congruence|].
        destruct Hc as [-> | (ev' & -> & -> & Hq & [Hsl | (_ & Hnil)])];
          [now left | | contradiction].
        right. exists ev'. auto.
      * injection Hw as <- <-. exists [ev], []. cbn.
        split; [exact He|]. split; [constructor; eauto|].
        split; [congruence | now left].
Qed.

Lemma initial_lots_nil :
  Walk.lots (initial c quantity) = [] <-> StrategyConfig.gradual_lots c = [].
Proof.
  cbn. unfold initial_lots.
  destruct (StrategyConfig.gradual_lots c); cbn; split; congruence.
Qed.

(** X11 — The shape of every log: the stage sales (TP_LOT entries), then at
    most one liquidation, then the SUMMARY.  A liquidation is a STOP_LOSS,
    or a TAKE_PROFIT when no stage is configured (and then no TP_LOT entry
    precedes it); after a liquidation the SUMMARY reports COMPLETED. *)
Theorem liquidation_closes_log (prices : list F) (log : list (LogEntry F)) :
  simulate_price_series c quantity prices = Ok log ->
  exists stages closing s,
    log = map Trade stages ++ map Trade closing ++ [SUMMARY s] /\
    Forall (fun ev => exists n, Event.event ev = TP_LOT n) stages /\
    (StrategyConfig.gradual_lots c = [] -> stages = []) /\
    (closing = []
     \/ exists ev,
         closing = [ev] /\ Summary.status s = COMPLETED /\
         (Event.event ev = STOP_LOSS
          \/ (Event.event ev = TAKE_PROFIT /\
              StrategyConfig.gradual_lots c = []))).
Proof.
  unfold simulate_price_series. intros Hsim.
  apply bind_Ok_inv in Hsim. destruct Hsim as ([st k] & Hw & Hsim).
  apply bind_Ok_inv in Hsim. destruct Hsim as (s & Hs & Hsim).
  injection Hsim as <-.
  destruct (walk_shape _ _ _ _ _ Hw)
    as (stages & closing & He & Hst & Hnil & Hc).
  exists stages, closing, s. cbn in He.
  split; [rewrite He, map_app, <- app_assoc; reflexivity|].
  split; [exact Hst|].
  split; [intros E; apply Hnil, initial_lots_nil, E|].
  destruct Hc as [-> | (ev & -> & _ & Hq & Hk)]; [now left|].
  right. exists ev. split; [reflexivity|]. split.
  - rewrite (summary_inv _ _ Hs), Hq, zero_below_threshold. reflexivity.
  - destruct Hk as [Hk | (Hk & E)]; [now left|].
    right. split; [exact Hk | apply initial_lots_nil, E].
Qed.

Lemma tp_lot_numbers_app (l1 l2 : list (LogEntry F)) :
  tp_lot_numbers (l1 ++ l2) = tp_lot_numbers l1 ++ tp_lot_numbers l2.
Proof. apply flat_map_app. Qed.

(** The stages a walk sells: each was pending when the walk started, and
    none is sold twice. *)
Lemma walk_stages (prices : list F) :
  forall st tick st' k,
    walk c quantity st tick prices = Ok (st', k) ->
    exists ns,
      tp_lot_numbers (Walk.events st')
      = tp_lot_numbers (Walk.events st) ++ map (fun n => n + 1)%nat ns /\
      NoDup ns /\
      Forall (fun n => exists hit, nth_error (Walk.lots st) n = Some hit /\
                                   Lot.executed hit = false) ns.
Proof.
  induction prices as [|p prices IH]; cbn [walk]; intros st tick st' k Hw.
  - injection Hw as <- <-. exists []. cbn. rewrite app_nil_r.
    repeat split; constructor.
  - apply bind_Ok_inv in Hw. destruct Hw as ([st1 k1] & Hstep & Hw).
    assert (Hrest : exists ns,
               tp_lot_numbers (Walk.events st')
               = tp_lot_numbers (Walk.events st1)
                 ++ map (fun n => n + 1)%nat ns /\
               NoDup ns /\
               Forall (fun n => exists hit,
                           nth_error (Walk.lots st1) n = Some hit /\
                           Lot.executed hit = false) ns).
    { destruct k1; [exact (IH _ _ _ _ Hw)|].
      injection Hw as <- <-. exists []. cbn. rewrite app_nil_r.
      repeat split; constructor. }
    destruct Hrest as (ns & He2 & Hnd & Hpend).
    destruct (step_log _ _ _ _ _ Hstep)
      as [-> | [(ev & He & _ & _ & Hl & _ & Hk)
               | (ev & n & hit & He & _ & Hk & Hn & Hex & Hn' & Hoth)]].
    + exists ns. auto.
    + exists ns. rewrite He2, He, tp_lot_numbers_app, Hl in *.
      split; [|auto]. f_equal. cbn.
      destruct Hk as [-> | (-> & _)]; now rewrite app_nil_r.
    + assert (Hfresh : forall m, In m ns -> m <> n).
      { intros m Hin ->. rewrite Forall_forall in Hpend.
        destruct (Hpend _ Hin) as (hit' & Hm & Hex').
        rewrite Hn' in Hm. injection Hm as <-. discriminate. }
      exists (n :: ns). rewrite He2, He, tp_lot_numbers_app. cbn.
      rewrite Hk. cbn. rewrite <- app_assoc. split; [reflexivity|].
      split.
      * constructor; [|exact Hnd]. intros Hin. now apply (Hfresh n).
      * constructor; [eauto|]. rewrite Forall_forall in *.
        intros m Hin. destruct (Hpend _ Hin) as (hit' & Hm & Hex').
        exists hit'. rewrite <- (Hoth m (Hfresh m Hin)). auto.
Qed.

(** X12 — No stage is sold twice: the numbers k of the TP_LOT_k entries of
    a log are pairwise distinct and lie in 1 .. (number of configured
    stages), so a log has at most as many stage sales as stages. *)
Theorem no_stage_sold_twice (prices : list F) (log : list (LogEntry F)) :
  simulate_price_series c quantity prices = Ok log ->
  NoDup (tp_lot_numbers log) /\
  Forall (fun k => (1 <= k <= List.length (StrategyConfig.gradual_lots c))%nat)
    (tp_lot_numbers log) /\
  (List.length (tp_lot_numbers log)
   <= List.length (StrategyConfig.gradual_lots c))%nat.
Proof.
  unfold simulate_price_series. intros Hsim.
  apply bind_Ok_inv in Hsim. destruct Hsim as ([st k] & Hw & Hsim).
  apply bind_Ok_inv in Hsim. destruct Hsim as (s & _ & Hsim).
  injection Hsim as <-.
  destruct (walk_stages _ _ _ _ _ Hw) as (ns & He & Hnd & Hpend).
  cbn [initial Walk.events Walk.lots tp_lot_numbers flat_map app] in He.
  rewrite tp_lot_numbers_app, He. cbn. rewrite app_nil_r.
  assert (Hlt : Forall (fun n => n < List.length
                                       (StrategyConfig.gradual_lots c))%nat ns).
  { eapply Forall_impl; [|exact Hpend]. cbn. intros n (hit & Hn & _).
    assert (Hsome : nth_error (initial_lots c) n <> None) by congruence.
    apply nth_error_Some in Hsome. unfold initial_lots in Hsome.
    destruct (StrategyConfig.gradual_lots c); [cbn in Hsome; lia|].
    now rewrite length_map in Hsome. }
  split; [|split].
  - clear - Hnd. induction Hnd as [|n ns Hn _ IH]; cbn; constructor; auto.
    rewrite in_map_iff. intros (m & Hm & Hin).
    assert (m = n) by lia. subst m. contradiction.
  - rewrite Forall_map. eapply Forall_impl; [|exact Hlt]. cbn. intros; lia.
  - rewrite length_map.
    set (N := List.length (StrategyConfig.gradual_lots c)) in *.
    assert (Hincl : incl ns (seq 0 N)).
    { intros n Hin. apply in_seq. rewrite Forall_forall in Hlt.
      specialize (Hlt _ Hin). lia. }
    apply (NoDup_incl_length Hnd) in Hincl.
    now rewrite length_seq in Hincl.
Qed.

Lemma scan_lots_quiet (ch : F) (lots : list (Lot.t F)) :
  Forall (fun l => fleb (Lot.tp_pct l) ch = false) lots ->
  forall i, scan_lots ch i lots = None.
Proof.
  induction 1 as [|l lots Hl _ IH]; cbn; intros i; [reflexivity|].
  rewrite Hl, IH. now destruct (Lot.executed l).
Qed.

Lemma step_quiet (tick : nat) (price : F) :
  quiet c price ->
  step c quantity (initial c quantity) tick price
  = Ok (initial c quantity,
        if quantity <=? f1e_4 then Break else Continue).
Proof.
  intros (ch & Hch & Hsl & Htp). unfold step. rewrite Hch. cbn [bind].
  unfold sl_triggered. rewrite Hsl. cbn [andb].
  unfold take_profit_check, tp_triggered.
  cbn [initial Walk.lots Walk.remaining_qty]. unfold initial_lots.
  destruct (StrategyConfig.gradual_lots c) as [|g gs] eqn:Hg.
  - rewrite Htp. cbn. now destruct (fleb quantity f1e_4).
  - rewrite scan_lots_quiet.
    + cbn. now destruct (fleb quantity f1e_4).
    + rewrite Forall_map. exact Htp.
Qed.

Lemma walk_quiet (prices : list F) :
  Forall (quiet c) prices ->
  forall tick,
    exists k,
      walk c quantity (initial c quantity) tick prices
      = Ok (initial c quantity, k).
Proof.
  induction 1 as [|p prices Hp _ IH]; cbn [walk]; intros tick.
  - now exists Continue.
  - rewrite (step_quiet _ _ Hp). cbn [bind].
    destruct (fleb quantity f1e_4); [now exists Break | apply IH].
Qed.

(** X13 — No trade without a trigger: when at every tick the change stays
    above the stop-loss level and below every watched threshold, whatever
    the prices, the log is the SUMMARY alone, with nothing realized, no fee
    and the whole quantity remaining. *)
Theorem quiet_prices_log_no_trade (prices : list F) :
  Forall (quiet c) prices ->
  simulate_price_series c quantity prices
  = Ok [SUMMARY
          (Summary.mk (fround fzero 2) (fround fzero 2) (fround quantity 8)
             (if quantity >? fzero
              then fround ((quantity /. quantity) * fhundred) 1
              else fzero)
             (if StrategyConfig.entry_price c * quantity >? fzero
              then fround ((fzero
                            /. (StrategyConfig.entry_price c * quantity))
                           * fhundred) 2
              else fzero)
             (if quantity <=? f1e_4 then COMPLETED else OPEN))].
Proof.
  intros Hq. unfold simulate_price_series.
  destruct (walk_quiet _ Hq 0%nat) as (k & ->). cbn [bind].
  rewrite summary_returns. reflexivity.
Qed.

(** Without stages the loop goes on only while nothing has happened. *)
Lemma walk_unstaged_continue (prices : list F) :
  forall st tick st',
    Walk.lots st = [] ->
    walk c quantity st tick prices = Ok (st', Continue) ->
    st' = st.
Proof.
  induction prices as [|p prices IH]; cbn [walk]; intros st tick st' Hl Hw.
  - now injection Hw as <-.
  - apply bind_Ok_inv in Hw. destruct Hw as ([st1 k1] & Hstep & Hw).
    destruct k1; [|discriminate].
    destruct (step_log _ _ _ _ _ Hstep)
      as [-> | [(ev & _ & _ & Hk & _) | (ev & n & hit & _ & _ & _ & Hn & _)]].
    + exact (IH _ _ _ Hl Hw).
    + discriminate.
    + rewrite Hl in Hn. destruct n; discriminate.
Qed.

(** X14 — The single take-profit: with no stage configured, the first tick
    that is reached whose change is at or above [tp_percent] (and above the
    stop-loss level) sells the whole quantity at that tick's price; the
    profit is the sale value minus the total cost, the fee is charged on the
    sale value, and the log is that TAKE_PROFIT entry followed by a SUMMARY
    that reports COMPLETED with nothing remaining; later ticks are not
    read. *)
Theorem take_profit_ends_walk (pre post : list F) (price ch : F)
    (st : Walk.t F) :
  StrategyConfig.gradual_lots c = [] ->
  walk c quantity (initial c quantity) 0 pre = Ok (st, Continue) ->
  change_pct_of c price = Ok ch ->
  (ch <=? - StrategyConfig.sl_percent c) = false ->
  (ch >=? StrategyConfig.tp_percent c) = true ->
  (quantity >? f1e_4) = true ->
  let sell_value := quantity * price in
  let profit := sell_value - total_cost c quantity in
  let fee := sell_value * (StrategyConfig.fee_percent c /. fhundred) in
  let net := profit - fee in
  let ev :=
    Event.mk (List.length pre) price (fround ch 2) TAKE_PROFIT
      (fround quantity 8) fhundred None
      (fround profit 2) (fround fee 2) (fround net 2) in
  exists s,
    simulate_price_series c quantity (pre ++ price :: post)
    = Ok [Trade ev; SUMMARY s] /\
    Summary.total_realized_pnl s = fround (fzero + net) 2 /\
    Summary.total_fees s = fround (fzero + fee) 2 /\
    Summary.remaining_qty s = fround fzero 8 /\
    Summary.status s = COMPLETED.
Proof.
  intros Hg Hpre Hch Hsl Htp Hq sell_value profit fee net ev.
  assert (Hl : Walk.lots (initial c quantity) = [])
    by now apply initial_lots_nil.
  pose proof (walk_unstaged_continue _ _ _ _ Hl Hpre) as ->.
  unfold simulate_price_series.
  rewrite (walk_app c quantity pre _ _ _ _ Hpre). cbn [walk].
  unfold step. rewrite Hch. cbn [bind]. unfold sl_triggered.
  rewrite Hsl. cbn [andb]. unfold take_profit_check. rewrite Hl.
  unfold tp_triggered. cbn [initial Walk.remaining_qty].
  rewrite Htp, Hq. cbn [andb bind]. rewrite summary_returns.
  cbn [bind take_profit initial Walk.remaining_qty Walk.total_realized
         Walk.total_fees Walk.events Walk.lots app].
  eexists. split; [reflexivity|]. cbn.
  rewrite zero_below_threshold. repeat split.
Qed.

End LogFacts.

(** ** The configuration fields the walker reads *)

Section WalkerInputs.

Context {F : Type} `{PyFloat F}.
Local Open Scope py_scope.
Variables c c' : StrategyConfig.t F.
Variable quantity : F.

Hypothesis same_entry_price :
  StrategyConfig.entry_price c' = StrategyConfig.entry_price c.
Hypothesis same_sl_percent :
  StrategyConfig.sl_percent c' = StrategyConfig.sl_percent c.
Hypothesis same_fee_percent :
  StrategyConfig.fee_percent c' = StrategyConfig.fee_percent c.

Lemma step_same_inputs (st : Walk.t F) (tick : nat) (price : F) :
  (Walk.lots st = [] ->
   StrategyConfig.tp_percent c' = StrategyConfig.tp_percent c) ->
  step c' quantity st tick price = step c quantity st tick price.
Proof.
  intros Htp.
  unfold step, change_pct_of, sl_triggered, stop_loss, take_profit_check,
    take_profit_lot, tp_triggered, take_profit, total_cost.
  rewrite same_entry_price, same_sl_percent, same_fee_percent.
  destruct (Walk.lots st); [rewrite Htp by reflexivity|]; reflexivity.
Qed.

Lemma walk_same_inputs (prices : list F) :
  forall st tick,
    (Walk.lots st = [] ->
     StrategyConfig.tp_percent c' = StrategyConfig.tp_percent c) ->
    walk c' quantity st tick prices = walk c quantity st tick prices.
Proof.
  induction prices as [|p prices IH]; cbn [walk]; intros st tick Htp;
    [reflexivity|].
  rewrite (step_same_inputs _ _ _ Htp).
  destruct (step c quantity st tick p) as [[st1 k]|e] eqn:Hstep;
    [|reflexivity].
  cbn [bind]. destruct k; [|reflexivity]. apply IH.
  destruct (step_log _ _ _ _ _ _ _ Hstep)
    as [-> | [(ev & _ & _ & Hk & _)
             | (ev & n & hit & _ & _ & _ & _ & _ & Hn' & _)]].
  - exact Htp.
  - discriminate.
  - intros E. rewrite E in Hn'. destruct n; discriminate.
Qed.

End WalkerInputs.

(** X15 — What the walker reads of the configuration: the entry price, the
    stop-loss percent, the fee percent and the stages, and the single
    [tp_percent] only when no stage is configured.  Two configurations that
    agree on these give the same log, whatever their mode flag
    [gradual_enabled], token, exchange, interval and, with stages, their
    [tp_percent]. *)
Theorem walker_inputs {F : Type} `{PyFloat F} (c c' : StrategyConfig.t F)
    (quantity : F) (prices : list F) :
  StrategyConfig.entry_price c' = StrategyConfig.entry_price c ->
  StrategyConfig.sl_percent c' = StrategyConfig.sl_percent c ->
  StrategyConfig.fee_percent c' = StrategyConfig.fee_percent c ->
  StrategyConfig.gradual_lots c' = StrategyConfig.gradual_lots c ->
  (StrategyConfig.gradual_lots c = [] ->
   StrategyConfig.tp_percent c' = StrategyConfig.tp_percent c) ->
  simulate_price_series c' quantity prices
  = simulate_price_series c quantity prices.
Proof.
  intros Hentry Hsl Hfee Hlots Htp. unfold simulate_price_series.
  assert (Hi : initial c' quantity = initial c quantity).
  { unfold initial, initial_lots. now rewrite Hlots. }
  rewrite Hi, (walk_same_inputs c c' quantity Hentry Hsl Hfee).
  - destruct (walk c quantity (initial c quantity) 0 prices)
      as [[st k]|e]; [|reflexivity].
    cbn [bind]. unfold summary, total_cost. now rewrite Hentry.
  - intros E. apply Htp.
    revert E. cbn. unfold initial_lots.
    destruct (StrategyConfig.gradual_lots c); [reflexivity | discriminate].
Qed.

(** ** The payload's name *)

Lemma split_head_spec (sep : Ascii.ascii) (s : string) :
  ~ In sep (list_ascii_of_string (split_head sep s)) /\
  (s = split_head sep s
   \/ exists rest, s = String.append (split_head sep s) (String sep rest)).
Proof.
  induction s as [|a r (IHno & IHpre)]; cbn.
  - split; [tauto | now left].
  - destruct (Ascii.eqb a sep) eqn:E; cbn.
    + apply Ascii.eqb_eq in E. subst a.
      split; [tauto | right; now exists r].
    + apply Ascii.eqb_neq in E. split.
      * intros [Ha | Hin]; [congruence | contradiction].
      * destruct IHpre as [<- | (rest & Hr)]; [now left|].
        right. exists rest. now rewrite <- Hr.
Qed.

(** X16 — The name of the payload is the token up to its first slash (the
    whole token when it has none), followed by [ Swing ] and a label that
    follows the flag [gradual_enabled] alone: with the flag set and no stage
    configured the name says Gradual while the [config] object carries
    [take_profit_levels] and no [gradual_sell]. *)
Theorem payload_name {F : Type} `{PyFloat F} (c : StrategyConfig.t F) :
  exists head config,
    getitem (generate_api_payload c) "name"
    = Some (PStr (String.append head
                    (String.append " Swing "
                       (if StrategyConfig.gradual_enabled c
                        then "Gradual" else "Simple")))) /\
    ~ In "/"%char (list_ascii_of_string head) /\
    (StrategyConfig.token c = head
     \/ exists rest,
         StrategyConfig.token c
         = String.append head (String "/"%char rest)) /\
    getitem (generate_api_payload c) "config" = Some (PDict config) /\
    (StrategyConfig.gradual_lots c = [] ->
     getitem config "gradual_sell" = None /\
     exists levels, getitem config "take_profit_levels" = Some levels).
Proof.
  destruct (split_head_spec "/"%char (StrategyConfig.token c))
    as (Hno & Hpre).
  exists (split_head "/"%char (StrategyConfig.token c)).
  unfold generate_api_payload.
  destruct (StrategyConfig.gradual_enabled c);
    destruct (StrategyConfig.gradual_lots c) as [|l lots];
    eexists; cbn;
    (split; [reflexivity|]); (split; [exact Hno|]);
    (split; [exact Hpre|]); (split; [reflexivity|]);
    intros E; try discriminate; cbn; eauto.
Qed.

(** ** The command line *)

Section CommandLineFacts.

Context {F : Type}.
Variable pyfloat : string -> option F.

Local Ltac flag_cases arg :=
  destruct (String.eqb_spec arg "--token") as [->|?];
  [|destruct (String.eqb_spec arg "--entry-price") as [->|?];
    [|destruct (String.eqb_spec arg "--quantity") as [->|?];
      [|destruct (String.eqb_spec arg "--tp") as [->|?];
        [|destruct (String.eqb_spec arg "--sl") as [->|?];
          [|destruct (String.eqb_spec arg "--fee") as [->|?]]]]]].

Lemma override_spec (arg value : string) (c c' : StrategyConfig.t F)
    (q q' : F) :
  override pyfloat arg value (c, q) = Some (c', q') ->
  StrategyConfig.token c'
  = (if String.eqb arg "--token" then value else StrategyConfig.token c) /\
  (if String.eqb arg "--entry-price"
   then pyfloat value = Some (StrategyConfig.entry_price c')
   else StrategyConfig.entry_price c' = StrategyConfig.entry_price c) /\
  (if String.eqb arg "--quantity"
   then pyfloat value = Some q' else q' = q) /\
  (if String.eqb arg "--tp"
   then pyfloat value = Some (StrategyConfig.tp_percent c')
   else StrategyConfig.tp_percent c' = StrategyConfig.tp_percent c) /\
  (if String.eqb arg "--sl"
   then pyfloat value = Some (StrategyConfig.sl_percent c')
   else StrategyConfig.sl_percent c' = StrategyConfig.sl_percent c) /\
  (if String.eqb arg "--fee"
   then pyfloat value = Some (StrategyConfig.fee_percent c')
   else StrategyConfig.fee_percent c' = StrategyConfig.fee_percent c) /\
  StrategyConfig.exchange c' = StrategyConfig.exchange c /\
  StrategyConfig.gradual_enabled c' = StrategyConfig.gradual_enabled c /\
  StrategyConfig.gradual_lots c' = StrategyConfig.gradual_lots c /\
  StrategyConfig.check_interval_min c'
  = StrategyConfig.check_interval_min c.
Proof.
  unfold override. flag_cases arg; cbn;
    try (destruct (pyfloat value) as [x|]; cbn; [|discriminate]);
    intros [= <- <-]; cbn; auto 12.
Qed.

Lemma override_None (arg value : string) (cq : StrategyConfig.t F * F) :
  override pyfloat arg value cq = None <->
  In arg numeric_flags /\ pyfloat value = None.
Proof.
  destruct cq as [c q]. unfold override, numeric_flags.
  flag_cases arg; cbn;
    try (destruct (pyfloat value) as [x|]; cbn);
    (split; [intros E; try discriminate; auto 8|]);
    intros (Hin & Hp); try discriminate; try reflexivity;
    exfalso; intuition congruence.
Qed.

Lemma flag_value_cons (flag arg value : string) (rest : list string) :
  flag_value flag (arg :: value :: rest)
  = match flag_value flag (value :: rest) with
    | Some v => Some v
    | None => if String.eqb arg flag then Some value else None
    end.
Proof. reflexivity. Qed.

Lemma given_step (flag arg value : string) (rest : list string)
    (d d1 x : F) :
  (if String.eqb arg flag then pyfloat value = Some d1 else d1 = d) ->
  given pyfloat flag (value :: rest) d1 x ->
  given pyfloat flag (arg :: value :: rest) d x.
Proof.
  unfold given. rewrite flag_value_cons.
  destruct (flag_value flag (value :: rest)); [auto|].
  destruct (String.eqb arg flag); intros; congruence.
Qed.

Lemma overrides_result (args : list string) :
  forall (c c' : StrategyConfig.t F) (q q' : F),
    overrides pyfloat args (c, q) = Some (c', q') ->
    StrategyConfig.token c'
    = match flag_value "--token" args with
      | Some v => v
      | None => StrategyConfig.token c
      end /\
    given pyfloat "--entry-price" args
      (StrategyConfig.entry_price c) (StrategyConfig.entry_price c') /\
    given pyfloat "--quantity" args q q' /\
    given pyfloat "--tp" args
      (StrategyConfig.tp_percent c) (StrategyConfig.tp_percent c') /\
    given pyfloat "--sl" args
      (StrategyConfig.sl_percent c) (StrategyConfig.sl_percent c') /\
    given pyfloat "--fee" args
      (StrategyConfig.fee_percent c) (StrategyConfig.fee_percent c') /\
    StrategyConfig.exchange c' = StrategyConfig.exchange c /\
    StrategyConfig.gradual_enabled c' = StrategyConfig.gradual_enabled c /\
    StrategyConfig.gradual_lots c' = StrategyConfig.gradual_lots c /\
    StrategyConfig.check_interval_min c'
    = StrategyConfig.check_interval_min c.
Proof.
  induction args as [|arg rest IH]; intros c c' q q' Hrun.
  - injection Hrun as <- <-. unfold given. cbn. auto 12.
  - destruct rest as [|value rest].
    + injection Hrun as <- <-. unfold given. cbn. auto 12.
    + cbn [overrides] in Hrun.
      destruct (override pyfloat arg value (c, q)) as [[c1 q1]|] eqn:E;
        [|discriminate].
      destruct (override_spec _ _ _ _ _ _ E)
        as (Htok & Hentry & Hq & Htp & Hsl & Hfee & Hex & Hen & Hlots & Hint).
      destruct (IH _ _ _ _ Hrun)
        as (Itok & Ientry & Iq & Itp & Isl & Ifee & Iex & Ien & Ilots & Iint).
      split.
      { rewrite flag_value_cons, Itok, Htok.
        destruct (flag_value "--token" (value :: rest)); [reflexivity|].
        now destruct (String.eqb arg "--token"). }
      repeat (split; [eapply given_step; eassumption|]).
      repeat split; congruence.
Qed.

Lemma overrides_value_error (args : list string)
    (cq : StrategyConfig.t F * F) :
  overrides pyfloat args cq = None <->
  exists pre flag value post,
    args = pre ++ flag :: value :: post /\
    In flag numeric_flags /\ pyfloat value = None.
Proof.
  split.
  - revert cq. induction args as [|arg rest IH]; intros cq Hrun;
      [discriminate|].
    destruct rest as [|value rest]; [discriminate|].
    cbn [overrides] in Hrun.
    destruct (override pyfloat arg value cq) as [cq1|] eqn:E.
    + destruct (IH _ Hrun) as (pre & flag & v & post & Heq & Hin & Hp).
      exists (arg :: pre), flag, v, post. cbn. now rewrite Heq.
    + apply override_None in E. destruct E as (Hin & Hp).
      now exists [], arg, value, rest.
  - intros (pre & flag & value & post & -> & Hin & Hp). revert cq.
    induction pre as [|a pre IH]; intros cq.
    + cbn [app overrides].
      now rewrite (proj2 (override_None flag value cq) (conj Hin Hp)).
    + cbn [app].
      destruct (pre ++ flag :: value :: post) as [|v rest] eqn:E;
        [destruct pre; discriminate|].
      cbn [overrides].
      destruct (override pyfloat a v cq); [apply IH | reflexivity].
Qed.

Lemma startup_command_line (args : list string)
    (cq : StrategyConfig.t F * F) (out : option (StrategyConfig.t F * F)) :
  startup pyfloat args cq = CommandLine out <->
  interactive args = false /\ overrides pyfloat args cq = out.
Proof.
  unfold startup. destruct (interactive args); split.
  - discriminate.
  - intros (E & _). discriminate.
  - intros [= <-]. auto.
  - intros (_ & ->). reflexivity.
Qed.

(** X17 — What the command line sets: when [main()] takes its configuration
    from the arguments and the override loop succeeds, neither
    [--interactive] nor [-i] occurs among the arguments, and each of token,
    entry price, quantity, take-profit, stop-loss and fee holds the value
    that follows the last occurrence of its flag (an occurrence as last
    argument does not count; the value may itself be a flag of the loop),
    and its default when the flag is not given; the exchange, the mode flag,
    the stages and the check interval cannot be changed. *)
Theorem cli_overrides_result (args : list string)
    (c c' : StrategyConfig.t F) (q q' : F) :
  startup pyfloat args (c, q) = CommandLine (Some (c', q')) ->
  interactive args = false /\
  StrategyConfig.token c'
  = match flag_value "--token" args with
    | Some v => v
    | None => StrategyConfig.token c
    end /\
  given pyfloat "--entry-price" args
    (StrategyConfig.entry_price c) (StrategyConfig.entry_price c') /\
  given pyfloat "--quantity" args q q' /\
  given pyfloat "--tp" args
    (StrategyConfig.tp_percent c) (StrategyConfig.tp_percent c') /\
  given pyfloat "--sl" args
    (StrategyConfig.sl_percent c) (StrategyConfig.sl_percent c') /\
  given pyfloat "--fee" args
    (StrategyConfig.fee_percent c) (StrategyConfig.fee_percent c') /\
  StrategyConfig.exchange c' = StrategyConfig.exchange c /\
  StrategyConfig.gradual_enabled c' = StrategyConfig.gradual_enabled c /\
  StrategyConfig.gradual_lots c' = StrategyConfig.gradual_lots c /\
  StrategyConfig.check_interval_min c'
  = StrategyConfig.check_interval_min c.
Proof.
  intros Hrun. apply startup_command_line in Hrun.
  destruct Hrun as (Hi & Hrun).
  split; [exact Hi | exact (overrides_result _ _ _ _ _ Hrun)].
Qed.

(** X18 — [main()] fails in the override loop, with the [ValueError] of
    [float()], exactly when neither [--interactive] nor [-i] occurs among
    the arguments and some numeric flag is followed by an argument that does
    not read as a number; a token is never rejected. *)
Theorem cli_overrides_value_error (args : list string)
    (cq : StrategyConfig.t F * F) :
  startup pyfloat args cq = CommandLine None <->
  interactive args = false /\
  exists pre flag value post,
    args = pre ++ flag :: value :: post /\
    In flag numeric_flags /\ pyfloat value = None.
Proof.
  rewrite startup_command_line, overrides_value_error. reflexivity.
Qed.

End CommandLineFacts.

(** ** Every stage hit *)

Section AllStagesHit.

Context {F : Type} `{PyFloat F}.
Local Open Scope py_scope.
Variable c : StrategyConfig.t F.
Variable quantity : F.

Lemma gradual_sell_return (g : SimulationResult.t F) :
  StrategyConfig.gradual_lots c <> [] ->
  simulate_gradual_sell c quantity = Ok g ->
  SimulationResult.total_net_return_pct g
  = (SimulationResult.total_net_profit g /. total_cost c quantity)
    * fhundred.
Proof.
  intros Hne. unfold simulate_gradual_sell.
  destruct (StrategyConfig.gradual_lots c) as [|l lots] eqn:Hl;
    [congruence|].
  intros Hr.
  apply bind_Ok_inv in Hr. destruct Hr as (r1 & _ & Hr).
  apply bind_Ok_inv in Hr. destruct Hr as (q & Hq & Hr).
  apply bind_Ok_inv in Hr. destruct Hr as (r2 & Hsl & Hr).
  apply stop_loss_leg_keeps in Hsl. subst r2.
  apply risk_reward_keeps in Hr. destruct Hr as (w & ->).
  apply pydiv_Ok_inv in Hq. destruct Hq as (_ & ->). reflexivity.
Qed.

(** X19 — With every stage hit and nothing left over, the partial exit
    reproduces the gradual sale: the same lots, totals, return percent and
    stop-loss figures; only the scenario name differs, and the risk/reward
    ratio, which the partial exit leaves at zero. *)
Theorem partial_exit_all_hit (lots_hit : Z) (g r : SimulationResult.t F) :
  StrategyConfig.gradual_lots c <> [] ->
  (Z.of_nat (List.length (StrategyConfig.gradual_lots c)) <= lots_hit)%Z ->
  (remaining_pct_of c lots_hit >? f1e_3) = false ->
  simulate_gradual_sell c quantity = Ok g ->
  simulate_partial_exit c quantity lots_hit = Ok r ->
  SimulationResult.lot_results r = SimulationResult.lot_results g /\
  SimulationResult.total_gross_profit r
  = SimulationResult.total_gross_profit g /\
  SimulationResult.total_fees r = SimulationResult.total_fees g /\
  SimulationResult.total_net_profit r
  = SimulationResult.total_net_profit g /\
  SimulationResult.total_net_return_pct r
  = SimulationResult.total_net_return_pct g /\
  SimulationResult.sl_loss r = SimulationResult.sl_loss g /\
  SimulationResult.sl_return_pct r = SimulationResult.sl_return_pct g /\
  SimulationResult.risk_reward_ratio r = fzero.
Proof.
  intros Hne Hall Hrem Hg Hr.
  pose proof (gradual_sell_return g Hne Hg) as Hret.
  destruct (gradual_sell_inv _ _ _ Hne Hg) as (outs & v & w & Houts & ->).
  destruct (partial_exit_inv _ _ _ _ Hne Hr)
    as (outs' & sc & v' & Houts' & -> & -> & _).
  assert (Hn : stages_hit c lots_hit
               = List.length (StrategyConfig.gradual_lots c)).
  { unfold stages_hit. rewrite Z.min_r by exact Hall. apply Nat2Z.id. }
  rewrite Hn, firstn_all, Houts in Houts'. injection Houts' as <-.
  rewrite Hrem, app_nil_r in *.
  destruct (add_lots_fields outs
              (SimulationResult.new sc c quantity (total_cost c quantity)))
    as (R1 & R2 & R3 & R4 & _ & _ & _ & R8).
  destruct (add_lots_fields outs
              (SimulationResult.new "Venda Gradual" c quantity
                 (total_cost c quantity)))
    as (G1 & G2 & G3 & G4 & _).
  cbn in *. rewrite R1, R2, R3, R4, R8, G1, G2, G3, Hret, G4.
  repeat split.
Qed.

End AllStagesHit.

(** ** Witnesses of the further properties *)

Section FurtherWitnesses.

Import Examples CommandLineExamples.

(** X1 on the default configuration: four lots, numbered from 0. *)
Lemma gradual_lots_mirror_stages_witness :
  exists r,
    simulate_gradual_sell sol_config sol_quantity = Ok r /\
    map LotResult.lot_index (SimulationResult.lot_results r)
    = [0; 1; 2; 3]%Z.
Proof.
  destruct (simulate_gradual_sell sol_config sol_quantity) as [r|e] eqn:E;
    [|vm_compute in E; discriminate].
  exists r. split; [reflexivity|].
  exact (proj1 (gradual_lots_mirror_stages sol_config sol_quantity r E)).
Defined.

(** X2 on the default configuration with two stages hit. *)
Lemma partial_exit_lots_witness :
  StrategyConfig.gradual_lots sol_config <> [] /\
  exists r outs,
    simulate_partial_exit sol_config sol_quantity 2 = Ok r /\
    SimulationResult.lot_results r
    = outs ++ (if fltb f1e_3 (remaining_pct_of sol_config 2)
               then [closing_lot sol_config sol_quantity 2] else []) /\
    List.length outs = 2%nat.
Proof.
  assert (Hne : StrategyConfig.gradual_lots sol_config <> [])
    by discriminate.
  split; [exact Hne|].
  destruct (simulate_partial_exit sol_config sol_quantity 2) as [r|e] eqn:E;
    [|vm_compute in E; discriminate].
  destruct (partial_exit_lots sol_config sol_quantity 2 r Hne E)
    as (outs & Hlots & Hlen & _).
  exists r, outs. split; [reflexivity|]. split; [exact Hlots | exact Hlen].
Defined.

(** X3 on the default configuration with two stages hit. *)
Lemma partial_exit_leaves_ratio_unset_witness :
  StrategyConfig.gradual_lots sol_config <> [] /\
  exists r,
    simulate_partial_exit sol_config sol_quantity 2 = Ok r /\
    SimulationResult.risk_reward_ratio r = 0%float.
Proof.
  assert (Hne : StrategyConfig.gradual_lots sol_config <> [])
    by discriminate.
  split; [exact Hne|].
  destruct (simulate_partial_exit sol_config sol_quantity 2) as [r|e] eqn:E;
    [|vm_compute in E; discriminate].
  exists r. split; [reflexivity|].
  exact (proj1
           (partial_exit_leaves_ratio_unset sol_config sol_quantity 2 r
              Hne E)).
Defined.

(** X4 on the gradual sale of the default configuration. *)
Lemma totals_are_lot_sums_witness :
  exists r,
    simulate_gradual_sell sol_config sol_quantity = Ok r /\
    SimulationResult.total_fees r
    = pysum (map LotResult.fee (SimulationResult.lot_results r)).
Proof.
  destruct (simulate_gradual_sell sol_config sol_quantity) as [r|e] eqn:E;
    [|vm_compute in E; discriminate].
  exists r. split; [reflexivity|].
  exact (proj1 (proj2
           (totals_are_lot_sums sol_config sol_quantity r (or_introl E)))).
Defined.

(** X6 on one stage of 100% at +10%. *)
Lemma single_stage_matches_single_sell_witness :
  exists s g,
    simulate_single_sell one_stage sol_quantity = Ok s /\
    simulate_gradual_sell one_stage sol_quantity = Ok g /\
    SimulationResult.lot_results g = SimulationResult.lot_results s /\
    SimulationResult.total_net_profit g
    = SimulationResult.total_net_profit s /\
    SimulationResult.risk_reward_ratio g
    = SimulationResult.risk_reward_ratio s.
Proof.
  destruct (simulate_single_sell one_stage sol_quantity)
    as [s|e] eqn:E; [|vm_compute in E; discriminate].
  destruct (single_stage_matches_single_sell one_stage sol_quantity
              (GradualLot.new 100 10)%float s eq_refl eq_refl eq_refl E)
    as (g & Hg & Hlots & _ & _ & _ & _ & _ & Hnet).
  assert (Hnz : PrimFloat.eqb (SimulationResult.total_net_profit s) 0
                = false).
  { vm_compute in E. injection E as <-. reflexivity. }
  destruct (Hnet Hnz) as (H1 & _ & H3).
  exists s, g. split; [reflexivity|]. split; [exact Hg|].
  split; [exact Hlots|]. split; [exact H1 | exact H3].
Defined.

(** X8 on the default configuration with no stage hit. *)
Lemma partial_exit_without_hits_witness :
  StrategyConfig.gradual_lots sol_config <> [] /\
  exists r lot,
    simulate_partial_exit sol_config sol_quantity 0 = Ok r /\
    SimulationResult.lot_results r = [lot] /\
    LotResult.sell_percent lot = 100%float /\
    LotResult.lot_quantity lot = sol_quantity.
Proof.
  assert (Hne : StrategyConfig.gradual_lots sol_config <> [])
    by discriminate.
  split; [exact Hne|].
  destruct (simulate_partial_exit sol_config sol_quantity 0)
    as [r|e] eqn:E; [|vm_compute in E; discriminate].
  destruct (partial_exit_without_hits sol_config sol_quantity
              0 r Hne (Z.le_refl 0) E)
    as (lot & sl & slr & Hlots & _ & Hpct & Hqty & _).
  exists r, lot. split; [reflexivity|]. split; [exact Hlots|].
  split; [exact Hpct | exact Hqty].
Defined.

(** X9 on the falling path: the log is the same when the rising path is
    appended. *)
Lemma completed_log_is_final_witness :
  exists ev s,
    simulate_price_series sol_config sol_quantity falling_prices
    = Ok ([Trade ev] ++ [SUMMARY s]) /\
    Summary.status s = COMPLETED /\
    simulate_price_series sol_config sol_quantity
      (falling_prices ++ rising_prices)
    = Ok ([Trade ev] ++ [SUMMARY s]).
Proof.
  eexists _, _.
  split; [vm_compute; reflexivity|].
  split; [vm_compute; reflexivity|].
  apply completed_log_is_final.
  - intros E. vm_compute in E. discriminate E.
  - vm_compute. reflexivity.
  - vm_compute. reflexivity.
Defined.

(** X10 on the rising path. *)
Lemma log_ticks_increase_witness :
  exists log,
    simulate_price_series sol_config sol_quantity rising_prices = Ok log /\
    StronglySorted lt (trade_ticks log).
Proof.
  destruct (simulate_price_series sol_config sol_quantity rising_prices)
    as [log|e] eqn:E; [|vm_compute in E; discriminate].
  exists log. split; [reflexivity|].
  exact (proj1 (log_ticks_increase sol_config sol_quantity _ _ E)).
Defined.

(** X11 on the falling path. *)
Lemma liquidation_closes_log_witness :
  exists log stages closing s,
    simulate_price_series sol_config sol_quantity falling_prices = Ok log /\
    log = map Trade stages ++ map Trade closing ++ [SUMMARY s].
Proof.
  destruct (simulate_price_series sol_config sol_quantity falling_prices)
    as [log|e] eqn:E; [|vm_compute in E; discriminate].
  destruct (liquidation_closes_log sol_config sol_quantity _ _ E)
    as (stages & closing & s & Hlog & _).
  exists log, stages, closing, s. split; [reflexivity | exact Hlog].
Defined.

(** X12 on the rising path. *)
Lemma no_stage_sold_twice_witness :
  exists log,
    simulate_price_series sol_config sol_quantity rising_prices = Ok log /\
    NoDup (tp_lot_numbers log).
Proof.
  destruct (simulate_price_series sol_config sol_quantity rising_prices)
    as [log|e] eqn:E; [|vm_compute in E; discriminate].
  exists log. split; [reflexivity|].
  exact (proj1 (no_stage_sold_twice sol_config sol_quantity _ _ E)).
Defined.

(** X13 on prices between -2.8% and +8.4%. *)
Lemma quiet_prices_log_no_trade_witness :
  Forall (quiet sol_config) flat_prices /\
  exists s,
    simulate_price_series sol_config sol_quantity flat_prices
    = Ok [SUMMARY s] /\
    Summary.status s = OPEN.
Proof.
  assert (Hq : Forall (quiet sol_config) flat_prices).
  { unfold flat_prices.
    repeat (apply Forall_cons;
            [eexists; split; [vm_compute; reflexivity|];
             split; [vm_compute; reflexivity|];
             vm_compute; repeat (apply Forall_cons; [reflexivity|]);
             apply Forall_nil|]).
    apply Forall_nil. }
  split; [exact Hq|]. eexists.
  split; [exact (quiet_prices_log_no_trade sol_config sol_quantity _ Hq)|].
  vm_compute. reflexivity.
Defined.

(** X14 on the rising path without stages: the take-profit fires at
    tick 10. *)
Lemma take_profit_ends_walk_witness :
  let pre := firstn 10 rising_prices in
  let price := nth 10 rising_prices 0%float in
  let post := skipn 11 rising_prices in
  let ch := ((price - 36) / 36 * 100)%float in
  StrategyConfig.gradual_lots single_config = [] /\
  walk single_config sol_quantity (initial single_config sol_quantity) 0 pre
  = Ok (initial single_config sol_quantity, Continue) /\
  change_pct_of single_config price = Ok ch /\
  (ch <=? - 5)%float = false /\
  (10 <=? ch)%float = true /\
  (0.0001 <? sol_quantity)%float = true /\
  exists ev s,
    simulate_price_series single_config sol_quantity (pre ++ price :: post)
    = Ok [Trade ev; SUMMARY s] /\
    Event.event ev = TAKE_PROFIT /\ Event.tick ev = 10%nat /\
    Summary.status s = COMPLETED.
Proof.
  intros pre price post ch.
  assert (H0 : StrategyConfig.gradual_lots single_config = [])
    by reflexivity.
  assert (H1 : walk single_config sol_quantity
                 (initial single_config sol_quantity) 0 pre
               = Ok (initial single_config sol_quantity, Continue))
    by (vm_compute; reflexivity).
  assert (H2 : change_pct_of single_config price = Ok ch)
    by (vm_compute; reflexivity).
  assert (H3 : fleb ch (fneg (StrategyConfig.sl_percent single_config))
               = false)
    by (vm_compute; reflexivity).
  assert (H4 : fleb (StrategyConfig.tp_percent single_config) ch = true)
    by (vm_compute; reflexivity).
  assert (H5 : fltb f1e_4 sol_quantity = true)
    by (vm_compute; reflexivity).
  split; [exact H0|]. split; [exact H1|]. split; [exact H2|].
  split; [exact H3|]. split; [exact H4|]. split; [exact H5|].
  destruct (take_profit_ends_walk single_config sol_quantity pre post price
              ch _ H0 H1 H2 H3 H4 H5)
    as (s & Hlog & _ & _ & _ & Hstatus).
  eexists _, s. split; [exact Hlog|].
  split; [reflexivity|]. split; [reflexivity | exact Hstatus].
Defined.

(** X15: the default stages under another token, exchange, interval, flag
    and single take-profit give the same log on the rising path. *)
Lemma walker_inputs_witness :
  StrategyConfig.gradual_enabled relabelled_config
  <> StrategyConfig.gradual_enabled sol_config /\
  simulate_price_series relabelled_config sol_quantity rising_prices
  = simulate_price_series sol_config sol_quantity rising_prices.
Proof.
  split; [discriminate|].
  apply walker_inputs; try reflexivity. discriminate.
Defined.

(** X16 on the mode flag set with no stage configured. *)
Lemma payload_name_witness :
  exists head config,
    getitem (generate_api_payload enabled_without_stages) "name"
    = Some (PStr (String.append head " Swing Gradual")) /\
    getitem (generate_api_payload enabled_without_stages) "config"
    = Some (PDict config) /\
    getitem config "gradual_sell" = None.
Proof.
  destruct (payload_name enabled_without_stages)
    as (head & config & Hname & _ & _ & Hconfig & Hlevels).
  exists head, config. split; [exact Hname|]. split; [exact Hconfig|].
  exact (proj1 (Hlevels eq_refl)).
Defined.

(** X17 on a command line with a repeated flag, a flag as value and a flag
    as last argument. *)
Lemma cli_overrides_result_witness :
  exists c' q',
    startup read_float sol_args (sol_config, sol_quantity)
    = CommandLine (Some (c', q')) /\
    StrategyConfig.token c' = "--entry-price"%string /\
    read_float "40" = Some (StrategyConfig.entry_price c') /\
    read_float "2.5" = Some (StrategyConfig.tp_percent c') /\
    StrategyConfig.gradual_lots c' = sol_lots.
Proof.
  destruct (overrides read_float sol_args (sol_config, sol_quantity))
    as [[c' q']|] eqn:E; [|vm_compute in E; discriminate].
  assert (Hrun : startup read_float sol_args (sol_config, sol_quantity)
                 = CommandLine (Some (c', q'))).
  { apply startup_command_line. split; [reflexivity | exact E]. }
  destruct (cli_overrides_result read_float sol_args _ _ _ _ Hrun)
    as (_ & Htoken & Hentry & _ & Htp & _ & _ & _ & _ & Hlots & _).
  exists c', q'. split; [exact Hrun|]. split; [exact Htoken|].
  split; [exact Hentry|]. split; [exact Htp | exact Hlots].
Defined.

(** X18 on a take-profit that is not a number. *)
Lemma cli_overrides_value_error_witness :
  startup read_float ["--token"; "--tp"; "ten"]%string
    (sol_config, sol_quantity)
  = CommandLine None.
Proof.
  apply (proj2 (cli_overrides_value_error read_float _ _)).
  split; [reflexivity|].
  exists ["--token"%string], "--tp"%string, "ten"%string, [].
  split; [reflexivity|]. split; [|reflexivity].
  right. right. left. reflexivity.
Defined.

(** X19 on the default configuration with its four stages hit. *)
Lemma partial_exit_all_hit_witness :
  StrategyConfig.gradual_lots sol_config <> [] /\
  fltb f1e_3 (remaining_pct_of sol_config 4) = false /\
  exists g r,
    simulate_gradual_sell sol_config sol_quantity = Ok g /\
    simulate_partial_exit sol_config sol_quantity 4 = Ok r /\
    SimulationResult.lot_results r = SimulationResult.lot_results g /\
    SimulationResult.total_net_profit r
    = SimulationResult.total_net_profit g.
Proof.
  assert (Hne : StrategyConfig.gradual_lots sol_config <> [])
    by discriminate.
  assert (Hrem : fltb f1e_3 (remaining_pct_of sol_config 4) = false)
    by (vm_compute; reflexivity).
  assert (Hall : (Z.of_nat
                    (List.length (StrategyConfig.gradual_lots sol_config))
                  <= 4)%Z)
    by (vm_compute; discriminate).
  split; [exact Hne|]. split; [exact Hrem|].
  destruct (simulate_gradual_sell sol_config sol_quantity) as [g|e] eqn:Eg;
    [|vm_compute in Eg; discriminate].
  destruct (simulate_partial_exit sol_config sol_quantity 4) as [r|e] eqn:Er;
    [|vm_compute in Er; discriminate].
  destruct (partial_exit_all_hit sol_config sol_quantity 4 g r
              Hne Hall Hrem Eg Er)
    as (Hlots & _ & _ & Hnet & _).
  exists g, r. split; [reflexivity|]. split; [reflexivity|].
  split; [exact Hlots | exact Hnet].
Defined.

End FurtherWitnesses.
